(** * The task/project store of xenon007/todo

    A shallow embedding of [internal/storage/sqlite] (the [Store] methods and
    the SQL statements they send) and of [internal/models], followed by the
    properties of the position-assignment logic.

    Go strings are byte strings ([string]), [int64] values are [Z] with the
    wrap-around of Go's arithmetic written out, the two tables are lists of
    rows in rowid order, and every [Store] method is a computation over the
    request context and the database. *)

From stdpp Require Import base option list sorting gmap strings.
From Stdlib Require Import ZArith Lia.

Local Open Scope string_scope.
Local Open Scope list_scope.
Local Open Scope Z_scope.

(** ** Go's [int64] *)

Module Int64.
Definition min : Z := - 2 ^ 63.
Definition max : Z := 2 ^ 63 - 1.

Definition in_range (z : Z) : Prop := min <= z <= max.

(** Two's-complement wrap-around of a mathematical integer. *)
Definition wrap (z : Z) : Z := (z + 2 ^ 63) mod 2 ^ 64 - 2 ^ 63.

(** Go's [x + y] on [int64]. *)
Definition add (x y : Z) : Z := wrap (x + y).
End Int64.

(** ** [strings.TrimSpace]

    The standard library function removes the leading and trailing white
    space of a string, as defined by Unicode.  On the UTF-8 bytes of a Go
    string a white-space rune is one of the following byte sequences. *)

Module strings.
Definition bytes (l : list N) : string :=
  foldr (fun n s => String (Ascii.ascii_of_N n) s) EmptyString l.

(** [unicode.IsSpace]: the characters with the White_Space property. *)
Definition spaceRunes : list string :=
  map bytes
    [ [9]; [10]; [11]; [12]; [13]; [32]             (* \t \n \v \f \r ' ' *)
    ; [194; 133]; [194; 160]                        (* U+0085, U+00A0 *)
    ; [225; 154; 128]                               (* U+1680 *)
    ; [226; 128; 128]; [226; 128; 129]; [226; 128; 130]; [226; 128; 131]
    ; [226; 128; 132]; [226; 128; 133]; [226; 128; 134]; [226; 128; 135]
    ; [226; 128; 136]; [226; 128; 137]; [226; 128; 138]  (* U+2000..U+200A *)
    ; [226; 128; 168]; [226; 128; 169]; [226; 128; 175]  (* U+2028/9, U+202F *)
    ; [226; 129; 159]                               (* U+205F *)
    ; [227; 128; 128] ]%N.                          (* U+3000 *)

(** [stripPrefix p s] is the rest of [s] after the prefix [p]. *)
Fixpoint stripPrefix (p s : string) : option string :=
  match p, s with
  | EmptyString, _ => Some s
  | String a p', String b s' => if Ascii.eqb a b then stripPrefix p' s' else None
  | String _ _, EmptyString => None
  end.

(** The string without its first rune, when that rune is white space. *)
Definition dropSpace (runes : list string) (s : string) : option string :=
  foldr (fun p acc => match stripPrefix p s with Some r => Some r | None => acc end)
        None runes.

Fixpoint trimLeftFuel (runes : list string) (fuel : nat) (s : string) : string :=
  match fuel with
  | O => s
  | S fuel' =>
      match dropSpace runes s with
      | Some r => trimLeftFuel runes fuel' r
      | None => s
      end
  end.

Definition TrimLeftSpace (s : string) : string :=
  trimLeftFuel spaceRunes (String.length s) s.

(** Trailing white space: the same scan on the reversed bytes. *)
Definition TrimRightSpace (s : string) : string :=
  String.rev (trimLeftFuel (map String.rev spaceRunes) (String.length s) (String.rev s)).

Definition TrimSpace (s : string) : string := TrimRightSpace (TrimLeftSpace s).
End strings.

(** ** [internal/models] *)

Module models.

(** [time.Time] as stored by SQLite's [CURRENT_TIMESTAMP]: whole seconds. *)
Definition Time : Type := Z.

Module Project.
Record t : Type := mk
  { ID : Z
  ; Name : string
  ; Color : string
  ; CreatedAt : Time
  ; UpdatedAt : Time }.
Definition zero : t := mk 0 "" "" 0 0.
End Project.

Module Task.
Record t : Type := mk
  { ID : Z
  ; ProjectID : Z
  ; Title : string
  ; Description : string
  ; Status : string
  ; Position : Z
  ; CreatedAt : Time
  ; UpdatedAt : Time }.
Definition zero : t := mk 0 0 "" "" "" 0 0 0.
End Task.

(** [ValidTaskStatuses]: the key set of the map. *)
Definition ValidTaskStatuses : gset string :=
  {[ "todo"; "in_progress"; "done" ]}.

Definition valid_status (v : string) : bool :=
  bool_decide (v ∈ ValidTaskStatuses).

End models.
Import models.

(** ** The database behind [Store.db]

    The schema of [migrate]: [projects] and [tasks], each with an
    [INTEGER PRIMARY KEY AUTOINCREMENT] rowid (whose high-water mark SQLite
    keeps in [sqlite_sequence]), [projects.name] unique, and
    [tasks.project_id] a foreign key with [ON DELETE CASCADE] (the connection
    is opened with [_foreign_keys=ON]).  Rows are kept in rowid order. *)

Record DB : Type := mkDB
  { projects : list Project.t
  ; tasks : list Task.t
  ; seq_projects : Z          (* sqlite_sequence.seq for projects *)
  ; seq_tasks : Z }.          (* sqlite_sequence.seq for tasks *)

Definition empty_db : DB := mkDB [] [] 0 0.

(** What a statement can fail with. *)
Inductive db_error : Type :=
  | ErrConstraintUnique       (* UNIQUE constraint failed: projects.name *)
  | ErrConstraintForeignKey   (* FOREIGN KEY constraint failed *)
  | ErrCanceled.              (* the request context is done *)

(** The [error] values the store builds: [fmt.Errorf(msg)] and
    [fmt.Errorf(msg + ": %w", cause)]. *)
Inductive error : Type :=
  | Errorf (msg : string) (cause : option db_error).

(** [context.Context]: either never cancelled, or cancelled after [n] more
    statements have run on the connection. *)
Inductive Context : Type :=
  | Background
  | CancelAfter (n : nat).

(** What the store takes from its environment during one call: the value of
    [CURRENT_TIMESTAMP] at the write statement and the result of
    [rand.Intn(len(palette))]. *)
Record Env : Type := mkEnv
  { clock : Time
  ; intn : nat }.

(** A Go function returning [(T, error)] over the connection. *)
Definition Exec (E A : Type) : Type := Context * DB -> (Context * DB) * (E + A).

#[global] Instance Exec_ret {E} : MRet (Exec E) :=
  fun _ a s => (s, inr a).
#[global] Instance Exec_bind {E} : MBind (Exec E) :=
  fun _ _ f m s =>
    match m s with
    | (s', inr a) => f a s'
    | (s', inl e) => (s', inl e)
    end.

Definition fail {E A} (e : E) : Exec E A := fun s => (s, inl e).

(** [if err != nil { return ..., fmt.Errorf("msg: %w", err) }] *)
Definition wrapf {A} (msg : string) (m : Exec db_error A) : Exec error A :=
  fun s =>
    match m s with
    | (s', inr a) => (s', inr a)
    | (s', inl e) => (s', inl (Errorf msg (Some e)))
    end.

(** One statement sent with [ExecContext]/[QueryContext]/[QueryRowContext]:
    it does not run when the context is done, and runs atomically
    otherwise. *)
Definition stmt {A} (run : DB -> DB * (db_error + A)) : Exec db_error A :=
  fun '(ctx, db) =>
    match ctx with
    | CancelAfter O => ((ctx, db), inl ErrCanceled)
    | CancelAfter (S n) => let '(db', r) := run db in ((CancelAfter n, db'), r)
    | Background => let '(db', r) := run db in ((Background, db'), r)
    end.

Definition query {A} (q : DB -> A) : Exec db_error A :=
  stmt (fun db => (db, inr (q db))).

(** *** The SQL statements *)

Module SQL.

(** [ORDER BY] as a stable sort of the scanned rows: a row goes before the
    first row that is not smaller. *)
Section OrderBy.
Context {A : Type} (le : A -> A -> bool).

Fixpoint insert_row (x : A) (l : list A) : list A :=
  match l with
  | [] => [x]
  | y :: l' => if le x y then x :: y :: l' else y :: insert_row x l'
  end.

Definition order_by (l : list A) : list A := foldr insert_row [] l.
End OrderBy.

(** The rowid AUTOINCREMENT gives to a new row is one more than the largest
    rowid the table ever held.  (Rowids are taken as unbounded: a table
    that used up all 2^63-1 of them is outside this model.) *)
Definition max_rowid (ids : list Z) (seq : Z) : Z := foldr Z.max seq ids.

(** [SELECT ... FROM projects ORDER BY created_at ASC] *)
Definition select_projects (db : DB) : list Project.t :=
  order_by (fun p q => Project.CreatedAt p <=? Project.CreatedAt q) (projects db).

(** [SELECT ... FROM projects WHERE id = ?] ([None] is [sql.ErrNoRows]) *)
Definition select_project (id : Z) (db : DB) : option Project.t :=
  find (fun p => Project.ID p =? id) (projects db).

(** [INSERT INTO projects(name, color) VALUES(?, ?)]: the new rowid. *)
Definition insert_project (now : Time) (name color : string) (db : DB)
  : DB * (db_error + Z) :=
  let id := max_rowid (map Project.ID (projects db)) (seq_projects db) + 1 in
  if existsb (fun p => String.eqb (Project.Name p) name) (projects db)
  then (db, inl ErrConstraintUnique)
  else (mkDB (projects db ++ [Project.mk id name color now now]) (tasks db)
             id (seq_tasks db),
        inr id).

(** [UPDATE projects SET name = ?, color = ?, updated_at = CURRENT_TIMESTAMP
    WHERE id = ?], then the trigger [trg_projects_updated] on each updated
    row: the number of rows changed. *)
Definition trg_projects_updated (now : Time) (p : Project.t) : Project.t :=
  Project.mk (Project.ID p) (Project.Name p) (Project.Color p)
             (Project.CreatedAt p) now.

Definition update_project (now : Time) (name color : string) (id : Z) (db : DB)
  : DB * (db_error + Z) :=
  if existsb (fun p => Project.ID p =? id) (projects db)
     && existsb (fun p => negb (Project.ID p =? id) && String.eqb (Project.Name p) name)
                (projects db)
  then (db, inl ErrConstraintUnique)
  else (mkDB (map (fun p => if Project.ID p =? id
                            then trg_projects_updated now
                                   (Project.mk (Project.ID p) name color
                                               (Project.CreatedAt p) now)
                            else p) (projects db))
             (tasks db) (seq_projects db) (seq_tasks db),
        inr (Z.of_nat (length (filter (fun p => Project.ID p = id) (projects db))))).

(** [DELETE FROM projects WHERE id = ?]; every deleted row takes the tasks
    that reference it with it ([ON DELETE CASCADE]).  The number of rows
    changed counts the project rows only. *)
Definition delete_project (id : Z) (db : DB) : DB * (db_error + Z) :=
  if existsb (fun p => Project.ID p =? id) (projects db)
  then (mkDB (filter (fun p => Project.ID p ≠ id) (projects db))
             (filter (fun t => Task.ProjectID t ≠ id) (tasks db))
             (seq_projects db) (seq_tasks db),
        inr (Z.of_nat (length (filter (fun p => Project.ID p = id) (projects db)))))
  else (db, inr 0).

(** The order of [ORDER BY status, position, id]: [status] is TEXT under the
    BINARY collation (bytewise), the other two are integers. *)
Definition task_le (t u : Task.t) : bool :=
  match String.compare (Task.Status t) (Task.Status u) with
  | Lt => true
  | Gt => false
  | Eq =>
      match Task.Position t ?= Task.Position u with
      | Lt => true
      | Gt => false
      | Eq => Task.ID t <=? Task.ID u
      end
  end.

(** [SELECT ... FROM tasks WHERE project_id = ? ORDER BY status, position, id] *)
Definition select_tasks (projectID : Z) (db : DB) : list Task.t :=
  order_by task_le (filter (fun t => Task.ProjectID t = projectID) (tasks db)).

(** [SELECT ... FROM tasks WHERE id = ?] *)
Definition select_task (id : Z) (db : DB) : option Task.t :=
  find (fun t => Task.ID t =? id) (tasks db).

(** [INSERT INTO tasks(project_id, title, description, status, position)
    VALUES(?, ?, ?, ?, ?)] *)
Definition insert_task (now : Time) (projectID : Z) (title description status : string)
    (position : Z) (db : DB) : DB * (db_error + Z) :=
  let id := max_rowid (map Task.ID (tasks db)) (seq_tasks db) + 1 in
  if negb (existsb (fun p => Project.ID p =? projectID) (projects db))
  then (db, inl ErrConstraintForeignKey)
  else (mkDB (projects db)
             (tasks db ++ [Task.mk id projectID title description status position now now])
             (seq_projects db) id,
        inr id).

(** [UPDATE tasks SET title = ?, description = ?, status = ?, position = ?,
    updated_at = CURRENT_TIMESTAMP WHERE id = ?], then the trigger
    [trg_tasks_updated]. *)
Definition trg_tasks_updated (now : Time) (t : Task.t) : Task.t :=
  Task.mk (Task.ID t) (Task.ProjectID t) (Task.Title t) (Task.Description t)
          (Task.Status t) (Task.Position t) (Task.CreatedAt t) now.

Definition update_task (now : Time) (title description status : string)
    (position : Z) (id : Z) (db : DB) : DB * (db_error + Z) :=
  (mkDB (projects db)
        (map (fun t => if Task.ID t =? id
                       then trg_tasks_updated now
                              (Task.mk (Task.ID t) (Task.ProjectID t) title description
                                       status position (Task.CreatedAt t) now)
                       else t) (tasks db))
        (seq_projects db) (seq_tasks db),
   inr (Z.of_nat (length (filter (fun t => Task.ID t = id) (tasks db))))).

(** [DELETE FROM tasks WHERE id = ?] *)
Definition delete_task (id : Z) (db : DB) : DB * (db_error + Z) :=
  (mkDB (projects db) (filter (fun t => Task.ID t ≠ id) (tasks db))
        (seq_projects db) (seq_tasks db),
   inr (Z.of_nat (length (filter (fun t => Task.ID t = id) (tasks db))))).

(** The rows of one column of one project. *)
Definition partition (projectID : Z) (status : string) (db : DB) : list Task.t :=
  filter (fun t => Task.ProjectID t = projectID ∧ Task.Status t = status) (tasks db).

(** [MAX] over a column: NULL on no rows. *)
Definition max_of (l : list Z) : option Z :=
  match l with
  | [] => None
  | x :: l' => Some (foldr Z.max x l')
  end.

(** [SELECT MAX(position) FROM tasks WHERE project_id = ? AND status = ?] *)
Definition select_max_position (projectID : Z) (status : string) (db : DB) : option Z :=
  max_of (map Task.Position (partition projectID status db)).

End SQL.

(** ** [internal/storage/sqlite]: the [Store] methods *)

(** Go's [any], as far as a type assertion [.(string)] can tell. *)
Inductive any : Type :=
  | AnyNil
  | AnyString (s : string)
  | AnyInt (z : Z)
  | AnyBool (b : bool).

(** [v, ok := m[key].(string)] *)
Definition assert_string (v : option any) : option string :=
  match v with
  | Some (AnyString s) => Some s
  | _ => None
  end.

Module Store.

Definition palette : list string :=
  [ "#2563eb"; "#7c3aed"; "#dc2626"; "#059669"; "#ea580c"; "#d97706"; "#0ea5e9" ].

(** [palette[rand.Intn(len(palette))]] *)
Definition randomPaletteColor (env : Env) : string :=
  default "" (palette !! (intn env `mod` length palette)%nat).

(** [ListProjects] retrieves all projects ordered by creation date. *)
Definition ListProjects : Exec error (list Project.t) :=
  wrapf "list projects" (query SQL.select_projects).

(** [GetProject] fetches a single project by id. *)
Definition GetProject (id : Z) : Exec error Project.t :=
  row ← wrapf "get project" (query (SQL.select_project id));
  match row with
  | None => fail (Errorf "project not found" None)
  | Some p => mret p
  end.

(** [CreateProject] persists a new project with optional color.
    ([res.LastInsertId] of the SQLite driver returns no error.) *)
Definition CreateProject (env : Env) (name color : string) : Exec error Project.t :=
  if decide (strings.TrimSpace name = "")
  then fail (Errorf "project name must not be empty" None)
  else
    let color := if decide (color = "") then randomPaletteColor env else color in
    id ← wrapf "insert project"
           (stmt (SQL.insert_project (clock env) (strings.TrimSpace name) color));
    GetProject id.

(** [UpdateProject] renames a project and optionally changes its color. *)
Definition UpdateProject (env : Env) (id : Z) (name color : string)
  : Exec error Project.t :=
  if decide (strings.TrimSpace name = "")
  then fail (Errorf "project name must not be empty" None)
  else
    let color := if decide (color = "") then randomPaletteColor env else color in
    affected ← wrapf "update project"
                 (stmt (SQL.update_project (clock env) (strings.TrimSpace name) color id));
    if decide (affected = 0)
    then fail (Errorf "project not found" None)
    else GetProject id.

(** [DeleteProject] removes a project along with its tasks. *)
Definition DeleteProject (id : Z) : Exec error unit :=
  affected ← wrapf "delete project" (stmt (SQL.delete_project id));
  if decide (affected = 0)
  then fail (Errorf "project not found" None)
  else mret tt.

(** [ListTasks] returns tasks for the given project ordered by status and
    position. *)
Definition ListTasks (projectID : Z) : Exec error (list Task.t) :=
  wrapf "list tasks" (query (SQL.select_tasks projectID)).

(** [GetTask] retrieves a task by id. *)
Definition GetTask (id : Z) : Exec error Task.t :=
  row ← wrapf "get task" (query (SQL.select_task id));
  match row with
  | None => fail (Errorf "task not found" None)
  | Some t => mret t
  end.

Definition nextPosition (projectID : Z) (status : string) : Exec error Z :=
  position ← wrapf "select position" (query (SQL.select_max_position projectID status));
  match position with
  | Some m => mret (Int64.add m 1)      (* position.Valid *)
  | None => mret 0
  end.

(** The status [CreateTask] goes on with: [t.Status], or "todo" when that
    is not a key of [ValidTaskStatuses]. *)
Definition create_status (t : Task.t) : string :=
  if valid_status (Task.Status t) then Task.Status t else "todo".

(** [CreateTask] inserts a new task for a project. *)
Definition CreateTask (env : Env) (t : Task.t) : Exec error Task.t :=
  if decide (strings.TrimSpace (Task.Title t) = "")
  then fail (Errorf "task title must not be empty" None)
  else
    let status := create_status t in
    pos ← nextPosition (Task.ProjectID t) status;
    id ← wrapf "insert task"
           (stmt (SQL.insert_task (clock env) (Task.ProjectID t)
                    (strings.TrimSpace (Task.Title t))
                    (strings.TrimSpace (Task.Description t)) status pos));
    GetTask id.

(** The fields [UpdateTask] resolves from the current row and the patch. *)
Definition resolve_title (current : Task.t) (changes : gmap string any) : string :=
  match assert_string (changes !! "title") with
  | Some v => if decide (strings.TrimSpace v = "") then Task.Title current
              else strings.TrimSpace v
  | None => Task.Title current
  end.

Definition resolve_description (current : Task.t) (changes : gmap string any) : string :=
  match assert_string (changes !! "description") with
  | Some v => strings.TrimSpace v
  | None => Task.Description current
  end.

Definition resolve_status (current : Task.t) (changes : gmap string any) : string :=
  match assert_string (changes !! "status") with
  | Some v => if valid_status v then v else Task.Status current
  | None => Task.Status current
  end.

(** [UpdateTask] updates task fields and moves the task between columns
    when needed. *)
Definition UpdateTask (env : Env) (id : Z) (changes : gmap string any)
  : Exec error Task.t :=
  current ← GetTask id;
  let title := resolve_title current changes in
  let description := resolve_description current changes in
  let status := resolve_status current changes in
  position ← (if decide (status = Task.Status current)
              then mret (Task.Position current)
              else nextPosition (Task.ProjectID current) status);
  _ ← wrapf "update task"
        (stmt (SQL.update_task (clock env) title description status position id));
  GetTask id.

(** [DeleteTask] removes a task by id. *)
Definition DeleteTask (id : Z) : Exec error unit :=
  affected ← wrapf "delete task" (stmt (SQL.delete_task id));
  if decide (affected = 0)
  then fail (Errorf "task not found" None)
  else mret tt.

End Store.

(** *** Calls on the store, as the HTTP layer makes them *)

Inductive Call : Type :=
  | CreateProject (name color : string)
  | UpdateProject (id : Z) (name color : string)
  | DeleteProject (id : Z)
  | CreateTask (t : Task.t)
  | UpdateTask (id : Z) (changes : gmap string any)
  | DeleteTask (id : Z).

(** What a call leaves of its result once the value is dropped. *)
Definition outcome {A} (r : (Context * DB) * (error + A)) : DB * option error :=
  (r.1.2, match r.2 with inl e => Some e | inr _ => None end).

Definition run (ctx : Context) (env : Env) (c : Call) (db : DB) : DB * option error :=
  match c with
  | CreateProject name color => outcome (Store.CreateProject env name color (ctx, db))
  | UpdateProject id name color => outcome (Store.UpdateProject env id name color (ctx, db))
  | DeleteProject id => outcome (Store.DeleteProject id (ctx, db))
  | CreateTask t => outcome (Store.CreateTask env t (ctx, db))
  | UpdateTask id changes => outcome (Store.UpdateTask env id changes (ctx, db))
  | DeleteTask id => outcome (Store.DeleteTask id (ctx, db))
  end.

(** The databases the store can produce, starting from a new file. *)
Inductive reachable : DB -> Prop :=
  | reachable_empty : reachable empty_db
  | reachable_run ctx env c db : reachable db -> reachable (run ctx env c db).1.


Definition run_all (l : list (Context * Env * Call)) (db : DB) : DB :=
  foldl (fun db '(ctx, env, c) => (run ctx env c db).1) db l.

(** ** Vocabulary of the statements *)

(** The context lets [n] more statements run; what is left of it after. *)
Definition permits (ctx : Context) (n : nat) : Prop :=
  match ctx with
  | Background => True
  | CancelAfter m => (n <= m)%nat
  end.

Definition after (n : nat) (ctx : Context) : Context :=
  match ctx with
  | Background => Background
  | CancelAfter m => CancelAfter (m - n)
  end.

(** The error kinds of the specification (section 7), read off the errors
    the store builds: an error without a cause is the "not found" of a
    lookup or else a rejected field; a cause is a uniqueness conflict or a
    fault of the storage layer. *)
Inductive ErrorKind : Type :=
  | ValidationError
  | ConflictError
  | NotFoundError
  | StorageError.

Definition kind (e : error) : ErrorKind :=
  match e with
  | Errorf msg None =>
      if decide (msg = "project not found" ∨ msg = "task not found")
      then NotFoundError else ValidationError
  | Errorf _ (Some ErrConstraintUnique) => ConflictError
  | Errorf _ (Some _) => StorageError
  end.

(** [m] is the largest position in the column [(projectID, status)]. *)
Definition is_max_position (projectID : Z) (status : string) (db : DB) (m : Z) : Prop :=
  (∃ t, t ∈ SQL.partition projectID status db ∧ Task.Position t = m) ∧
  (∀ t, t ∈ SQL.partition projectID status db → Task.Position t <= m).

(** The value [nextPosition] computes on [db]. *)
Definition next_position (projectID : Z) (status : string) (db : DB) : Z :=
  match SQL.select_max_position projectID status db with
  | Some m => Int64.add m 1
  | None => 0
  end.

(** Bytewise order on strings, and the lexicographic order on
    [(status, position, id)]. *)
Definition bytes_lt (a b : string) : Prop := String.compare a b = Lt.

Definition lex_le (t u : Task.t) : Prop :=
  bytes_lt (Task.Status t) (Task.Status u) ∨
  (Task.Status t = Task.Status u ∧
   (Task.Position t < Task.Position u ∨
    (Task.Position t = Task.Position u ∧ Task.ID t <= Task.ID u))).

(** [x] comes before [y] in [l]. *)
Definition listed_before {A} (x y : A) (l : list A) : Prop :=
  ∃ l1 l2 l3, l = l1 ++ x :: l2 ++ y :: l3.

(** The order [ListProjects] puts projects in: by [created_at], and by
    creation (rowid) among equal timestamps. *)
Definition created_before (p q : Project.t) : Prop :=
  Project.CreatedAt p < Project.CreatedAt q ∨
  (Project.CreatedAt p = Project.CreatedAt q ∧ Project.ID p < Project.ID q).

(** A call that works on other columns than [(projectID, status)]. *)
Definition elsewhere (projectID : Z) (status : string) (db : DB) (c : Call) : Prop :=
  match c with
  | CreateProject _ _ | UpdateProject _ _ _ => True
  | DeleteProject id => id ≠ projectID
  | CreateTask t => ¬ (Task.ProjectID t = projectID ∧ Store.create_status t = status)
  | UpdateTask id changes =>
      match SQL.select_task id db with
      | Some current =>
          ¬ (Task.ProjectID current = projectID ∧ Task.Status current = status) ∧
          ¬ (Task.ProjectID current = projectID ∧
             Store.resolve_status current changes = status)
      | None => True
      end
  | DeleteTask id => ∀ t, t ∈ SQL.partition projectID status db → Task.ID t ≠ id
  end.

Fixpoint all_elsewhere (projectID : Z) (status : string)
    (l : list (Context * Env * Call)) (db : DB) : Prop :=
  match l with
  | [] => True
  | (ctx, env, c) :: l' =>
      elsewhere projectID status db c ∧
      all_elsewhere projectID status l' (run ctx env c db).1
  end.

(** What the schema and the store keep true of the database. *)
Record consistent (db : DB) : Prop := mkConsistent
  { project_ids_increasing : StronglySorted Z.lt (map Project.ID (projects db))
  ; task_ids_increasing : StronglySorted Z.lt (map Task.ID (tasks db))
  ; tasks_have_project :
      ∀ t, t ∈ tasks db → ∃ p, p ∈ projects db ∧ Project.ID p = Task.ProjectID t
  ; statuses_valid : ∀ t, t ∈ tasks db → valid_status (Task.Status t) = true
  ; positions_int64 : ∀ t, t ∈ tasks db → Int64.in_range (Task.Position t) }.

(** The single write a call makes, when it makes one. *)
Inductive write (db : DB) : DB -> Prop :=
  | write_insert_project now name color id db' :
      SQL.insert_project now name color db = (db', inr id) -> write db db'
  | write_update_project now name color id n db' :
      SQL.update_project now name color id db = (db', inr n) -> write db db'
  | write_delete_project id n db' :
      SQL.delete_project id db = (db', inr n) -> write db db'
  | write_insert_task now t id db' :
      SQL.insert_task now (Task.ProjectID t) (strings.TrimSpace (Task.Title t))
        (strings.TrimSpace (Task.Description t)) (Store.create_status t)
        (next_position (Task.ProjectID t) (Store.create_status t) db) db
      = (db', inr id) -> write db db'
  | write_update_task now id changes current n db' :
      SQL.select_task id db = Some current ->
      SQL.update_task now (Store.resolve_title current changes)
        (Store.resolve_description current changes)
        (Store.resolve_status current changes)
        (if decide (Store.resolve_status current changes = Task.Status current)
         then Task.Position current
         else next_position (Task.ProjectID current)
                (Store.resolve_status current changes) db)
        id db
      = (db', inr n) -> write db db'
  | write_delete_task id n db' :
      SQL.delete_task id db = (db', inr n) -> write db db'.

(** The rows the store writes, and the database after the write. *)
Definition project_exists (id : Z) (db : DB) : Prop :=
  ∃ p, p ∈ projects db ∧ Project.ID p = id.

Definition name_taken (name : string) (db : DB) : Prop :=
  ∃ p, p ∈ projects db ∧ Project.Name p = name.

Definition new_task (env : Env) (t : Task.t) (db : DB) : Task.t :=
  Task.mk (SQL.max_rowid (map Task.ID (tasks db)) (seq_tasks db) + 1)
    (Task.ProjectID t)
    (strings.TrimSpace (Task.Title t)) (strings.TrimSpace (Task.Description t))
    (Store.create_status t)
    (next_position (Task.ProjectID t) (Store.create_status t) db)
    (clock env) (clock env).

Definition with_new_task (env : Env) (t : Task.t) (db : DB) : DB :=
  mkDB (projects db) (tasks db ++ [new_task env t db])
       (seq_projects db) (Task.ID (new_task env t db)).

Definition patched_position (current : Task.t) (changes : gmap string any) (db : DB) : Z :=
  if decide (Store.resolve_status current changes = Task.Status current)
  then Task.Position current
  else next_position (Task.ProjectID current) (Store.resolve_status current changes) db.

Definition patched_task (env : Env) (current : Task.t) (changes : gmap string any)
    (db : DB) : Task.t :=
  Task.mk (Task.ID current) (Task.ProjectID current)
    (Store.resolve_title current changes) (Store.resolve_description current changes)
    (Store.resolve_status current changes) (patched_position current changes db)
    (Task.CreatedAt current) (clock env).

Definition with_patched_task (env : Env) (id : Z) (current : Task.t)
    (changes : gmap string any) (db : DB) : DB :=
  (SQL.update_task (clock env) (Store.resolve_title current changes)
     (Store.resolve_description current changes) (Store.resolve_status current changes)
     (patched_position current changes db) id db).1.

Definition chosen_color (env : Env) (color : string) : string :=
  if decide (color = "") then Store.randomPaletteColor env else color.

Definition new_project (env : Env) (name color : string) (db : DB) : Project.t :=
  Project.mk (SQL.max_rowid (map Project.ID (projects db)) (seq_projects db) + 1)
    (strings.TrimSpace name) (chosen_color env color) (clock env) (clock env).

Definition with_new_project (env : Env) (name color : string) (db : DB) : DB :=
  mkDB (projects db ++ [new_project env name color db]) (tasks db)
       (Project.ID (new_project env name color db)) (seq_tasks db).

(** From [db] to [db'] every task either stays in its column at its position,
    or has a non-negative position above all that its column held in [db]. *)
Definition keeps_or_appends (db db' : DB) : Prop :=
  ∀ t', t' ∈ tasks db' →
    (∃ t, t ∈ tasks db ∧ Task.ID t = Task.ID t' ∧
          Task.ProjectID t = Task.ProjectID t' ∧ Task.Status t = Task.Status t' ∧
          Task.Position t = Task.Position t') ∨
    (0 <= Task.Position t' ∧
     ∀ u, u ∈ SQL.partition (Task.ProjectID t') (Task.Status t') db →
          Task.Position u < Task.Position t').

(** The argument of [CreateTask] with another status. *)
Definition with_status (status : string) (t : Task.t) : Task.t :=
  Task.mk (Task.ID t) (Task.ProjectID t) (Task.Title t) (Task.Description t) status
          (Task.Position t) (Task.CreatedAt t) (Task.UpdatedAt t).

(** The error of a read-back that the context cut off. *)
Definition readback_cancelled (e : error) : Prop :=
  e = Errorf "get project" (Some ErrCanceled) ∨ e = Errorf "get task" (Some ErrCanceled).

(** ** Sample data *)

Definition env0 : Env := mkEnv 100 3.

Definition a_task (projectID : Z) (title status : string) : Task.t :=
  Task.mk 0 projectID title "" status 0 0 0.

(** A new database with the project "Launch" (id 1), as the call
    [CreateProject "Launch" ""] leaves it. *)
Definition db_launch : DB :=
  mkDB [Project.mk 1 "Launch" "#059669" 100 100] [] 1 0.

(** Work on the columns "done" and "in_progress" of project 1, one call cut
    off by its context. *)
Definition other_columns : list (Context * Env * Call) :=
  [ (Background, mkEnv 102 0, CreateTask (a_task 1 "Ship" "done"))
  ; (Background, mkEnv 103 0, UpdateTask 2 {[ "status" := AnyString "in_progress" ]})
  ; (CancelAfter 2, mkEnv 104 0, CreateTask (a_task 1 "Archive" "done"))
  ; (Background, mkEnv 105 0, DeleteTask 2)
  ; (Background, mkEnv 106 5, CreateProject "Backlog" "") ].

(** Project 1 with "Write spec" (1) and "Review" (2) in "todo" and "Ship" (3)
    in "done", and the calls that make it. *)
Definition board_calls : list (Context * Env * Call) :=
  [ (Background, env0, CreateProject "Launch" "")
  ; (Background, mkEnv 101 0, CreateTask (a_task 1 "Write spec" "todo"))
  ; (Background, mkEnv 102 0, CreateTask (a_task 1 " Review " "bogus"))
  ; (Background, mkEnv 103 0, CreateTask (a_task 1 "Ship" "done")) ].

Definition db_board : DB :=
  mkDB [Project.mk 1 "Launch" "#059669" 100 100]
       [ Task.mk 1 1 "Write spec" "" "todo" 0 101 101
       ; Task.mk 2 1 "Review" "" "todo" 1 102 102
       ; Task.mk 3 1 "Ship" "" "done" 0 103 103 ] 1 3.

(** Three projects, two of them created within the same second. *)
Definition db_projects : DB :=
  mkDB [ Project.mk 1 "Launch" "#059669" 100 100
       ; Project.mk 2 "Backlog" "#d97706" 100 100
       ; Project.mk 3 "Ops" "#2563eb" 105 105 ] [] 3 0.

Definition projects_calls : list (Context * Env * Call) :=
  [ (Background, env0, CreateProject "Launch" "")
  ; (Background, mkEnv 100 5, CreateProject " Backlog" "")
  ; (Background, mkEnv 105 0, CreateProject "Ops" "") ].

(** A database whose column (1, "todo") has reached the largest [int64]. *)
Definition db_top : DB :=
  mkDB [Project.mk 1 "Launch" "#059669" 100 100]
       [Task.mk 1 1 "Write spec" "" "todo" Int64.max 101 101] 1 1.

(** ** [strconv.ParseInt(s, 10, 64)]

    The standard library function, for base 10: an optional sign, then one or
    more decimal digits, and a value that fits [int64]; [None] is any of its
    errors. *)

Module strconv.
Definition digit (c : Ascii.ascii) : option Z :=
  let n := Z.of_N (Ascii.N_of_ascii c) in
  if (48 <=? n) && (n <=? 57) then Some (n - 48) else None.

Fixpoint digits (acc : Z) (s : string) : option Z :=
  match s with
  | EmptyString => Some acc
  | String c s' =>
      match digit c with
      | Some d => digits (10 * acc + d) s'
      | None => None
      end
  end.

(** The magnitude [ParseUint] reads (its own range error is subsumed by the
    one of [ParseInt]). *)
Definition magnitude (s : string) : option Z :=
  match s with
  | EmptyString => None
  | _ => digits 0 s
  end.

Definition ParseInt (s : string) : option Z :=
  match s with
  | EmptyString => None
  | String c s' =>
      let neg := (Ascii.N_of_ascii c =? 45)%N in                  (* '-' *)
      let rest := if (Ascii.N_of_ascii c =? 43)%N || neg then s' else s in  (* '+' *)
      match magnitude rest with
      | None => None
      | Some un =>
          if neg then (if un <=? 2 ^ 63 then Some (- un) else None)
          else (if un <? 2 ^ 63 then Some un else None)
      end
  end.
End strconv.

(** ** [internal/server]: the handlers of the task and project routes

    A handler reads the path parameter and the JSON body gin bound for it,
    calls the store with the context of the request, and writes one JSON
    response. *)

Module server.

(** [taskRequest]: each field a [*string], [None] for [nil]. *)
Record taskRequest : Type := mkTaskRequest
  { Title : option string
  ; Description : option string
  ; Status : option string }.

Record projectRequest : Type := mkProjectRequest
  { Name : string
  ; Color : string }.

(** [err.Error()] of the store's errors and their causes. *)
Definition cause_text (c : db_error) : string :=
  match c with
  | ErrConstraintUnique => "UNIQUE constraint failed: projects.name"
  | ErrConstraintForeignKey => "FOREIGN KEY constraint failed"
  | ErrCanceled => "context canceled"
  end.

Definition Error (e : error) : string :=
  match e with
  | Errorf msg None => msg
  | Errorf msg (Some c) => msg ++ ": " ++ cause_text c
  end.

(** The payloads: [gin.H{"error": ...}], [{"projects": ...}], [{"project":
    ...}], [{"tasks": ...}], [{"task": ...}], [{"status": ...}]. *)
Inductive Body : Type :=
  | ErrorBody (msg : string)
  | ProjectsBody (l : list Project.t)
  | ProjectBody (p : Project.t)
  | TasksBody (l : list Task.t)
  | TaskBody (t : Task.t)
  | StatusBody (s : string).

Record Response : Type := mkResponse
  { code : Z
  ; body : Body }.

Definition StatusOK : Z := 200.
Definition StatusCreated : Z := 201.
Definition StatusBadRequest : Z := 400.
Definition StatusInternalServerError : Z := 500.

(** A handler: from the connection as the request finds it to the
    connection as it leaves it, and the response. *)
Definition Handler : Type := Context * DB -> (Context * DB) * Response.

(** [respondError] and [respondSuccess] (the payload is never [nil]). *)
Definition respondError (status : Z) (err : error) : Response :=
  mkResponse status (ErrorBody (Error err)).

Definition respondSuccess (status : Z) (payload : Body) : Response :=
  mkResponse status payload.

(** [parseID] converts a path parameter to [int64] with error handling. *)
Definition parseID (raw : string) : Response + Z :=
  match strconv.ParseInt raw with
  | Some id => inr id
  | None => inl (mkResponse StatusBadRequest (ErrorBody "invalid identifier"))
  end.

Definition getString (v : option string) : string :=
  match v with
  | None => ""
  | Some s => s
  end.

(** The [updates] map [handleUpdateTask] fills from the request. *)
Definition updates (req : taskRequest) : gmap string any :=
  let m0 : gmap string any := ∅ in
  let m1 := match Title req with
            | Some v => if decide (v = "") then m0 else <[ "title" := AnyString v ]> m0
            | None => m0
            end in
  let m2 := match Description req with
            | Some v => <[ "description" := AnyString v ]> m1
            | None => m1
            end in
  match Status req with
  | Some v => <[ "status" := AnyString v ]> m2
  | None => m2
  end.

(** [handleListProjects] returns all available projects. *)
Definition handleListProjects : Handler :=
  fun s =>
    match Store.ListProjects s with
    | (s', inl err) => (s', respondError StatusInternalServerError err)
    | (s', inr projects) => (s', respondSuccess StatusOK (ProjectsBody projects))
    end.

(** [handleCreateProject] creates a new project entity; [bind] is what
    [ShouldBindJSON] made of the body, [inl] its error. *)
Definition handleCreateProject (env : Env) (bind : error + projectRequest) : Handler :=
  fun s =>
    match bind with
    | inl err => (s, respondError StatusBadRequest err)
    | inr req =>
        match Store.CreateProject env (Name req) (Color req) s with
        | (s', inl err) => (s', respondError StatusBadRequest err)
        | (s', inr project) => (s', respondSuccess StatusCreated (ProjectBody project))
        end
    end.

(** [handleUpdateProject] renames or recolors an existing project. *)
Definition handleUpdateProject (env : Env) (raw : string)
    (bind : error + projectRequest) : Handler :=
  fun s =>
    match parseID raw with
    | inl resp => (s, resp)
    | inr id =>
        match bind with
        | inl err => (s, respondError StatusBadRequest err)
        | inr req =>
            match Store.UpdateProject env id (Name req) (Color req) s with
            | (s', inl err) => (s', respondError StatusBadRequest err)
            | (s', inr project) => (s', respondSuccess StatusOK (ProjectBody project))
            end
        end
    end.

(** [handleDeleteProject] removes a project and all related tasks. *)
Definition handleDeleteProject (raw : string) : Handler :=
  fun s =>
    match parseID raw with
    | inl resp => (s, resp)
    | inr id =>
        match Store.DeleteProject id s with
        | (s', inl err) => (s', respondError StatusBadRequest err)
        | (s', inr _) => (s', respondSuccess StatusOK (StatusBody "deleted"))
        end
    end.

(** [handleListTasks] fetches tasks for a project. *)
Definition handleListTasks (raw : string) : Handler :=
  fun s =>
    match parseID raw with
    | inl resp => (s, resp)
    | inr projectID =>
        match Store.ListTasks projectID s with
        | (s', inl err) => (s', respondError StatusInternalServerError err)
        | (s', inr tasks) => (s', respondSuccess StatusOK (TasksBody tasks))
        end
    end.

(** [handleCreateTask] inserts a new task into a project column. *)
Definition handleCreateTask (env : Env) (raw : string)
    (bind : error + taskRequest) : Handler :=
  fun s =>
    match parseID raw with
    | inl resp => (s, resp)
    | inr projectID =>
        match bind with
        | inl err => (s, respondError StatusBadRequest err)
        | inr req =>
            match Title req with
            | None => (s, respondError StatusBadRequest (Errorf "title is required" None))
            | Some title =>
                if decide (title = "")
                then (s, respondError StatusBadRequest (Errorf "title is required" None))
                else
                  match Store.CreateTask env
                          (Task.mk 0 projectID title (getString (Description req))
                                   (getString (Status req)) 0 0 0) s with
                  | (s', inl err) => (s', respondError StatusBadRequest err)
                  | (s', inr task) => (s', respondSuccess StatusCreated (TaskBody task))
                  end
            end
        end
    end.

(** [handleUpdateTask] updates task fields such as status or description. *)
Definition handleUpdateTask (env : Env) (raw : string)
    (bind : error + taskRequest) : Handler :=
  fun s =>
    match parseID raw with
    | inl resp => (s, resp)
    | inr id =>
        match bind with
        | inl err => (s, respondError StatusBadRequest err)
        | inr req =>
            match Store.UpdateTask env id (updates req) s with
            | (s', inl err) => (s', respondError StatusBadRequest err)
            | (s', inr task) => (s', respondSuccess StatusOK (TaskBody task))
            end
        end
    end.

(** [handleDeleteTask] removes a task completely. *)
Definition handleDeleteTask (raw : string) : Handler :=
  fun s =>
    match parseID raw with
    | inl resp => (s, resp)
    | inr id =>
        match Store.DeleteTask id s with
        | (s', inl err) => (s', respondError StatusBadRequest err)
        | (s', inr _) => (s', respondSuccess StatusOK (StatusBody "deleted"))
        end
    end.

End server.

(** ** More vocabulary *)

(** Rowids lie between 1 and the high-water mark of their table. *)
Definition rowids_bounded (db : DB) : Prop :=
  0 <= seq_projects db ∧ 0 <= seq_tasks db ∧
  (∀ p, p ∈ projects db → 1 <= Project.ID p <= seq_projects db) ∧
  (∀ t, t ∈ tasks db → 1 <= Task.ID t <= seq_tasks db).

(** Project names are unique and not empty. *)
Definition names_ok (db : DB) : Prop :=
  NoDup (map Project.Name (projects db)) ∧
  ∀ p, p ∈ projects db → Project.Name p ≠ "".

(** No two tasks of a column share a position. *)
Definition distinct_positions (db : DB) : Prop :=
  ∀ t u, t ∈ tasks db → u ∈ tasks db →
    Task.ProjectID t = Task.ProjectID u → Task.Status t = Task.Status u →
    Task.Position t = Task.Position u → Task.ID t = Task.ID u.

(** Project 1 with two tasks in "todo", at positions [a] and [b]. *)
Definition db_pair (a b : Z) : DB :=
  mkDB [Project.mk 1 "Launch" "#2563eb" 0 0]
       [ Task.mk 1 1 "A" "" "todo" a 0 0
       ; Task.mk 2 1 "B" "" "todo" b 0 0 ] 1 2.

(** A move of task [id] to the column [status]. *)
Definition move (id : Z) (status : string) : Context * Env * Call :=
  (Background, mkEnv 0 0, UpdateTask id {[ "status" := AnyString status ]}).

(** * Properties *)

(** ** Running statements under a context *)

Lemma ctx_cases ctx : ctx = CancelAfter 0 ∨ permits ctx 1.
Proof. destruct ctx as [|[|n]]; simpl; auto; right; lia. Qed.

Lemma permits_after ctx n m : permits ctx (n + m) → permits (after n ctx) m.
Proof. destruct ctx; simpl; auto; lia. Qed.

Lemma permits_le ctx n m : (m <= n)%nat → permits ctx n → permits ctx m.
Proof. destruct ctx; simpl; auto; lia. Qed.

Lemma after_after ctx n m : after m (after n ctx) = after (n + m) ctx.
Proof. destruct ctx; simpl; auto; f_equal; lia. Qed.

Lemma stmt_run {A} (r : DB → DB * (db_error + A)) ctx db :
  permits ctx 1 → stmt r (ctx, db) = ((after 1 ctx, (r db).1), (r db).2).
Proof.
  destruct ctx as [|[|n]]; simpl; try lia; intros _; destruct (r db); simpl;
    repeat f_equal; lia.
Qed.

Lemma stmt_done {A} (r : DB → DB * (db_error + A)) db :
  stmt r (CancelAfter 0, db) = ((CancelAfter 0, db), inl ErrCanceled).
Proof. reflexivity. Qed.

Lemma query_run {A} (q : DB → A) ctx db :
  permits ctx 1 → query q (ctx, db) = ((after 1 ctx, db), inr (q db)).
Proof. intros H. unfold query. by rewrite stmt_run. Qed.

Lemma bind_run {E A B} (m : Exec E A) (f : A → Exec E B) s s' a :
  m s = (s', inr a) → (m ≫= f) s = f a s'.
Proof. unfold mbind, Exec_bind. by intros ->. Qed.

Lemma bind_fail {E A B} (m : Exec E A) (f : A → Exec E B) s s' e :
  m s = (s', inl e) → (m ≫= f) s = (s', inl e).
Proof. unfold mbind, Exec_bind. by intros ->. Qed.

Lemma wrapf_run {A} msg (m : Exec db_error A) s s' a :
  m s = (s', inr a) → wrapf msg m s = (s', inr a).
Proof. unfold wrapf. by intros ->. Qed.

Lemma wrapf_fail {A} msg (m : Exec db_error A) s s' e :
  m s = (s', inl e) → wrapf msg m s = (s', inl (Errorf msg (Some e))).
Proof. unfold wrapf. by intros ->. Qed.

(** ** The reads *)

Lemma nextPosition_run projectID status ctx db :
  permits ctx 1 →
  Store.nextPosition projectID status (ctx, db)
  = ((after 1 ctx, db), inr (next_position projectID status db)).
Proof.
  intros H. unfold Store.nextPosition, next_position.
  erewrite bind_run; [|by apply wrapf_run, query_run].
  by destruct (SQL.select_max_position _ _ _).
Qed.

Lemma nextPosition_done projectID status db :
  Store.nextPosition projectID status (CancelAfter 0, db)
  = ((CancelAfter 0, db), inl (Errorf "select position" (Some ErrCanceled))).
Proof. reflexivity. Qed.

Lemma GetTask_run id ctx db :
  permits ctx 1 →
  Store.GetTask id (ctx, db)
  = ((after 1 ctx, db),
     match SQL.select_task id db with
     | Some t => inr t
     | None => inl (Errorf "task not found" None)
     end).
Proof.
  intros H. unfold Store.GetTask.
  erewrite bind_run; [|by apply wrapf_run, query_run].
  by destruct (SQL.select_task _ _).
Qed.

Lemma GetTask_done id db :
  Store.GetTask id (CancelAfter 0, db)
  = ((CancelAfter 0, db), inl (Errorf "get task" (Some ErrCanceled))).
Proof. reflexivity. Qed.

Lemma GetProject_run id ctx db :
  permits ctx 1 →
  Store.GetProject id (ctx, db)
  = ((after 1 ctx, db),
     match SQL.select_project id db with
     | Some p => inr p
     | None => inl (Errorf "project not found" None)
     end).
Proof.
  intros H. unfold Store.GetProject.
  erewrite bind_run; [|by apply wrapf_run, query_run].
  by destruct (SQL.select_project _ _).
Qed.

Lemma GetProject_done id db :
  Store.GetProject id (CancelAfter 0, db)
  = ((CancelAfter 0, db), inl (Errorf "get project" (Some ErrCanceled))).
Proof. reflexivity. Qed.

(** ** Rows and rowids *)

Lemma max_rowid_seq ids seq : seq <= SQL.max_rowid ids seq.
Proof. induction ids as [|i ids IH]; simpl; lia. Qed.

Lemma max_rowid_ge ids seq i : i ∈ ids → i <= SQL.max_rowid ids seq.
Proof.
  induction ids as [|j ids IH]; simpl; [by intros ?%elem_of_nil|].
  intros [->|H]%elem_of_cons; [lia|]. specialize (IH H). lia.
Qed.

Lemma find_snoc_fresh {A} (f : A → bool) l x :
  (∀ y, y ∈ l → f y = false) → f x = true → find f (l ++ [x]) = Some x.
Proof.
  intros Hl Hx. induction l as [|y l IH]; simpl; [by rewrite Hx|].
  rewrite (Hl y) by left. apply IH. intros z Hz. apply Hl. by right.
Qed.

Lemma find_map_update {A} (f : A → bool) (g : A → A) l x :
  (∀ y, f (g y) = f y) →
  find f l = Some x →
  find f (map (λ y, if f y then g y else y) l) = Some (g x).
Proof.
  intros Hg. induction l as [|y l IH]; simpl; [done|].
  destruct (f y) eqn:Hy.
  - intros [= ->]. by rewrite Hg, Hy.
  - rewrite Hy. apply IH.
Qed.

Lemma find_elem_of {A} (f : A → bool) l x : find f l = Some x → x ∈ l ∧ f x = true.
Proof.
  induction l as [|y l IH]; simpl; [done|].
  destruct (f y) eqn:Hy.
  - intros [= ->]. split; [left|done].
  - intros H. destruct (IH H). split; [by right|done].
Qed.

Lemma find_none {A} (f : A → bool) l : find f l = None → ∀ x, x ∈ l → f x = false.
Proof.
  induction l as [|y l IH]; simpl; [by intros _ x ?%elem_of_nil|].
  destruct (f y) eqn:Hy; [done|]. intros H x [->|Hx]%elem_of_cons; auto.
Qed.

Lemma existsb_elem_of {A} (f : A → bool) l :
  existsb f l = true ↔ ∃ x, x ∈ l ∧ f x = true.
Proof.
  rewrite existsb_exists. split; intros (x & H & ?); exists x; split; auto;
    by apply list_elem_of_In.
Qed.

Lemma existsb_find {A} (f : A → bool) l :
  existsb f l = true ↔ ∃ x, find f l = Some x.
Proof.
  induction l as [|y l IH]; simpl.
  - split; [done|]. by intros [? ?].
  - destruct (f y); simpl; [|done]. split; eauto.
Qed.

(** A unique rowid picks out one row. *)
Lemma select_task_unique id db t :
  NoDup (map Task.ID (tasks db)) → t ∈ tasks db → Task.ID t = id →
  SQL.select_task id db = Some t.
Proof.
  unfold SQL.select_task. induction (tasks db) as [|u l IH]; simpl.
  - by intros _ ?%elem_of_nil.
  - intros [Hu Hl]%NoDup_cons [->|Ht]%elem_of_cons Hid.
    + by rewrite (proj2 (Z.eqb_eq _ _) Hid).
    + destruct (Z.eqb_spec (Task.ID u) id) as [E|]; [|by apply IH].
      exfalso. apply Hu. rewrite E, <- Hid. by apply list_elem_of_fmap_2.
Qed.

Lemma StronglySorted_lt_NoDup l : StronglySorted Z.lt l → NoDup l.
Proof.
  induction 1 as [|x l _ IH Hx]; constructor; [|done].
  intros Hin. rewrite Forall_forall in Hx. specialize (Hx _ Hin). lia.
Qed.

Lemma StronglySorted_lt_snoc l x :
  StronglySorted Z.lt l → (∀ y, y ∈ l → y < x) → StronglySorted Z.lt (l ++ [x]).
Proof.
  intros. apply StronglySorted_app_2; [|done|repeat constructor].
  intros ? ? ? ->%list_elem_of_singleton. auto.
Qed.

Lemma StronglySorted_filter {A} (R : relation A) (P : A → Prop) `{∀ x, Decision (P x)} l :
  StronglySorted R l → StronglySorted R (filter P l).
Proof.
  induction 1 as [|x l _ IH Hx]; [constructor|].
  rewrite filter_cons. destruct (decide (P x)); [|done].
  constructor; [done|]. rewrite Forall_forall in *.
  intros y [_ ?]%list_elem_of_filter. auto.
Qed.

(** ** The task methods, statement by statement *)

Lemma project_exists_existsb id db :
  existsb (λ p, Project.ID p =? id) (projects db) = true ↔ project_exists id db.
Proof.
  rewrite existsb_elem_of. unfold project_exists.
  split; intros (p & ? & H); exists p; split; auto; lia.
Qed.

Lemma insert_task_ok env t db :
  project_exists (Task.ProjectID t) db →
  SQL.insert_task (clock env) (Task.ProjectID t) (strings.TrimSpace (Task.Title t))
    (strings.TrimSpace (Task.Description t)) (Store.create_status t)
    (next_position (Task.ProjectID t) (Store.create_status t) db) db
  = (with_new_task env t db, inr (Task.ID (new_task env t db))).
Proof.
  intros H%project_exists_existsb. unfold SQL.insert_task. by rewrite H.
Qed.

Lemma insert_task_orphan now projectID title description status position db :
  ¬ project_exists projectID db →
  SQL.insert_task now projectID title description status position db
  = (db, inl ErrConstraintForeignKey).
Proof.
  intros H. unfold SQL.insert_task.
  destruct (existsb _ _) eqn:E; [|done]. by apply project_exists_existsb in E.
Qed.

Lemma select_new_task env t db :
  SQL.select_task (Task.ID (new_task env t db)) (with_new_task env t db)
  = Some (new_task env t db).
Proof.
  unfold SQL.select_task, with_new_task. simpl. apply find_snoc_fresh.
  - intros u Hu. apply Z.eqb_neq.
    assert (Task.ID u ∈ map Task.ID (tasks db)) as H by by apply list_elem_of_fmap_2.
    apply (max_rowid_ge _ (seq_tasks db)) in H. lia.
  - apply Z.eqb_refl.
Qed.

Lemma select_patched_task env id current changes db :
  SQL.select_task id db = Some current →
  SQL.select_task id (with_patched_task env id current changes db)
  = Some (patched_task env current changes db).
Proof.
  intros H. unfold SQL.select_task, with_patched_task, SQL.update_task in *. simpl.
  by rewrite (find_map_update (λ t, Task.ID t =? id) _ _ current).
Qed.

(** Goals about what a context permits. *)
Ltac ctx_tac :=
  repeat match goal with c : Context |- _ => destruct c end;
  simpl in *; try done; try lia; repeat f_equal; lia.

(** [CreateTask] in a context that lasts. *)
Lemma CreateTask_ok env t ctx db :
  permits ctx 3 →
  strings.TrimSpace (Task.Title t) ≠ "" →
  project_exists (Task.ProjectID t) db →
  Store.CreateTask env t (ctx, db)
  = ((after 3 ctx, with_new_task env t db), inr (new_task env t db)).
Proof.
  intros Hctx Htitle Hp. unfold Store.CreateTask.
  rewrite decide_False by done.
  erewrite bind_run; [|apply nextPosition_run; ctx_tac].
  erewrite bind_run; cycle 1.
  { apply wrapf_run. rewrite stmt_run, insert_task_ok by (try done; ctx_tac).
    reflexivity. }
  rewrite GetTask_run, !after_after, select_new_task; [done|ctx_tac].
Qed.

Ltac not_readback := intros [?|?]; congruence.

Lemma project_exists_cases id db : project_exists id db ∨ ¬ project_exists id db.
Proof.
  destruct (existsb (λ p, Project.ID p =? id) (projects db)) eqn:E.
  - left. by apply project_exists_existsb.
  - right. intros H%project_exists_existsb. congruence.
Qed.

(** [CreateTask] in any context: nothing is written, or the row is written
    and only the read-back can still fail. *)
Lemma CreateTask_cases env t ctx db :
  let r := Store.CreateTask env t (ctx, db) in
  (r.1.2 = db ∧ ∃ e, r.2 = inl e ∧ ¬ readback_cancelled e) ∨
  (r.1.2 = with_new_task env t db ∧
   strings.TrimSpace (Task.Title t) ≠ "" ∧ project_exists (Task.ProjectID t) db ∧
   (r.2 = inr (new_task env t db) ∨
    r.2 = inl (Errorf "get task" (Some ErrCanceled)))).
Proof.
  simpl. unfold Store.CreateTask.
  destruct (decide (strings.TrimSpace (Task.Title t) = "")) as [|Htitle].
  { left. split; [done|]. eexists; split; [done|not_readback]. }
  destruct (ctx_cases ctx) as [->|H1].
  { left. split; [done|]. eexists; split; [done|not_readback]. }
  erewrite bind_run; [|by apply nextPosition_run].
  destruct (ctx_cases (after 1 ctx)) as [E|H2].
  { left. rewrite E. split; [done|]. eexists; split; [done|not_readback]. }
  destruct (project_exists_cases (Task.ProjectID t) db) as [Hp|Hp]; cycle 1.
  { left. erewrite bind_fail; cycle 1.
    { apply wrapf_fail. rewrite stmt_run, insert_task_orphan by done. reflexivity. }
    split; [done|]. eexists; split; [done|not_readback]. }
  right. erewrite bind_run; cycle 1.
  { apply wrapf_run. rewrite stmt_run, insert_task_ok by done. reflexivity. }
  destruct (ctx_cases (after 1 (after 1 ctx))) as [E|H3].
  - rewrite E, GetTask_done. auto.
  - rewrite GetTask_run, select_new_task by done. auto.
Qed.

(** [UpdateTask] on an existing task, in a context that lasts: three
    statements, and a fourth (the position lookup) when the status changes. *)
Lemma UpdateTask_ok env id changes ctx db current :
  permits ctx 4 →
  SQL.select_task id db = Some current →
  Store.UpdateTask env id changes (ctx, db)
  = ((after (if decide (Store.resolve_status current changes = Task.Status current)
             then 3 else 4) ctx,
      with_patched_task env id current changes db),
     inr (patched_task env current changes db)).
Proof.
  intros Hctx Hcur. unfold Store.UpdateTask.
  erewrite bind_run; [|rewrite GetTask_run, Hcur by ctx_tac; reflexivity].
  pose proof (select_patched_task env id current changes db Hcur) as H.
  unfold patched_task, with_patched_task, patched_position in *.
  destruct (decide (Store.resolve_status current changes = Task.Status current)).
  - erewrite bind_run; [|reflexivity].
    erewrite bind_run; [|apply wrapf_run; rewrite stmt_run by ctx_tac; reflexivity].
    rewrite GetTask_run by ctx_tac. by rewrite H, !after_after.
  - erewrite bind_run; [|apply nextPosition_run; ctx_tac].
    erewrite bind_run; [|apply wrapf_run; rewrite stmt_run by ctx_tac; reflexivity].
    rewrite GetTask_run by ctx_tac. by rewrite H, !after_after.
Qed.

(** [UpdateTask] in any context. *)
Lemma UpdateTask_cases env id changes ctx db :
  let r := Store.UpdateTask env id changes (ctx, db) in
  (r.1.2 = db ∧ ∃ e, r.2 = inl e) ∨
  (∃ current, SQL.select_task id db = Some current ∧
     r.1.2 = with_patched_task env id current changes db ∧
     (r.2 = inr (patched_task env current changes db) ∨
      r.2 = inl (Errorf "get task" (Some ErrCanceled)))).
Proof.
  simpl. unfold Store.UpdateTask.
  destruct (ctx_cases ctx) as [->|H1]; [left; eauto|].
  destruct (SQL.select_task id db) as [current|] eqn:Hcur; cycle 1.
  { left. erewrite bind_fail; [|rewrite GetTask_run, Hcur by done; reflexivity]. eauto. }
  erewrite bind_run; [|rewrite GetTask_run, Hcur by done; reflexivity].
  pose proof (select_patched_task env id current changes db Hcur) as Hsel.
  unfold patched_task, with_patched_task, patched_position in *.
  destruct (decide (Store.resolve_status current changes = Task.Status current)).
  - erewrite bind_run; [|reflexivity].
    destruct (ctx_cases (after 1 ctx)) as [E|H2]; [left; rewrite E; eauto|].
    erewrite bind_run; [|apply wrapf_run; rewrite stmt_run by done; reflexivity].
    right. exists current. split; [done|]. rewrite decide_True by done.
    destruct (ctx_cases (after 1 (after 1 ctx))) as [E|H3].
    + rewrite E, GetTask_done. auto.
    + rewrite GetTask_run, Hsel by done. auto.
  - destruct (ctx_cases (after 1 ctx)) as [E|H2]; [left; rewrite E; eauto|].
    erewrite bind_run; [|by apply nextPosition_run].
    destruct (ctx_cases (after 1 (after 1 ctx))) as [E|H3]; [left; rewrite E; eauto|].
    erewrite bind_run; [|apply wrapf_run; rewrite stmt_run by done; reflexivity].
    right. exists current. split; [done|]. rewrite decide_False by done.
    destruct (ctx_cases (after 1 (after 1 (after 1 ctx)))) as [E|H4].
    + rewrite E, GetTask_done. auto.
    + rewrite GetTask_run, Hsel by done. auto.
Qed.

Lemma DB_eta db : mkDB (projects db) (tasks db) (seq_projects db) (seq_tasks db) = db.
Proof. by destruct db. Qed.

Lemma filter_none_length {A} (P : A → Prop) `{∀ x, Decision (P x)} (l : list A) :
  length (filter P l) = 0%nat → filter (λ x, ¬ P x) l = l.
Proof.
  induction l as [|x l IH]; [done|]. rewrite !filter_cons.
  destruct (decide (P x)); [done|]. intros Hl.
  rewrite decide_True by done. by rewrite IH.
Qed.

Lemma filter_some_length {A} (P : A → Prop) `{∀ x, Decision (P x)} (l : list A) :
  length (filter P l) ≠ 0%nat ↔ ∃ x, x ∈ l ∧ P x.
Proof.
  split.
  - destruct (filter P l) as [|x k] eqn:E; [done|]. intros _. exists x.
    assert (x ∈ filter P l) as Hx by (rewrite E; left).
    apply list_elem_of_filter in Hx. tauto.
  - intros (x & Hx & HP) E. apply length_zero_iff_nil in E.
    by apply (filter_nil_not_elem_of _ _ x E).
Qed.

(** [DeleteTask] in any context. *)
Lemma DeleteTask_cases id ctx db :
  let r := Store.DeleteTask id (ctx, db) in
  (r.1.2 = db ∧ ∃ e, r.2 = inl e ∧ ¬ readback_cancelled e) ∨
  (r.1.2 = (SQL.delete_task id db).1 ∧ r.2 = inr () ∧
   ∃ t, t ∈ tasks db ∧ Task.ID t = id).
Proof.
  simpl. unfold Store.DeleteTask.
  destruct (ctx_cases ctx) as [->|H1].
  { left. split; [done|]. eexists; split; [done|not_readback]. }
  erewrite bind_run; [|apply wrapf_run; rewrite stmt_run by done; reflexivity].
  unfold SQL.delete_task at 2. cbn [fst snd].
  destruct (decide (_ = 0)) as [E|E].
  - left. split; [|eexists; split; [done|not_readback]].
    unfold SQL.delete_task. cbn [fst snd].
    rewrite filter_none_length by lia. apply DB_eta.
  - right. split; [done|]. split; [done|].
    apply (filter_some_length (λ t, Task.ID t = id)). lia.
Qed.

Lemma DeleteTask_ok id ctx db t :
  permits ctx 1 → t ∈ tasks db → Task.ID t = id →
  Store.DeleteTask id (ctx, db) = ((after 1 ctx, (SQL.delete_task id db).1), inr ()).
Proof.
  intros Hctx Ht Hid. unfold Store.DeleteTask.
  erewrite bind_run; [|apply wrapf_run; rewrite stmt_run by done; reflexivity].
  unfold SQL.delete_task at 2. cbn [fst snd].
  rewrite decide_False; [done|].
  assert (length (filter (λ t, Task.ID t = id) (tasks db)) ≠ 0%nat); [|lia].
  apply filter_some_length. eauto.
Qed.

(** ** The project methods, statement by statement *)

Lemma name_taken_existsb name db :
  existsb (λ p, String.eqb (Project.Name p) name) (projects db) = true ↔ name_taken name db.
Proof.
  rewrite existsb_elem_of. unfold name_taken.
  split; intros (p & ? & H); exists p; split; auto; by apply String.eqb_eq.
Qed.

Lemma name_taken_cases name db : name_taken name db ∨ ¬ name_taken name db.
Proof.
  destruct (existsb (λ p, String.eqb (Project.Name p) name) (projects db)) eqn:E.
  - left. by apply name_taken_existsb.
  - right. intros H%name_taken_existsb. congruence.
Qed.

Lemma insert_project_ok env name color db :
  ¬ name_taken (strings.TrimSpace name) db →
  SQL.insert_project (clock env) (strings.TrimSpace name) (chosen_color env color) db
  = (with_new_project env name color db, inr (Project.ID (new_project env name color db))).
Proof.
  intros H. unfold SQL.insert_project.
  destruct (existsb _ _) eqn:E; [|done]. by apply name_taken_existsb in E.
Qed.

Lemma insert_project_conflict now name color db :
  name_taken name db →
  SQL.insert_project now name color db = (db, inl ErrConstraintUnique).
Proof. intros H%name_taken_existsb. unfold SQL.insert_project. by rewrite H. Qed.

Lemma select_new_project env name color db :
  SQL.select_project (Project.ID (new_project env name color db))
    (with_new_project env name color db)
  = Some (new_project env name color db).
Proof.
  unfold SQL.select_project, with_new_project. simpl. apply find_snoc_fresh.
  - intros u Hu. apply Z.eqb_neq.
    assert (Project.ID u ∈ map Project.ID (projects db)) as H
      by by apply list_elem_of_fmap_2.
    apply (max_rowid_ge _ (seq_projects db)) in H. lia.
  - apply Z.eqb_refl.
Qed.

Lemma CreateProject_empty env name color ctx db :
  strings.TrimSpace name = "" →
  Store.CreateProject env name color (ctx, db)
  = ((ctx, db), inl (Errorf "project name must not be empty" None)).
Proof. intros H. unfold Store.CreateProject. by rewrite decide_True. Qed.

Lemma CreateProject_conflict env name color ctx db :
  permits ctx 1 →
  strings.TrimSpace name ≠ "" →
  name_taken (strings.TrimSpace name) db →
  Store.CreateProject env name color (ctx, db)
  = ((after 1 ctx, db), inl (Errorf "insert project" (Some ErrConstraintUnique))).
Proof.
  intros Hctx Hname Htaken. unfold Store.CreateProject. rewrite decide_False by done.
  erewrite bind_fail; [done|].
  apply wrapf_fail. by rewrite stmt_run, insert_project_conflict.
Qed.

Lemma CreateProject_ok env name color ctx db :
  permits ctx 2 →
  strings.TrimSpace name ≠ "" →
  ¬ name_taken (strings.TrimSpace name) db →
  Store.CreateProject env name color (ctx, db)
  = ((after 2 ctx, with_new_project env name color db),
     inr (new_project env name color db)).
Proof.
  intros Hctx Hname Hfree. unfold Store.CreateProject. rewrite decide_False by done.
  erewrite bind_run; cycle 1.
  { apply wrapf_run. rewrite stmt_run by ctx_tac.
    fold (chosen_color env color). rewrite insert_project_ok by done. reflexivity. }
  rewrite GetProject_run, after_after, select_new_project; [done|ctx_tac].
Qed.

Lemma CreateProject_cases env name color ctx db :
  let r := Store.CreateProject env name color (ctx, db) in
  (r.1.2 = db ∧ ∃ e, r.2 = inl e ∧ ¬ readback_cancelled e) ∨
  (r.1.2 = with_new_project env name color db ∧
   strings.TrimSpace name ≠ "" ∧ ¬ name_taken (strings.TrimSpace name) db ∧
   (r.2 = inr (new_project env name color db) ∨
    r.2 = inl (Errorf "get project" (Some ErrCanceled)))).
Proof.
  simpl.
  destruct (decide (strings.TrimSpace name = "")) as [Hname|Hname].
  { left. rewrite CreateProject_empty by done.
    split; [done|]. eexists; split; [done|not_readback]. }
  destruct (ctx_cases ctx) as [->|H1].
  { left. unfold Store.CreateProject. rewrite decide_False by done.
    split; [done|]. eexists; split; [done|not_readback]. }
  destruct (name_taken_cases (strings.TrimSpace name) db) as [Ht|Ht].
  { left. rewrite CreateProject_conflict by done.
    split; [done|]. eexists; split; [done|not_readback]. }
  right. unfold Store.CreateProject. rewrite decide_False by done.
  erewrite bind_run; cycle 1.
  { apply wrapf_run. rewrite stmt_run by done.
    fold (chosen_color env color). rewrite insert_project_ok by done. reflexivity. }
  destruct (ctx_cases (after 1 ctx)) as [E|H2].
  - rewrite E, GetProject_done. auto.
  - rewrite GetProject_run, select_new_project by done. auto.
Qed.

Lemma map_if_none {A} (f : A → bool) (g : A → A) l :
  (∀ x, x ∈ l → f x = false) → map (λ x, if f x then g x else x) l = l.
Proof.
  induction l as [|x l IH]; [done|]. intros H. simpl.
  rewrite (H x) by left. f_equal. apply IH. intros y Hy. apply H. by right.
Qed.

Lemma update_project_fail now name color id db db' e :
  SQL.update_project now name color id db = (db', inl e) → db' = db.
Proof. unfold SQL.update_project. destruct (_ && _); by intros [= <-]. Qed.

Lemma update_project_rows now name color id db db' n :
  SQL.update_project now name color id db = (db', inr n) →
  (n = 0 → db' = db) ∧
  (n ≠ 0 → project_exists id db ∧ ∃ p, SQL.select_project id db' = Some p).
Proof.
  unfold SQL.update_project. destruct (_ && _); [done|]. intros [= <- <-]. split.
  - intros E. rewrite map_if_none; [apply DB_eta|].
    intros p Hp. apply Z.eqb_neq. intros Hid.
    assert (length (filter (λ p, Project.ID p = id) (projects db)) ≠ 0%nat); [|lia].
    apply filter_some_length. eauto.
  - intros E.
    assert (length (filter (λ p, Project.ID p = id) (projects db)) ≠ 0%nat) as H by lia.
    apply filter_some_length in H as (p & Hp & Hid). split; [by exists p|].
    apply existsb_find, existsb_elem_of. simpl.
    eexists. split; [by apply list_elem_of_fmap_2|].
    rewrite (proj2 (Z.eqb_eq _ _) Hid). simpl. lia.
Qed.

(** [UpdateProject] when the [UPDATE] statement changed a row, in a context
    that lasts. *)
Lemma UpdateProject_ok env id name color ctx db db' n :
  permits ctx 2 →
  strings.TrimSpace name ≠ "" →
  SQL.update_project (clock env) (strings.TrimSpace name) (chosen_color env color) id db
  = (db', inr n) →
  n ≠ 0 →
  ∃ p, Store.UpdateProject env id name color (ctx, db) = ((after 2 ctx, db'), inr p) ∧
       SQL.select_project id db' = Some p.
Proof.
  intros Hctx Hname Hup Hn. unfold Store.UpdateProject. rewrite decide_False by done.
  fold (chosen_color env color).
  erewrite bind_run; [|apply wrapf_run; rewrite stmt_run, Hup by ctx_tac; reflexivity].
  cbn [fst snd]. rewrite decide_False by done.
  apply update_project_rows in Hup as [_ H]. destruct (H Hn) as [_ [p Hsel]].
  exists p. rewrite GetProject_run, Hsel, after_after by ctx_tac. done.
Qed.

(** [UpdateProject] in any context: the database is as before, or it is what
    the [UPDATE] statement made of it. *)
Lemma UpdateProject_cases env id name color ctx db :
  let r := Store.UpdateProject env id name color (ctx, db) in
  (r.1.2 = db ∧ ∃ e, r.2 = inl e) ∨
  (∃ n, SQL.update_project (clock env) (strings.TrimSpace name) (chosen_color env color)
          id db = (r.1.2, inr n) ∧
     project_exists id db ∧ strings.TrimSpace name ≠ "" ∧ n ≠ 0 ∧
     ((∃ p, r.2 = inr p) ∨ r.2 = inl (Errorf "get project" (Some ErrCanceled)))).
Proof.
  simpl. unfold Store.UpdateProject.
  destruct (decide (strings.TrimSpace name = "")) as [Hname|Hname]; [left; eauto|].
  destruct (ctx_cases ctx) as [->|H1]; [left; eauto|].
  fold (chosen_color env color).
  destruct (SQL.update_project (clock env) (strings.TrimSpace name)
              (chosen_color env color) id db) as [db' [e|n]] eqn:Hup.
  { left. erewrite bind_fail; [|apply wrapf_fail; rewrite stmt_run, Hup by done; reflexivity].
    split; [|eauto]. by apply update_project_fail in Hup. }
  erewrite bind_run; [|apply wrapf_run; rewrite stmt_run, Hup by done; reflexivity].
  cbn [fst snd]. apply update_project_rows in Hup as Hrows. destruct Hrows as [H0 Hn].
  destruct (decide (n = 0)) as [E|E].
  - left. split; [by apply H0|eauto].
  - right. destruct (Hn E) as [Hp [p Hsel]].
    destruct (ctx_cases (after 1 ctx)) as [E'|H2].
    + rewrite E', GetProject_done. eauto 10.
    + rewrite GetProject_run, Hsel by done. eauto 10.
Qed.

(** [DeleteProject] in any context. *)
Lemma DeleteProject_cases id ctx db :
  let r := Store.DeleteProject id (ctx, db) in
  (r.1.2 = db ∧ ∃ e, r.2 = inl e ∧ ¬ readback_cancelled e) ∨
  (∃ n, SQL.delete_project id db = (r.1.2, inr n) ∧ r.2 = inr () ∧
     project_exists id db ∧
     tasks r.1.2 = filter (λ t, Task.ProjectID t ≠ id) (tasks db) ∧
     projects r.1.2 = filter (λ p, Project.ID p ≠ id) (projects db)).
Proof.
  simpl. unfold Store.DeleteProject.
  destruct (ctx_cases ctx) as [->|H1].
  { left. split; [done|]. eexists; split; [done|not_readback]. }
  destruct (SQL.delete_project id db) as [db' [e|n]] eqn:Hdel.
  { unfold SQL.delete_project in Hdel. by destruct (existsb _ _). }
  erewrite bind_run; [|apply wrapf_run; rewrite stmt_run, Hdel by done; reflexivity].
  unfold SQL.delete_project in Hdel.
  destruct (existsb _ _) eqn:Hex; inversion Hdel as [[Hdb Hn]].
  - apply project_exists_existsb in Hex. rewrite decide_False.
    + right. eexists. rewrite Hdb. split; [done|]. rewrite <- Hdb. done.
    + destruct Hex as (p & Hp & Hid).
      assert (length (filter (λ p, Project.ID p = id) (projects db)) ≠ 0%nat); [|lia].
      apply filter_some_length. eauto.
  - left. simpl. split; [done|]. eexists; split; [done|not_readback].
Qed.

Lemma DeleteProject_ok id ctx db :
  permits ctx 1 → project_exists id db →
  Store.DeleteProject id (ctx, db) = ((after 1 ctx, (SQL.delete_project id db).1), inr ()).
Proof.
  intros Hctx Hp. unfold Store.DeleteProject.
  destruct (SQL.delete_project id db) as [db' [e|n]] eqn:Hdel.
  { unfold SQL.delete_project in Hdel. by destruct (existsb _ _). }
  erewrite bind_run; [|apply wrapf_run; rewrite stmt_run, Hdel by done; reflexivity].
  rewrite decide_False; [done|].
  unfold SQL.delete_project in Hdel.
  apply project_exists_existsb in Hp as Hex. rewrite Hex in Hdel.
  injection Hdel as _ <-. destruct Hp as (p & Hp & Hid).
  assert (length (filter (λ p, Project.ID p = id) (projects db)) ≠ 0%nat); [|lia].
  apply filter_some_length. eauto.
Qed.

(** ** Every call writes at most once *)

Lemma run_write ctx env c db :
  (run ctx env c db).1 = db ∨ write db (run ctx env c db).1.
Proof.
  destruct c as [name color|id name color|id|t|id changes|id]; unfold run, outcome;
    cbn [fst snd].
  - destruct (CreateProject_cases env name color ctx db) as [[-> _]|(-> & _ & Hfree & _)];
      [by left|right].
    eapply write_insert_project. by apply insert_project_ok.
  - destruct (UpdateProject_cases env id name color ctx db) as [[-> _]|(n & H & _)];
      [by left|right].
    eapply write_update_project, H.
  - destruct (DeleteProject_cases id ctx db) as [[-> _]|(n & H & _)]; [by left|right].
    eapply write_delete_project, H.
  - destruct (CreateTask_cases env t ctx db) as [[-> _]|(-> & _ & Hp & _)]; [by left|right].
    eapply write_insert_task. by apply insert_task_ok.
  - destruct (UpdateTask_cases env id changes ctx db) as [[-> _]|(cur & Hcur & -> & _)];
      [by left|right].
    eapply write_update_task; [done|]. unfold with_patched_task, patched_position.
    reflexivity.
  - destruct (DeleteTask_cases id ctx db) as [[-> _]|(-> & _)]; [by left|right].
    eapply write_delete_task. reflexivity.
Qed.

(** ** What stays true of the database *)

Lemma valid_status_spec v :
  valid_status v = true ↔ v = "todo" ∨ v = "in_progress" ∨ v = "done".
Proof.
  unfold valid_status, ValidTaskStatuses. rewrite bool_decide_eq_true.
  rewrite !elem_of_union, !elem_of_singleton. tauto.
Qed.

Lemma create_status_valid t : valid_status (Store.create_status t) = true.
Proof.
  unfold Store.create_status. destruct (valid_status (Task.Status t)) eqn:E; [done|].
  apply valid_status_spec. auto.
Qed.

Lemma create_status_invalid t :
  valid_status (Task.Status t) = false → Store.create_status t = "todo".
Proof. unfold Store.create_status. by intros ->. Qed.

Lemma resolve_status_valid current changes :
  valid_status (Task.Status current) = true →
  valid_status (Store.resolve_status current changes) = true.
Proof.
  intros H. unfold Store.resolve_status.
  destruct (assert_string _) as [v|]; [|done]. by destruct (valid_status v) eqn:E.
Qed.

Lemma rowids_filter {A} (f : A → Z) (P : A → Prop) `{∀ x, Decision (P x)} l :
  StronglySorted Z.lt (map f l) → StronglySorted Z.lt (map f (filter P l)).
Proof.
  induction l as [|x l IH]; [done|]. simpl.
  intros [Hl Hs]%StronglySorted_cons. rewrite filter_cons.
  destruct (decide _); [|by apply IH]. simpl. constructor; [by apply IH|].
  rewrite Forall_forall in *. intros i (q & -> & Hq)%list_elem_of_fmap.
  apply list_elem_of_filter in Hq as [_ Hq]. apply Hl.
  by apply list_elem_of_fmap_2.
Qed.

Lemma wrap_int64 z : Int64.in_range (Int64.wrap z).
Proof.
  unfold Int64.in_range, Int64.wrap, Int64.min, Int64.max.
  pose proof (Z.mod_pos_bound (z + 2 ^ 63) (2 ^ 64)). lia.
Qed.

Lemma wrap_id z : Int64.in_range z → Int64.wrap z = z.
Proof.
  unfold Int64.in_range, Int64.wrap, Int64.min, Int64.max. intros H.
  rewrite Z.mod_small; lia.
Qed.

Lemma next_position_int64 projectID status db :
  Int64.in_range (next_position projectID status db).
Proof.
  unfold next_position. destruct (SQL.select_max_position _ _ _).
  - apply wrap_int64.
  - unfold Int64.in_range, Int64.min, Int64.max. lia.
Qed.

Lemma empty_consistent : consistent empty_db.
Proof.
  split; simpl; [constructor|constructor|..]; by intros ? ?%elem_of_nil.
Qed.

Lemma write_consistent db db' : consistent db → write db db' → consistent db'.
Proof.
  intros [Hp Ht Hfk Hst Hrg] Hw. destruct Hw as
    [now name color id db' H|now name color id n db' H|id n db' H
    |now t id db' H|now id changes current n db' Hcur H|id n db' H].
  - unfold SQL.insert_project in H. destruct (existsb _ _); [done|].
    injection H as <- _. split; simpl; try done.
    + rewrite map_app. apply StronglySorted_lt_snoc; [done|].
      intros y Hy. apply (max_rowid_ge _ (seq_projects db)) in Hy. simpl. lia.
    + intros t Hin. destruct (Hfk t Hin) as (p & ? & ?). exists p.
      split; [|done]. apply elem_of_app. by left.
  - unfold SQL.update_project in H. destruct (_ && _); [done|].
    injection H as <- _. split; simpl; try done.
    + rewrite <- list_fmap_compose.
      erewrite (list_fmap_ext _ Project.ID); [done|].
      intros i p _. simpl. by destruct (_ =? _).
    + intros t Hin. destruct (Hfk t Hin) as (p & Hin' & Hid).
      eexists. split; [by apply list_elem_of_fmap_2|]. simpl.
      by destruct (_ =? _).
  - unfold SQL.delete_project in H. destruct (existsb _ _); injection H as <- _;
      [|done]. split; simpl.
    + by apply rowids_filter.
    + by apply rowids_filter.
    + intros t [Hne Hin]%list_elem_of_filter. destruct (Hfk t Hin) as (p & ? & Hid).
      exists p. split; [|done]. apply list_elem_of_filter. split; [congruence|done].
    + intros t [_ Hin]%list_elem_of_filter. auto.
    + intros t [_ Hin]%list_elem_of_filter. auto.
  - unfold SQL.insert_task in H. destruct (existsb _ _) eqn:Hex; [|done].
    injection H as <- _. split; simpl; try done.
    + rewrite map_app. apply StronglySorted_lt_snoc; [done|].
      intros y Hy. apply (max_rowid_ge _ (seq_tasks db)) in Hy. simpl. lia.
    + intros u [Hin| ->%list_elem_of_singleton]%elem_of_app; [auto|]. simpl.
      by apply project_exists_existsb.
    + intros u [Hin| ->%list_elem_of_singleton]%elem_of_app; [auto|]. simpl.
      apply create_status_valid.
    + intros u [Hin| ->%list_elem_of_singleton]%elem_of_app; [auto|]. simpl.
      apply next_position_int64.
  - unfold SQL.update_task in H. injection H as <- _. split; simpl; try done.
    + rewrite <- list_fmap_compose.
      erewrite (list_fmap_ext _ Task.ID); [done|].
      intros i p _. simpl. by destruct (_ =? _).
    + intros u (u0 & -> & Hin)%list_elem_of_fmap.
      destruct (Hfk u0 Hin) as (p & ? & ?). exists p. split; [done|].
      by destruct (_ =? _).
    + intros u (u0 & -> & Hin)%list_elem_of_fmap.
      destruct (_ =? _); [|auto]. simpl. apply resolve_status_valid.
      apply Hst. by apply find_elem_of in Hcur as [? _].
    + intros u (u0 & -> & Hin)%list_elem_of_fmap.
      destruct (_ =? _); [|auto]. simpl. destruct (decide _).
      * apply Hrg. by apply find_elem_of in Hcur as [? _].
      * apply next_position_int64.
  - unfold SQL.delete_task in H. injection H as <- _. split; simpl; try done.
    + by apply rowids_filter.
    + intros t [_ Hin]%list_elem_of_filter. auto.
    + intros t [_ Hin]%list_elem_of_filter. auto.
    + intros t [_ Hin]%list_elem_of_filter. auto.
Qed.

Lemma reachable_consistent db : reachable db → consistent db.
Proof.
  induction 1 as [|ctx env c db _ IH]; [apply empty_consistent|].
  destruct (run_write ctx env c db) as [->|Hw]; [done|].
  by eapply write_consistent.
Qed.

Lemma reachable_run_all l db : reachable db → reachable (run_all l db).
Proof.
  revert db. induction l as [|[[ctx env] c] l IH]; intros db H; [done|].
  apply IH. by constructor.
Qed.

Lemma consistent_task_ids db : consistent db → NoDup (map Task.ID (tasks db)).
Proof. intros [_ H _ _ _]. by apply StronglySorted_lt_NoDup. Qed.

(** ** The largest position of a column *)

Lemma foldr_max_ge x l : x <= foldr Z.max x l ∧ ∀ y, y ∈ l → y <= foldr Z.max x l.
Proof.
  induction l as [|z l [IH1 IH2]]; simpl.
  - split; [lia|]. by intros y ?%elem_of_nil.
  - split; [lia|]. intros y [->|Hy]%elem_of_cons; [lia|]. specialize (IH2 y Hy). lia.
Qed.

Lemma foldr_max_in x l : foldr Z.max x l ∈ x :: l.
Proof.
  induction l as [|z l IH]; simpl; [left|].
  destruct (Z.max_spec z (foldr Z.max x l)) as [[_ ->]|[_ ->]].
  - apply elem_of_cons in IH as [->|IH]; [left|by do 2 right].
  - right; left.
Qed.

Lemma max_of_Some l m : SQL.max_of l = Some m ↔ m ∈ l ∧ ∀ y, y ∈ l → y <= m.
Proof.
  destruct l as [|x l]; simpl.
  - split; [done|]. by intros [?%elem_of_nil _].
  - pose proof (foldr_max_ge x l) as [H1 H2]. pose proof (foldr_max_in x l) as H3.
    split.
    + intros [= <-]. split; [done|]. intros y [->|Hy]%elem_of_cons; auto.
    + intros [Hm Hle]. f_equal. apply Z.le_antisymm; [by apply Hle|].
      apply elem_of_cons in Hm as [->|Hm]; auto.
Qed.

Lemma select_max_position_empty projectID status db :
  SQL.partition projectID status db = [] →
  SQL.select_max_position projectID status db = None.
Proof. unfold SQL.select_max_position. by intros ->. Qed.

Lemma select_max_position_max projectID status db m :
  is_max_position projectID status db m →
  SQL.select_max_position projectID status db = Some m.
Proof.
  intros [(t & Ht & <-) Hle]. apply max_of_Some. split.
  - by apply list_elem_of_fmap_2.
  - intros y (u & -> & Hu)%list_elem_of_fmap. auto.
Qed.

Lemma next_position_empty projectID status db :
  SQL.partition projectID status db = [] → next_position projectID status db = 0.
Proof. intros H. unfold next_position. by rewrite select_max_position_empty. Qed.

Lemma next_position_max projectID status db m :
  is_max_position projectID status db m →
  next_position projectID status db = Int64.add m 1.
Proof. intros H. unfold next_position. by rewrite (select_max_position_max _ _ _ m). Qed.

Lemma add_one_below_max m :
  Int64.in_range m → m < Int64.max → Int64.add m 1 = m + 1.
Proof.
  unfold Int64.add. intros [? ?] ?. apply wrap_id. unfold Int64.in_range. lia.
Qed.

Lemma add_one_at_max : Int64.add Int64.max 1 = Int64.min.
Proof. reflexivity. Qed.

(** A non-empty column has a largest position. *)
Lemma partition_has_max projectID status db t :
  t ∈ SQL.partition projectID status db →
  ∃ m, is_max_position projectID status db m.
Proof.
  intros Ht. destruct (SQL.select_max_position projectID status db) as [m|] eqn:E.
  - exists m. apply max_of_Some in E as [(u & -> & Hu)%list_elem_of_fmap Hle].
    split; [eauto|]. intros v Hv. apply Hle. by apply list_elem_of_fmap_2.
  - unfold SQL.select_max_position in E.
    destruct (SQL.partition _ _ _); [by apply elem_of_nil in Ht|done].
Qed.

(** ** Calls on other columns leave a column alone *)

Lemma filter_filter_implies {A} (P Q : A → Prop)
    `{∀ x, Decision (P x)} `{∀ x, Decision (Q x)} (l : list A) :
  (∀ x, x ∈ l → P x → Q x) → filter P (filter Q l) = filter P l.
Proof.
  induction l as [|x l IH]; [done|]. intros HPQ. rewrite !filter_cons.
  assert (filter P (filter Q l) = filter P l) as IH'.
  { apply IH. intros y Hy. apply HPQ. by right. }
  destruct (decide (Q x)) as [HQ|HQ].
  - rewrite filter_cons. by rewrite IH'.
  - rewrite IH'. rewrite decide_False; [done|]. intros HP. apply HQ, HPQ; [left|done].
Qed.

Lemma filter_map_same {A} (P : A → Prop) `{∀ x, Decision (P x)} (g : A → A) (l : list A) :
  (∀ x, x ∈ l → g x = x ∨ (¬ P x ∧ ¬ P (g x))) → filter P (map g l) = filter P l.
Proof.
  induction l as [|x l IH]; [done|]. intros Hg. simpl. rewrite !filter_cons.
  rewrite IH by (intros y Hy; apply Hg; by right).
  destruct (Hg x) as [->|[H1 H2]]; [left|done|].
  by rewrite !decide_False.
Qed.

Lemma elsewhere_partition projectID status ctx env c db :
  consistent db →
  elsewhere projectID status db c →
  SQL.partition projectID status (run ctx env c db).1 = SQL.partition projectID status db.
Proof.
  intros Hdb Hc.
  destruct c as [name color|id name color|id|t|id changes|id]; unfold run, outcome;
    cbn [fst snd].
  - destruct (CreateProject_cases env name color ctx db) as [[-> _]|(-> & _)]; done.
  - destruct (UpdateProject_cases env id name color ctx db) as [[-> _]|(n & H & _)];
      [done|].
    unfold SQL.update_project in H. destruct (_ && _); [done|]. by injection H as <- _.
  - destruct (DeleteProject_cases id ctx db) as [[-> _]|(n & _ & _ & _ & H & _)]; [done|].
    unfold SQL.partition. rewrite H. apply filter_filter_implies.
    simpl in Hc. intros t _ [? _]. congruence.
  - destruct (CreateTask_cases env t ctx db) as [[-> _]|(-> & _)]; [done|].
    unfold SQL.partition, with_new_task. simpl. rewrite filter_app.
    rewrite filter_cons, decide_False, filter_nil, app_nil_r; done.
  - destruct (UpdateTask_cases env id changes ctx db) as [[-> _]|(cur & Hcur & -> & _)];
      [done|].
    unfold SQL.partition, with_patched_task, SQL.update_task. simpl.
    apply filter_map_same. intros u Hu.
    destruct (Z.eqb_spec (Task.ID u) id) as [Hid|]; [right|by left].
    simpl in Hc. rewrite Hcur in Hc.
    rewrite (select_task_unique id db u) in Hcur
      by (try done; by apply consistent_task_ids).
    injection Hcur as ->. simpl. tauto.
  - destruct (DeleteTask_cases id ctx db) as [[-> _]|(-> & _)]; [done|].
    unfold SQL.partition, SQL.delete_task. simpl. apply filter_filter_implies.
    intros t Ht HP. apply Hc. apply list_elem_of_filter. done.
Qed.

Lemma elsewhere_project_exists projectID status ctx env c db :
  elsewhere projectID status db c →
  project_exists projectID db →
  project_exists projectID (run ctx env c db).1.
Proof.
  intros Hc (p & Hp & Hid).
  destruct c as [name color|id name color|id|t|id changes|id]; unfold run, outcome;
    cbn [fst snd].
  - destruct (CreateProject_cases env name color ctx db) as [[-> _]|(-> & _)];
      [by exists p|].
    exists p. split; [|done]. apply elem_of_app. by left.
  - destruct (UpdateProject_cases env id name color ctx db) as [[-> _]|(n & H & _)];
      [by exists p|].
    unfold SQL.update_project in H. destruct (_ && _); [done|]. injection H as <- _.
    eexists. split; [by apply list_elem_of_fmap_2|]. simpl. by destruct (_ =? _).
  - destruct (DeleteProject_cases id ctx db) as [[-> _]|(n & _ & _ & _ & _ & H)];
      [by exists p|].
    exists p. rewrite H. split; [|done]. apply list_elem_of_filter.
    simpl in Hc. split; [congruence|done].
  - destruct (CreateTask_cases env t ctx db) as [[-> _]|(-> & _)]; by exists p.
  - destruct (UpdateTask_cases env id changes ctx db) as [[-> _]|(cur & Hcur & -> & _)];
      by exists p.
  - destruct (DeleteTask_cases id ctx db) as [[-> _]|(-> & _)]; by exists p.
Qed.

Lemma run_consistent ctx env c db : consistent db → consistent (run ctx env c db).1.
Proof.
  intros H. destruct (run_write ctx env c db) as [->|Hw]; [done|].
  by eapply write_consistent.
Qed.

Lemma run_all_consistent l db : consistent db → consistent (run_all l db).
Proof.
  revert db. induction l as [|[[ctx env] c] l IH]; intros db H; [done|].
  apply IH. by apply run_consistent.
Qed.

Lemma all_elsewhere_partition projectID status l db :
  consistent db →
  all_elsewhere projectID status l db →
  SQL.partition projectID status (run_all l db) = SQL.partition projectID status db ∧
  (project_exists projectID db → project_exists projectID (run_all l db)).
Proof.
  revert db. induction l as [|[[ctx env] c] l IH]; intros db Hdb Hl; [done|].
  destruct Hl as [Hc Hl]. simpl.
  destruct (IH _ (run_consistent ctx env c db Hdb) Hl) as [-> IHp]. split.
  - by apply elsewhere_partition.
  - intros Hp. by eapply IHp, elsewhere_project_exists.
Qed.

(** * The claims *)

Lemma with_new_task_consistent env t db :
  consistent db → project_exists (Task.ProjectID t) db →
  consistent (with_new_task env t db).
Proof.
  intros Hdb Hp. eapply write_consistent; [done|].
  eapply write_insert_task. by apply insert_task_ok.
Qed.

Lemma db_launch_reachable : reachable db_launch.
Proof.
  assert (db_launch = (run Background env0 (CreateProject "Launch" "") empty_db).1) as ->
    by (vm_compute; reflexivity).
  repeat constructor.
Qed.

Lemma db_launch_consistent : consistent db_launch.
Proof. apply reachable_consistent, db_launch_reachable. Qed.

Lemma db_top_consistent : consistent db_top.
Proof.
  split; simpl.
  - repeat constructor.
  - repeat constructor.
  - intros t ->%list_elem_of_singleton. eexists. split; [left|done].
  - by intros t ->%list_elem_of_singleton.
  - intros t ->%list_elem_of_singleton. by vm_compute.
Qed.

(** C1 (amended).  On a consistent database, [nextPosition] returns 0 when the
    column [(projectID, status)] has no task, and otherwise the column's
    largest position [m] plus one in [int64] arithmetic: [m + 1] whenever
    [m < 2^63 - 1], and [-2^63] at the top value.  Consequently the first task
    created into an empty column gets position 0 and, whatever calls then
    work on other columns, the second one gets position 1. *)
Theorem nextPosition_appends db projectID status :
  consistent db →
  (∀ ctx, permits ctx 1 → SQL.partition projectID status db = [] →
     Store.nextPosition projectID status (ctx, db) = ((after 1 ctx, db), inr 0)) ∧
  (∀ ctx m, permits ctx 1 → is_max_position projectID status db m →
     Store.nextPosition projectID status (ctx, db)
     = ((after 1 ctx, db), inr (if decide (m < Int64.max) then m + 1 else Int64.min))) ∧
  (∀ ctx1 env1 t1 l ctx2 env2 t2,
     SQL.partition projectID status db = [] →
     project_exists projectID db →
     permits ctx1 3 → permits ctx2 3 →
     Task.ProjectID t1 = projectID → Store.create_status t1 = status →
     strings.TrimSpace (Task.Title t1) ≠ "" →
     Task.ProjectID t2 = projectID → Store.create_status t2 = status →
     strings.TrimSpace (Task.Title t2) ≠ "" →
     all_elsewhere projectID status l (with_new_task env1 t1 db) →
     ∃ r1 r2 db2,
       Store.CreateTask env1 t1 (ctx1, db)
       = ((after 3 ctx1, with_new_task env1 t1 db), inr r1) ∧
       Task.Position r1 = 0 ∧
       Store.CreateTask env2 t2 (ctx2, run_all l (with_new_task env1 t1 db))
       = ((after 3 ctx2, db2), inr r2) ∧
       Task.Position r2 = 1).
Proof.
  intros Hdb. split; [|split].
  - intros ctx Hctx Hempty. rewrite nextPosition_run by done.
    by rewrite next_position_empty.
  - intros ctx m Hctx Hm. rewrite nextPosition_run by done.
    rewrite (next_position_max _ _ _ m) by done.
    assert (Int64.in_range m) as Hrg.
    { destruct Hm as [(t & [_ Ht]%list_elem_of_filter & <-) _].
      by apply (positions_int64 db). }
    destruct (decide (m < Int64.max)).
    + by rewrite add_one_below_max.
    + assert (m = Int64.max) as -> by (destruct Hrg; lia). done.
  - intros ctx1 env1 t1 l ctx2 env2 t2 Hempty Hp H1 H2 Hp1 Hs1 Ht1 Hp2 Hs2 Ht2 Hl.
    set (db1 := with_new_task env1 t1 db) in *.
    assert (consistent db1) as Hdb1 by (apply with_new_task_consistent; congruence).
    assert (SQL.partition projectID status db1 = [new_task env1 t1 db]) as Hcol.
    { unfold SQL.partition, db1, with_new_task in *. simpl.
      rewrite filter_app, Hempty. simpl. by rewrite filter_cons, decide_True. }
    assert (Task.Position (new_task env1 t1 db) = 0) as Hpos1.
    { simpl. rewrite Hp1, Hs1. by apply next_position_empty. }
    destruct (all_elsewhere_partition projectID status l db1 Hdb1 Hl) as [Hcol' Hp'].
    exists (new_task env1 t1 db), (new_task env2 t2 (run_all l db1)). eexists.
    split; [apply CreateTask_ok; congruence|]. split; [done|].
    split.
    + apply CreateTask_ok; [done..|]. rewrite Hp2. apply Hp'.
      destruct Hp as (p & ? & ?). by exists p.
    + simpl. rewrite Hp2, Hs2. rewrite (next_position_max _ _ _ 0); [done|].
      unfold is_max_position. rewrite Hcol', Hcol. split.
      * eexists. split; [left|done].
      * intros t ->%list_elem_of_singleton. lia.
Qed.

Ltac elsewhere_tac :=
  repeat split; vm_compute;
  first
    [ intros [_ ?]; discriminate
    | let x := fresh in let Hx := fresh in let E := fresh in
      intros x Hx E;
      repeat (inversion Hx as [|? ? ? Hx']; subst; clear Hx;
              [discriminate E|rename Hx' into Hx]);
      inversion Hx ].

Lemma nextPosition_appends_witness :
  Store.nextPosition 1 "todo" (CancelAfter 1, db_launch)
  = ((CancelAfter 0, db_launch), inr 0) ∧
  Store.nextPosition 1 "todo"
    (Background, with_new_task env0 (a_task 1 "Write spec" "todo") db_launch)
  = ((Background, with_new_task env0 (a_task 1 "Write spec" "todo") db_launch), inr 1) ∧
  ∃ r1 r2 db2,
    Store.CreateTask env0 (a_task 1 "Write spec" "todo") (Background, db_launch)
    = ((Background, with_new_task env0 (a_task 1 "Write spec" "todo") db_launch),
       inr r1) ∧
    Task.Position r1 = 0 ∧
    Store.CreateTask (mkEnv 107 0) (a_task 1 " Review " "bogus")
      (CancelAfter 3,
       run_all other_columns
         (with_new_task env0 (a_task 1 "Write spec" "todo") db_launch))
    = ((CancelAfter 0, db2), inr r2) ∧
    Task.Position r2 = 1.
Proof.
  assert (project_exists 1 db_launch) as Hp by (eexists; split; [left|reflexivity]).
  destruct (nextPosition_appends db_launch 1 "todo" db_launch_consistent)
    as (H0 & _ & Hfirst).
  destruct (nextPosition_appends
              (with_new_task env0 (a_task 1 "Write spec" "todo") db_launch) 1 "todo"
              (with_new_task_consistent env0 (a_task 1 "Write spec" "todo") db_launch
                 db_launch_consistent Hp))
    as (_ & Hmax & _).
  split; [|split].
  - apply (H0 (CancelAfter 1)); [simpl; lia|reflexivity].
  - apply (Hmax Background 0); [exact I|]. split.
    + eexists. split; [left|reflexivity].
    + intros t Ht. vm_compute in Ht. inversion Ht as [|? ? ? Ht']; subst;
        [vm_compute; discriminate|inversion Ht'].
  - apply (Hfirst Background env0 (a_task 1 "Write spec" "todo") other_columns
             (CancelAfter 3) (mkEnv 107 0) (a_task 1 " Review " "bogus"));
      [reflexivity|exact Hp|exact I|simpl; lia|reflexivity|reflexivity
      |vm_compute; discriminate|reflexivity|reflexivity|vm_compute; discriminate|].
    unfold other_columns. elsewhere_tac.
Defined.

(** C1, as stated, fails at the top of [int64]: the column (1, "todo") of
    [db_top] has largest position [2^63 - 1], and [nextPosition] answers
    [-2^63], which is not one plus the maximum. *)
Lemma nextPosition_wraps_at_top :
  consistent db_top ∧
  is_max_position 1 "todo" db_top Int64.max ∧
  Store.nextPosition 1 "todo" (Background, db_top)
  = ((Background, db_top), inr Int64.min) ∧
  Int64.min ≠ Int64.max + 1.
Proof.
  split; [apply db_top_consistent|]. split; [|split; [reflexivity|done]].
  split.
  - eexists. split; [left|reflexivity].
  - intros t Ht. vm_compute in Ht. inversion Ht as [|? ? ? Ht']; subst;
      [vm_compute; discriminate|inversion Ht'].
Qed.

(** The position [nextPosition] computes lies above the column, as long as
    the column has not reached the top of [int64]. *)
Lemma next_position_above projectID status db :
  (∀ u, u ∈ SQL.partition projectID status db →
        Int64.min <= Task.Position u < Int64.max) →
  ∀ u, u ∈ SQL.partition projectID status db →
       Task.Position u < next_position projectID status db.
Proof.
  intros Hrg u Hu. destruct (partition_has_max _ _ _ _ Hu) as [m Hm].
  rewrite (next_position_max _ _ _ m) by done.
  destruct Hm as [(t & Ht & <-) Hle]. specialize (Hle u Hu).
  rewrite add_one_below_max; [lia| |]; unfold Int64.in_range;
    specialize (Hrg t Ht); unfold Int64.max, Int64.min in *; lia.
Qed.

Lemma db_board_reachable : reachable db_board.
Proof.
  assert (db_board = run_all board_calls empty_db) as -> by (vm_compute; reflexivity).
  apply reachable_run_all. constructor.
Qed.

Lemma db_board_consistent : consistent db_board.
Proof. apply reachable_consistent, db_board_reachable. Qed.

(** C2.  For an existing task, [UpdateTask] keeps the position when the
    status it resolves equals the current one, and otherwise (exactly then)
    asks [nextPosition] for the project and the new status and stores its
    answer, which lies above every position of the destination column. *)
Theorem UpdateTask_recomputes_position env id changes ctx db current :
  SQL.select_task id db = Some current →
  permits ctx 4 →
  ∃ ctx' db' t',
    Store.UpdateTask env id changes (ctx, db) = ((ctx', db'), inr t') ∧
    SQL.select_task id db' = Some t' ∧
    Task.Status t' = Store.resolve_status current changes ∧
    (Task.Status t' = Task.Status current →
       Task.Position t' = Task.Position current ∧ ctx' = after 3 ctx) ∧
    (Task.Status t' ≠ Task.Status current →
       ctx' = after 4 ctx ∧
       Store.nextPosition (Task.ProjectID current) (Task.Status t') (after 1 ctx, db)
       = ((after 2 ctx, db), inr (Task.Position t')) ∧
       ((∀ u, u ∈ SQL.partition (Task.ProjectID current) (Task.Status t') db →
              Int64.min <= Task.Position u < Int64.max) →
        ∀ u, u ∈ SQL.partition (Task.ProjectID current) (Task.Status t') db →
             Task.Position u < Task.Position t')).
Proof.
  intros Hcur Hctx.
  eexists _, _, (patched_task env current changes db).
  split; [by apply UpdateTask_ok|].
  split; [by apply select_patched_task|].
  split; [done|]. simpl. unfold patched_position.
  destruct (decide (Store.resolve_status current changes = Task.Status current)) as [E|E];
    (split; [intros E'|intros E']); try done.
  split; [done|]. split.
  - rewrite nextPosition_run, after_after by ctx_tac. done.
  - apply next_position_above.
Qed.

Lemma UpdateTask_recomputes_position_witness :
  ∃ ctx' db' t',
    Store.UpdateTask (mkEnv 110 0) 2 {[ "status" := AnyString "done" ]}
      (CancelAfter 4, db_board) = ((ctx', db'), inr t') ∧
    SQL.select_task 2 db' = Some t' ∧
    Task.Status t' = "done" ∧ Task.Position t' = 1 ∧ ctx' = CancelAfter 0.
Proof.
  destruct (UpdateTask_recomputes_position (mkEnv 110 0) 2
              {[ "status" := AnyString "done" ]} (CancelAfter 4) db_board
              (Task.mk 2 1 "Review" "" "todo" 1 102 102))
    as (ctx' & db' & t' & Hrun & Hsel & Hst & _ & Hmove);
    [reflexivity|simpl; lia|].
  exists ctx', db', t'. split; [exact Hrun|]. split; [exact Hsel|].
  split; [exact Hst|].
  destruct Hmove as (Hctx & Hnext & _); [rewrite Hst; vm_compute; discriminate|].
  split; [|exact Hctx].
  rewrite Hst in Hnext. generalize dependent (Task.Position t'). intros p Hnext.
  vm_compute in Hnext. congruence.
Defined.

Lemma next_position_nonneg projectID status db :
  (∀ u, u ∈ SQL.partition projectID status db → 0 <= Task.Position u < Int64.max) →
  0 <= next_position projectID status db.
Proof.
  intros Hrg. destruct (SQL.partition projectID status db) as [|u l] eqn:E.
  - by rewrite next_position_empty.
  - rewrite <- E in Hrg.
    assert (u ∈ SQL.partition projectID status db) as Hu by (rewrite E; left).
    assert (Task.Position u < next_position projectID status db) as H.
    { apply next_position_above; [|done]. intros v Hv. specialize (Hrg v Hv).
      unfold Int64.min. lia. }
    specialize (Hrg u Hu). lia.
Qed.

Lemma keeps_tasks db db' :
  (∀ t', t' ∈ tasks db' → t' ∈ tasks db) → keeps_or_appends db db'.
Proof. intros H t' Ht'. left. exists t'. auto. Qed.

(** C3 (amended).  Every call keeps positions non-negative and either leaves
    a task in its column at its position or gives it a position above all
    that its new column held (nothing is ever moved down to close a gap),
    provided no position has reached the top of [int64], [2^63 - 1]. *)
Theorem positions_append_only ctx env c db :
  consistent db →
  (∀ t, t ∈ tasks db → 0 <= Task.Position t < Int64.max) →
  (∀ t', t' ∈ tasks (run ctx env c db).1 → 0 <= Task.Position t') ∧
  keeps_or_appends db (run ctx env c db).1.
Proof.
  intros Hdb Hrg.
  assert (∀ projectID status u, u ∈ SQL.partition projectID status db →
            0 <= Task.Position u < Int64.max) as Hcol.
  { intros ? ? u [_ Hu]%list_elem_of_filter. auto. }
  assert (∀ projectID status u, u ∈ SQL.partition projectID status db →
            Int64.min <= Task.Position u < Int64.max) as Hcol'.
  { intros ? ? u Hu. specialize (Hcol _ _ u Hu). unfold Int64.min. lia. }
  enough (keeps_or_appends db (run ctx env c db).1) as Hk.
  { split; [|done]. intros t' Ht'.
    destruct (Hk t' Ht') as [(t & Ht & _ & _ & _ & <-)|[? _]]; [|done].
    by apply Hrg. }
  destruct (run_write ctx env c db) as [->|Hw]; [by apply keeps_tasks|].
  destruct Hw as
    [now name color id db' H|now name color id n db' H|id n db' H
    |now t id db' H|now id changes current n db' Hcur H|id n db' H].
  - unfold SQL.insert_project in H. destruct (existsb _ _); injection H as <- _;
      by apply keeps_tasks.
  - unfold SQL.update_project in H. destruct (_ && _); injection H as <- _;
      by apply keeps_tasks.
  - unfold SQL.delete_project in H. destruct (existsb _ _); injection H as <- _;
      apply keeps_tasks; [|done]. by intros t [_ ?]%list_elem_of_filter.
  - unfold SQL.insert_task in H. destruct (negb _); injection H as <- _;
      [by apply keeps_tasks|].
    intros t' [Ht'| ->%list_elem_of_singleton]%elem_of_app; [left; by exists t'|].
    right. simpl. split; [apply next_position_nonneg, Hcol|apply next_position_above, Hcol'].
  - unfold SQL.update_task in H. injection H as <- _.
    intros t' (u & -> & Hu)%list_elem_of_fmap.
    destruct (Z.eqb_spec (Task.ID u) id) as [Hid|]; [|left; by exists u].
    rewrite (select_task_unique id db u) in Hcur
      by (try done; by apply consistent_task_ids).
    injection Hcur as ->. simpl.
    destruct (decide (Store.resolve_status current changes = Task.Status current)) as [E|E].
    + left. exists current. by rewrite E.
    + right. split; [apply next_position_nonneg, Hcol|apply next_position_above, Hcol'].
  - unfold SQL.delete_task in H. injection H as <- _.
    apply keeps_tasks. by intros t [_ ?]%list_elem_of_filter.
Qed.

Lemma positions_append_only_witness :
  (∀ t', t' ∈ tasks (run (CancelAfter 4) (mkEnv 110 0)
                       (UpdateTask 1 {[ "status" := AnyString "done" ]}) db_board).1 →
         0 <= Task.Position t') ∧
  keeps_or_appends db_board
    (run (CancelAfter 4) (mkEnv 110 0)
       (UpdateTask 1 {[ "status" := AnyString "done" ]}) db_board).1.
Proof.
  apply (positions_append_only (CancelAfter 4) (mkEnv 110 0)
           (UpdateTask 1 {[ "status" := AnyString "done" ]}) db_board
           db_board_consistent).
  intros t Ht. vm_compute in Ht.
  repeat (inversion Ht as [|? ? ? Ht']; subst; clear Ht;
          [vm_compute; split; [discriminate|reflexivity]|rename Ht' into Ht]).
  inversion Ht.
Defined.

(** C3, as stated, fails at the top of [int64]: in [db_top] the column
    (1, "todo") has largest position [2^63 - 1], and the task [CreateTask]
    adds to it gets position [-2^63], negative and below the maximum. *)
Lemma CreateTask_wraps_at_top :
  consistent db_top ∧
  (∀ t, t ∈ tasks db_top → 0 <= Task.Position t) ∧
  is_max_position 1 "todo" db_top Int64.max ∧
  ∃ db' r,
    Store.CreateTask (mkEnv 110 0) (a_task 1 "More" "todo") (Background, db_top)
    = ((Background, db'), inr r) ∧
    r ∈ SQL.partition 1 "todo" db' ∧
    Task.Position r = Int64.min ∧
    Task.Position r < 0 ∧
    ¬ (Int64.max < Task.Position r).
Proof.
  split; [apply db_top_consistent|]. split.
  { intros t ->%list_elem_of_singleton. by vm_compute. }
  split; [apply nextPosition_wraps_at_top|].
  eexists _, _. split; [vm_compute; reflexivity|].
  split; [|by vm_compute].
  vm_compute. right. left.
Qed.

Lemma resolve_status_invalid current changes v :
  changes !! "status" = Some (AnyString v) → valid_status v = false →
  Store.resolve_status current changes = Task.Status current.
Proof. intros H Hv. unfold Store.resolve_status. rewrite H. simpl. by rewrite Hv. Qed.

(** C4.  A status outside {todo, in_progress, done} is no error: [CreateTask]
    behaves as if "todo" had been given and persists the task with status
    "todo"; [UpdateTask] keeps the task's current status (and position); the
    resulting status is in either case one of the three. *)
Theorem invalid_status_is_silent v :
  valid_status v = false →
  (∀ env t ctx db, Task.Status t = v →
     Store.CreateTask env t (ctx, db) = Store.CreateTask env (with_status "todo" t) (ctx, db) ∧
     (permits ctx 3 → strings.TrimSpace (Task.Title t) ≠ "" →
      project_exists (Task.ProjectID t) db →
      ∃ db' r, Store.CreateTask env t (ctx, db) = ((after 3 ctx, db'), inr r) ∧
               SQL.select_task (Task.ID r) db' = Some r ∧
               Task.Status r = "todo" ∧ valid_status (Task.Status r) = true)) ∧
  (∀ env id changes ctx db current,
     changes !! "status" = Some (AnyString v) →
     SQL.select_task id db = Some current → permits ctx 4 →
     ∃ db' r, Store.UpdateTask env id changes (ctx, db) = ((after 3 ctx, db'), inr r) ∧
              SQL.select_task id db' = Some r ∧
              Task.Status r = Task.Status current ∧
              Task.Position r = Task.Position current ∧
              (consistent db → valid_status (Task.Status r) = true)).
Proof.
  intros Hv. split.
  - intros env t ctx db Hst. rewrite <- Hst in Hv. split.
    + unfold Store.CreateTask, Store.create_status. simpl. by rewrite Hv.
    + intros Hctx Htitle Hp. eexists _, _. split; [by apply CreateTask_ok|].
      split; [apply select_new_task|]. simpl.
      by rewrite (create_status_invalid t).
  - intros env id changes ctx db current Hch Hcur Hctx.
    pose proof (resolve_status_invalid current changes v Hch Hv) as Hres.
    eexists _, _. split.
    { rewrite (UpdateTask_ok _ _ _ _ _ current) by done.
      by rewrite decide_True. }
    split; [by apply select_patched_task|]. simpl. split; [done|]. split.
    + unfold patched_position. by rewrite decide_True.
    + intros Hdb. rewrite Hres. apply (statuses_valid db Hdb).
      by apply find_elem_of in Hcur as [? _].
Qed.

Lemma invalid_status_is_silent_witness :
  (∃ db' r, Store.CreateTask (mkEnv 110 0) (a_task 1 "Deploy" "bogus") (Background, db_board)
            = ((Background, db'), inr r) ∧
            SQL.select_task (Task.ID r) db' = Some r ∧ Task.Status r = "todo") ∧
  (∃ db' r, Store.UpdateTask (mkEnv 111 0) 3 {[ "status" := AnyString "bogus" ]}
              (Background, db_board) = ((Background, db'), inr r) ∧
            SQL.select_task 3 db' = Some r ∧
            Task.Status r = "done" ∧ Task.Position r = 0 ∧
            valid_status (Task.Status r) = true).
Proof.
  destruct (invalid_status_is_silent "bogus") as [Hcreate Hupdate]; [by vm_compute|].
  split.
  - destruct (Hcreate (mkEnv 110 0) (a_task 1 "Deploy" "bogus") Background db_board)
      as [_ (db' & r & H1 & H2 & H3 & _)];
      [reflexivity|exact I|vm_compute; discriminate
      |eexists; split; [by vm_compute; left|reflexivity]|].
    exists db', r. split; [exact H1|]. split; [exact H2|exact H3].
  - destruct (Hupdate (mkEnv 111 0) 3 {[ "status" := AnyString "bogus" ]} Background
                db_board (Task.mk 3 1 "Ship" "" "done" 0 103 103))
      as (db' & r & H1 & H2 & H3 & H4 & H5);
      [vm_compute; reflexivity|vm_compute; reflexivity|exact I|].
    exists db', r. split; [exact H1|]. split; [exact H2|]. split; [exact H3|].
    split; [exact H4|]. apply H5, db_board_consistent.
Defined.

(** ** [ORDER BY] *)

Section OrderBy.
Context {A : Type} (le : A → A → bool).

Lemma insert_row_perm x l : SQL.insert_row le x l ≡ₚ x :: l.
Proof.
  induction l as [|y l IH]; simpl; [done|].
  destruct (le x y); [done|]. rewrite IH. apply Permutation_swap.
Qed.

Lemma order_by_perm l : SQL.order_by le l ≡ₚ l.
Proof.
  induction l as [|x l IH]; simpl; [done|].
  by rewrite insert_row_perm, IH.
Qed.

(** Sorting by a total preorder. *)
Lemma insert_row_sorted (R : relation A) x l :
  (∀ a b, le a b = true → R a b) →
  (∀ a b, le a b = false → R b a) →
  Transitive R →
  StronglySorted R l → StronglySorted R (SQL.insert_row le x l).
Proof.
  intros Hle Hnle Htrans. induction 1 as [|y l Hl IH Hy]; simpl.
  - repeat constructor.
  - destruct (le x y) eqn:E.
    + constructor; [by constructor|]. constructor; [by apply Hle|].
      rewrite Forall_forall in *. intros z Hz. etrans; [by apply Hle|auto].
    + constructor; [done|]. rewrite Forall_forall in *.
      intros z Hz. rewrite insert_row_perm in Hz.
      apply elem_of_cons in Hz as [->|Hz]; auto.
Qed.

Lemma order_by_sorted (R : relation A) l :
  (∀ a b, le a b = true → R a b) →
  (∀ a b, le a b = false → R b a) →
  Transitive R →
  StronglySorted R (SQL.order_by le l).
Proof.
  intros. induction l as [|x l IH]; simpl; [constructor|].
  by apply insert_row_sorted.
Qed.

(** Sorting is stable: rows already in order stay where they are. *)
Lemma order_by_sorted_id l :
  StronglySorted (λ a b, le a b = true) l → SQL.order_by le l = l.
Proof.
  induction 1 as [|x l Hl IH Hx]; simpl; [done|]. rewrite IH.
  destruct l as [|y l]; [done|]. simpl.
  apply Forall_cons in Hx as [-> _]. done.
Qed.

(** Sorting is stable: among rows the order does not tell apart, the
    scan order [S] decides. *)
Lemma insert_row_stable (R S : relation A) x l :
  (∀ a b, S a b → le a b = true → R a b) →
  (∀ a b, le a b = false → R b a) →
  (∀ a b c, S a b → le a b = true → R b c → R a c) →
  Forall (S x) l →
  StronglySorted R l → StronglySorted R (SQL.insert_row le x l).
Proof.
  intros Hle Hnle Htrans Hx. induction 1 as [|y l Hl IH Hy]; simpl.
  - repeat constructor.
  - apply Forall_cons in Hx as [Hxy Hx]. destruct (le x y) eqn:E.
    + constructor; [by constructor|]. constructor; [by apply Hle|].
      rewrite Forall_forall in *. intros z Hz. eapply Htrans; eauto.
    + constructor; [by apply IH|]. rewrite Forall_forall in *.
      intros z Hz. rewrite insert_row_perm in Hz.
      apply elem_of_cons in Hz as [->|Hz]; auto.
Qed.

Lemma order_by_stable (R S : relation A) l :
  (∀ a b, S a b → le a b = true → R a b) →
  (∀ a b, le a b = false → R b a) →
  (∀ a b c, S a b → le a b = true → R b c → R a c) →
  StronglySorted S l → StronglySorted R (SQL.order_by le l).
Proof.
  intros Hle Hnle Htrans. induction 1 as [|x l Hl IH Hx]; simpl; [constructor|].
  apply (insert_row_stable R S); try done.
  rewrite Forall_forall in *. intros y Hy. apply Hx.
  by rewrite order_by_perm in Hy.
Qed.
End OrderBy.

(** ** The order of [ListTasks] *)

Lemma compare_refl (s : string) : String.compare s s = Eq.
Proof.
  pose proof (String.compare_antisym s s) as H.
  by destruct (String.compare s s).
Qed.

Lemma bytes_lt_le a b : bytes_lt a b ↔ String.le a b ∧ a ≠ b.
Proof.
  unfold bytes_lt, String.le, String.leb. split.
  - intros H. rewrite H. split; [done|]. intros ->. by rewrite compare_refl in H.
  - intros [H Hne]. destruct (String.compare a b) eqn:E; [|done..].
    by apply String.compare_eq_iff in E.
Qed.

Lemma task_le_lex t u : SQL.task_le t u = true ↔ lex_le t u.
Proof.
  unfold SQL.task_le, lex_le, bytes_lt.
  destruct (String.compare (Task.Status t) (Task.Status u)) eqn:Es.
  - apply String.compare_eq_iff in Es.
    destruct (Z.compare_spec (Task.Position t) (Task.Position u)) as [Hp|Hp|Hp].
    + rewrite Z.leb_le. split.
      * intros ?. right. split; [done|lia].
      * intros [?|[_ ?]]; [done|lia].
    + split; [|done]. intros _. right. split; [done|lia].
    + split; [done|]. intros [?|[_ ?]]; [done|lia].
  - tauto.
  - split; [done|]. intros [|[E _]]; [done|]. rewrite E, compare_refl in Es. done.
Qed.

Lemma task_le_total t u : SQL.task_le t u = false → lex_le u t.
Proof.
  unfold SQL.task_le, lex_le, bytes_lt. rewrite (String.compare_antisym (Task.Status u)).
  destruct (String.compare (Task.Status t) (Task.Status u)) eqn:Es; simpl.
  - apply String.compare_eq_iff in Es.
    destruct (Z.compare_spec (Task.Position t) (Task.Position u)); try done.
    + intros ?%Z.leb_gt. right. split; [done|]. lia.
    + intros _. right. split; [done|]. lia.
  - done.
  - auto.
Qed.

Lemma lex_le_keys t u :
  lex_le t u ↔
  String.le (Task.Status t) (Task.Status u) ∧
  (Task.Status t = Task.Status u →
   Task.Position t <= Task.Position u ∧
   (Task.Position t = Task.Position u → Task.ID t <= Task.ID u)).
Proof.
  unfold lex_le. rewrite bytes_lt_le. split.
  - intros [[? ?]|[E ?]]; [done|]. split; [by rewrite E|]. intros _. lia.
  - intros [Hs Hp]. destruct (decide (Task.Status t = Task.Status u)) as [E|E]; [|auto].
    right. split; [done|]. specialize (Hp E). lia.
Qed.

Lemma lex_le_trans : Transitive lex_le.
Proof.
  intros t u w. rewrite !lex_le_keys. intros [Hs1 Hp1] [Hs2 Hp2].
  split; [by etrans|]. intros E.
  assert (Task.Status t = Task.Status u) as E1.
  { apply (anti_symm String.le); [done|]. by rewrite E. }
  assert (Task.Status u = Task.Status w) as E2 by congruence.
  specialize (Hp1 E1). specialize (Hp2 E2). lia.
Qed.

Lemma lex_le_antisym t u :
  lex_le t u → lex_le u t →
  Task.Status t = Task.Status u ∧ Task.Position t = Task.Position u ∧
  Task.ID t = Task.ID u.
Proof.
  rewrite !lex_le_keys. intros [Hs1 Hp1] [Hs2 Hp2].
  assert (Task.Status t = Task.Status u) as E by by apply (anti_symm String.le).
  specialize (Hp1 E). specialize (Hp2 (eq_sym E)). split; [done|]. lia.
Qed.

Lemma NoDup_fmap_eq {A B} (f : A → B) l x y :
  NoDup (map f l) → x ∈ l → y ∈ l → f x = f y → x = y.
Proof.
  induction l as [|z l IH]; simpl; [by intros _ ?%elem_of_nil|].
  intros [Hz Hl]%NoDup_cons [->|Hx]%elem_of_cons [->|Hy]%elem_of_cons E; auto.
  - exfalso. apply Hz. rewrite E. by apply list_elem_of_fmap_2.
  - exfalso. apply Hz. rewrite <- E. by apply list_elem_of_fmap_2.
Qed.

(** C5.  [ListTasks] returns exactly the tasks of the project, in the
    lexicographic order of (status, position, id), the status compared
    bytewise; since ids are unique in the table, this list is the only one
    with these two properties. *)
Theorem ListTasks_ordered projectID ctx db :
  permits ctx 1 →
  ∃ l, Store.ListTasks projectID (ctx, db) = ((after 1 ctx, db), inr l) ∧
       l ≡ₚ filter (λ t, Task.ProjectID t = projectID) (tasks db) ∧
       StronglySorted lex_le l ∧
       (consistent db →
        ∀ l', l' ≡ₚ filter (λ t, Task.ProjectID t = projectID) (tasks db) →
              StronglySorted lex_le l' → l' = l).
Proof.
  intros Hctx. exists (SQL.select_tasks projectID db).
  split; [|split; [|split]].
  - unfold Store.ListTasks. by erewrite wrapf_run; [|by apply query_run].
  - apply order_by_perm.
  - apply order_by_sorted.
    + intros a b. apply task_le_lex.
    + apply task_le_total.
    + apply lex_le_trans.
  - intros Hdb l' Hperm Hsorted.
    apply (StronglySorted_unique_strong lex_le); try done.
    + intros t u Ht Hu H1 H2. destruct (lex_le_antisym t u H1 H2) as (_ & _ & Hid).
      apply (NoDup_fmap_eq Task.ID (tasks db)); [by apply consistent_task_ids|..|done].
      * rewrite Hperm in Ht. by apply list_elem_of_filter in Ht as [_ ?].
      * unfold SQL.select_tasks in Hu. rewrite order_by_perm in Hu.
        by apply list_elem_of_filter in Hu as [_ ?].
    + apply order_by_sorted.
      * intros a b. apply task_le_lex.
      * apply task_le_total.
      * apply lex_le_trans.
    + rewrite Hperm. symmetry. apply order_by_perm.
Qed.

Lemma ListTasks_ordered_witness :
  ∃ l, Store.ListTasks 1 (CancelAfter 1, db_board) = ((CancelAfter 0, db_board), inr l) ∧
       map Task.ID l = [3; 1; 2] ∧
       map Task.Status l = ["done"; "todo"; "todo"] ∧
       map Task.Position l = [0; 0; 1].
Proof.
  destruct (ListTasks_ordered 1 (CancelAfter 1) db_board) as (l & Hrun & _);
    [simpl; lia|].
  exists l. split; [exact Hrun|].
  assert (Store.ListTasks 1 (CancelAfter 1, db_board)
          = ((CancelAfter 0, db_board),
             inr [ Task.mk 3 1 "Ship" "" "done" 0 103 103
                 ; Task.mk 1 1 "Write spec" "" "todo" 0 101 101
                 ; Task.mk 2 1 "Review" "" "todo" 1 102 102 ])) as Hval
    by (vm_compute; reflexivity).
  assert (inr l = inr [ Task.mk 3 1 "Ship" "" "done" 0 103 103
                      ; Task.mk 1 1 "Write spec" "" "todo" 0 101 101
                      ; Task.mk 2 1 "Review" "" "todo" 1 102 102 ]
          :> error + list Task.t) as E.
  { change (inr l) with (((after 1 (CancelAfter 1), db_board), @inr error _ l).2).
    rewrite <- Hrun, Hval. reflexivity. }
  injection E as ->. split; [reflexivity|]. split; reflexivity.
Defined.

(** C6.  [CreateProject] fails with the validation error "project name must
    not be empty" when the trimmed name is empty, and with the conflict error
    of the UNIQUE constraint when a project already has the trimmed name, as
    the second of two calls with the same trimmed name finds; in both cases
    the database is left as it was. *)
Theorem CreateProject_rejects env name color ctx db :
  (strings.TrimSpace name = "" →
   ∃ e, Store.CreateProject env name color (ctx, db) = ((ctx, db), inl e) ∧
        e = Errorf "project name must not be empty" None ∧
        kind e = ValidationError) ∧
  (strings.TrimSpace name ≠ "" → name_taken (strings.TrimSpace name) db →
   permits ctx 1 →
   ∃ e, Store.CreateProject env name color (ctx, db) = ((after 1 ctx, db), inl e) ∧
        e = Errorf "insert project" (Some ErrConstraintUnique) ∧
        kind e = ConflictError) ∧
  (strings.TrimSpace name ≠ "" → ¬ name_taken (strings.TrimSpace name) db →
   permits ctx 2 →
   ∀ env' name' color' ctx',
     strings.TrimSpace name' = strings.TrimSpace name → permits ctx' 1 →
     ∃ p db1 e,
       Store.CreateProject env name color (ctx, db) = ((after 2 ctx, db1), inr p) ∧
       projects db1 = projects db ++ [p] ∧
       Project.Name p = strings.TrimSpace name ∧
       Store.CreateProject env' name' color' (ctx', db1) = ((after 1 ctx', db1), inl e) ∧
       e = Errorf "insert project" (Some ErrConstraintUnique) ∧
       kind e = ConflictError).
Proof.
  split; [|split].
  - intros Hname. eexists. split; [by apply CreateProject_empty|done].
  - intros Hname Htaken Hctx. eexists. split; [by apply CreateProject_conflict|done].
  - intros Hname Hfree Hctx env' name' color' ctx' Hsame Hctx'.
    eexists _, _, _. split; [by apply CreateProject_ok|].
    split; [done|]. split; [done|]. split; [|done].
    apply CreateProject_conflict; [done|congruence|].
    exists (new_project env name color db). split; [|by rewrite Hsame].
    apply elem_of_app. right. left.
Qed.

Lemma CreateProject_rejects_witness :
  (∃ e, Store.CreateProject env0 "  	 " "#000000" (Background, db_launch)
        = ((Background, db_launch), inl e) ∧ kind e = ValidationError) ∧
  (∃ e, Store.CreateProject env0 " Launch  " "" (Background, db_launch)
        = ((Background, db_launch), inl e) ∧ kind e = ConflictError) ∧
  (∃ p db1 e,
     Store.CreateProject env0 "Backlog" "" (Background, db_launch)
     = ((Background, db1), inr p) ∧
     Store.CreateProject env0 " Backlog" "#000000" (CancelAfter 1, db1)
     = ((CancelAfter 0, db1), inl e) ∧ kind e = ConflictError).
Proof.
  split; [|split].
  - destruct (CreateProject_rejects env0 "  	 " "#000000" Background db_launch)
      as [H _].
    destruct H as (e & H1 & _ & H2); [vm_compute; reflexivity|].
    exists e. split; [exact H1|exact H2].
  - destruct (CreateProject_rejects env0 " Launch  " "" Background db_launch)
      as (_ & H & _).
    destruct H as (e & H1 & _ & H2);
      [vm_compute; discriminate
      |eexists; split; [vm_compute; left|vm_compute; reflexivity]|exact I|].
    exists e. split; [exact H1|exact H2].
  - destruct (CreateProject_rejects env0 "Backlog" "" Background db_launch)
      as (_ & _ & H).
    destruct (H ltac:(vm_compute; discriminate)) with
      (env' := env0) (name' := " Backlog") (color' := "#000000") (ctx' := CancelAfter 1)
      as (p & db1 & e & H1 & _ & _ & H2 & _ & H3);
      [|exact I|vm_compute; reflexivity|simpl; lia|].
    { intros (q & Hq & Hname). vm_compute in Hq.
      inversion Hq as [|? ? ? Hq']; subst; [vm_compute in Hname; discriminate|inversion Hq']. }
    exists p, db1, e. split; [exact H1|]. split; [exact H2|exact H3].
Defined.

Lemma filter_complement_nil {A} (P : A → Prop) `{∀ x, Decision (P x)} (l : list A) :
  filter P (filter (λ x, ¬ P x) l) = [].
Proof.
  induction l as [|x l IH]; [done|]. rewrite filter_cons.
  destruct (decide (¬ P x)) as [Hx|Hx]; [|done].
  by rewrite filter_cons, decide_False.
Qed.

(** C7.  In every database the store produces each task has its project;
    [DeleteProject] succeeds on an existing project, and where it succeeds
    the project's row and all the tasks that reference it are gone (only
    they), so that [ListTasks] for it returns the empty list. *)
Theorem no_task_outlives_its_project :
  (∀ db t, reachable db → t ∈ tasks db → project_exists (Task.ProjectID t) db) ∧
  (∀ id ctx db, permits ctx 1 → project_exists id db →
     ∃ db', Store.DeleteProject id (ctx, db) = ((after 1 ctx, db'), inr ())) ∧
  (∀ id ctx db s', Store.DeleteProject id (ctx, db) = (s', inr ()) →
     tasks s'.2 = filter (λ t, Task.ProjectID t ≠ id) (tasks db) ∧
     filter (λ t, Task.ProjectID t = id) (tasks s'.2) = [] ∧
     ¬ project_exists id s'.2 ∧
     ∀ ctx', permits ctx' 1 →
       Store.ListTasks id (ctx', s'.2) = ((after 1 ctx', s'.2), inr [])).
Proof.
  split; [|split].
  - intros db t Hdb Ht. by apply (tasks_have_project db (reachable_consistent db Hdb)).
  - intros id ctx db Hctx Hp. eexists. by apply DeleteProject_ok.
  - intros id ctx db s' Hrun.
    destruct (DeleteProject_cases id ctx db) as [(_ & e & He & _)|(n & _ & _ & _ & Ht & Hp)];
      rewrite Hrun in *; [done|]. simpl in *.
    assert (filter (λ t, Task.ProjectID t = id) (tasks s'.2) = []) as Hnone.
    { rewrite Ht. apply filter_complement_nil. }
    split; [done|]. split; [done|]. split.
    + intros (p & Hin & Hid). rewrite Hp in Hin.
      by apply list_elem_of_filter in Hin as [? _].
    + intros ctx' Hctx'. unfold Store.ListTasks.
      erewrite wrapf_run; [|by apply query_run].
      unfold SQL.select_tasks. by rewrite Hnone.
Qed.

Lemma no_task_outlives_its_project_witness :
  (∀ t, t ∈ tasks db_board → project_exists (Task.ProjectID t) db_board) ∧
  ∃ db', Store.DeleteProject 1 (CancelAfter 1, db_board) = ((CancelAfter 0, db'), inr ()) ∧
         tasks db' = [] ∧
         Store.ListTasks 1 (Background, db') = ((Background, db'), inr []).
Proof.
  destruct no_task_outlives_its_project as (Hfk & Hok & Hgone).
  split.
  - intros t Ht. apply Hfk; [apply db_board_reachable|exact Ht].
  - destruct (Hok 1 (CancelAfter 1) db_board) as [db' Hrun];
      [simpl; lia|eexists; split; [vm_compute; left|reflexivity]|].
    exists db'. split; [exact Hrun|].
    destruct (Hgone 1 (CancelAfter 1) db_board _ Hrun) as (Ht & _ & _ & Hlist).
    split; [|exact (Hlist Background I)].
    etrans; [exact Ht|]. vm_compute. reflexivity.
Defined.

(** C8 (amended).  A call that returns an error has written nothing, unless
    the error is that of the read-back ([GetProject]/[GetTask]) cut off by the
    context after the call's one write statement ran: then the database holds
    that write, whole, exactly as after the same call succeeding.  Errors of
    validation, lookup ("not found"), uniqueness, foreign key and the position
    lookup always leave the database as it was. *)
Theorem errors_leave_no_partial_write ctx env c db db' e :
  run ctx env c db = (db', Some e) →
  (db' = db ∨
   (readback_cancelled e ∧ write db db' ∧ run Background env c db = (db', None))) ∧
  (kind e ≠ StorageError → db' = db) ∧
  (∀ cause, e = Errorf "select position" cause → db' = db).
Proof.
  intros Hrun.
  enough (db' = db ∨
          (readback_cancelled e ∧ write db db' ∧ run Background env c db = (db', None)))
    as H.
  { split; [done|]. split.
    - intros Hk. destruct H as [?|([-> | ->] & _)]; done.
    - intros cause ->. destruct H as [?|([? | ?] & _)]; done. }
  assert (write db db' ∨ db' = db) as Hw.
  { pose proof (run_write ctx env c db) as H. rewrite Hrun in H. simpl in H. tauto. }
  destruct c as [name color|id name color|id|t|id changes|id]; unfold run, outcome in *;
    cbn [fst snd] in *.
  - destruct (CreateProject_cases env name color ctx db)
      as [[? _]|(Hdb & Hname & Hfree & [Hr|Hr])];
      [left; congruence|rewrite Hr in Hrun; congruence|].
    rewrite Hr in Hrun. injection Hrun as <- <-.
    destruct Hw as [Hw|Hw]; [right|by left]. split; [by left|]. split; [done|].
    rewrite CreateProject_ok by done. simpl. congruence.
  - destruct (UpdateProject_cases env id name color ctx db)
      as [[? _]|(n & Hup & Hp & Hname & Hn & [[p Hr]|Hr])];
      [left; congruence|rewrite Hr in Hrun; congruence|].
    rewrite Hr in Hrun. injection Hrun as <- <-.
    destruct Hw as [Hw|Hw]; [right|by left]. split; [by left|]. split; [done|].
    destruct (UpdateProject_ok env id name color Background db _ n I Hname Hup Hn)
      as (p & -> & _). done.
  - destruct (DeleteProject_cases id ctx db) as [[? _]|(n & _ & Hr & _)];
      [left; congruence|rewrite Hr in Hrun; congruence].
  - destruct (CreateTask_cases env t ctx db)
      as [[? _]|(Hdb & Htitle & Hp & [Hr|Hr])];
      [left; congruence|rewrite Hr in Hrun; congruence|].
    rewrite Hr in Hrun. injection Hrun as <- <-.
    destruct Hw as [Hw|Hw]; [right|by left]. split; [by right|]. split; [done|].
    rewrite CreateTask_ok by done. simpl. congruence.
  - destruct (UpdateTask_cases env id changes ctx db)
      as [[? _]|(cur & Hcur & Hdb & [Hr|Hr])];
      [left; congruence|rewrite Hr in Hrun; congruence|].
    rewrite Hr in Hrun. injection Hrun as <- <-.
    destruct Hw as [Hw|Hw]; [right|by left]. split; [by right|]. split; [done|].
    rewrite (UpdateTask_ok _ _ _ _ _ cur) by done. simpl. congruence.
  - destruct (DeleteTask_cases id ctx db) as [[? _]|(_ & Hr & _)];
      [left; congruence|rewrite Hr in Hrun; congruence].
Qed.

Lemma errors_leave_no_partial_write_witness :
  run Background env0 (CreateTask (a_task 1 "  " "todo")) db_board
  = (db_board, Some (Errorf "task title must not be empty" None)) ∧
  run (CancelAfter 1) env0 (UpdateTask 2 {[ "status" := AnyString "done" ]}) db_board
  = (db_board, Some (Errorf "select position" (Some ErrCanceled))) ∧
  (db_board = db_board ∨
   (readback_cancelled (Errorf "task title must not be empty" None) ∧
    write db_board db_board ∧
    run Background env0 (CreateTask (a_task 1 "  " "todo")) db_board = (db_board, None))).
Proof.
  assert (run Background env0 (CreateTask (a_task 1 "  " "todo")) db_board
          = (db_board, Some (Errorf "task title must not be empty" None))) as H1
    by (vm_compute; reflexivity).
  assert (run (CancelAfter 1) env0 (UpdateTask 2 {[ "status" := AnyString "done" ]})
            db_board
          = (db_board, Some (Errorf "select position" (Some ErrCanceled)))) as H2
    by (vm_compute; reflexivity).
  split; [exact H1|]. split; [exact H2|].
  exact (proj1 (errors_leave_no_partial_write _ _ _ _ _ _ H1)).
Defined.

(** C8, as stated, fails when the context is cancelled between the write and
    the read-back: [CreateTask] under a context that lets two statements run
    looks up the position, inserts the row, and returns the error of
    [GetTask]; the row stays. *)
Lemma CreateTask_cut_off_after_insert :
  ∃ db' e,
    run (CancelAfter 2) env0 (CreateTask (a_task 1 "Write spec" "todo")) db_launch
    = (db', Some e) ∧
    e = Errorf "get task" (Some ErrCanceled) ∧
    tasks db_launch = [] ∧
    tasks db' = [Task.mk 1 1 "Write spec" "" "todo" 0 100 100] ∧
    db' ≠ db_launch.
Proof.
  eexists _, _. split; [vm_compute; reflexivity|].
  split; [reflexivity|]. split; [reflexivity|]. split; [reflexivity|].
  intros [=].
Qed.

(** ** The order of [ListProjects] *)

Lemma created_before_asym p q : created_before p q → ¬ created_before q p.
Proof. unfold created_before. lia. Qed.

Lemma sorted_listed_before {A} (R : relation A) l x y :
  (∀ a b, R a b → ¬ R b a) →
  StronglySorted R l → x ∈ l → y ∈ l → R x y → listed_before x y l.
Proof.
  intros Hasym Hl Hx Hy Hxy.
  apply list_elem_of_split in Hx as (l1 & l2 & ->).
  apply StronglySorted_app in Hl as (H12 & _ & H2).
  apply StronglySorted_cons in H2 as [H2 _]. rewrite Forall_forall in H2.
  apply elem_of_app in Hy as [Hy|Hy].
  - exfalso. apply (Hasym _ _ Hxy). apply H12; [done|left].
  - apply elem_of_cons in Hy as [->|Hy]; [by destruct (Hasym _ _ Hxy)|].
    apply list_elem_of_split in Hy as (l3 & l4 & ->). by exists l1, l3, l4.
Qed.

Lemma StronglySorted_of_fmap {A B} (f : A → B) (R : relation B) l :
  StronglySorted R (map f l) → StronglySorted (λ a b, R (f a) (f b)) l.
Proof.
  induction l as [|x l IH]; [constructor|]. simpl.
  intros [Hx Hl]%StronglySorted_cons. constructor; [by apply IH|].
  rewrite Forall_forall in Hx. rewrite Forall_forall.
  intros y Hy. apply Hx. by apply list_elem_of_fmap_2.
Qed.

(** C9.  [ListProjects] returns all projects in ascending [created_at] order,
    and the order is stable: projects with the same timestamp stay in the
    order of their creation (their ids), so of two projects the one created
    earlier (by timestamp, then by id) comes first; when timestamps never
    decrease from one creation to the next, the list is the creation order. *)
Theorem ListProjects_created_order ctx db :
  permits ctx 1 →
  ∃ l, Store.ListProjects (ctx, db) = ((after 1 ctx, db), inr l) ∧
       l ≡ₚ projects db ∧
       StronglySorted (λ p q, Project.CreatedAt p <= Project.CreatedAt q) l ∧
       (consistent db →
        StronglySorted created_before l ∧
        ∀ p q, p ∈ projects db → q ∈ projects db → created_before p q →
               listed_before p q l) ∧
       (StronglySorted (λ p q, Project.CreatedAt p <= Project.CreatedAt q) (projects db) →
        l = projects db).
Proof.
  intros Hctx. exists (SQL.select_projects db). split; [|split; [|split; [|split]]].
  - unfold Store.ListProjects. by erewrite wrapf_run; [|by apply query_run].
  - apply order_by_perm.
  - apply order_by_sorted.
    + intros a b. apply Z.leb_le.
    + intros a b ?%Z.leb_gt. lia.
    + intros a b c. lia.
  - intros Hdb.
    assert (StronglySorted created_before (SQL.select_projects db)) as Hs.
    { apply (order_by_stable _ created_before (λ p q, Project.ID p < Project.ID q)).
      - intros a b ? ?%Z.leb_le. unfold created_before. lia.
      - intros a b ?%Z.leb_gt. unfold created_before. lia.
      - intros a b c ? ?%Z.leb_le. unfold created_before. lia.
      - apply StronglySorted_of_fmap, (project_ids_increasing db Hdb). }
    split; [done|]. intros p q Hp Hq Hpq.
    apply (sorted_listed_before created_before); try done.
    + apply created_before_asym.
    + unfold SQL.select_projects. by rewrite order_by_perm.
    + unfold SQL.select_projects. by rewrite order_by_perm.
  - intros Hs. apply order_by_sorted_id.
    induction Hs as [|x l Hl IH Hx]; constructor; [done|].
    eapply Forall_impl; [done|]. intros y. apply Z.leb_le.
Qed.

Lemma db_projects_reachable : reachable db_projects.
Proof.
  assert (db_projects = run_all projects_calls empty_db) as -> by (vm_compute; reflexivity).
  apply reachable_run_all. constructor.
Qed.

Lemma ListProjects_created_order_witness :
  ∃ l, Store.ListProjects (CancelAfter 1, db_projects)
       = ((CancelAfter 0, db_projects), inr l) ∧
       map Project.ID l = [1; 2; 3] ∧
       StronglySorted created_before l.
Proof.
  destruct (ListProjects_created_order (CancelAfter 1) db_projects)
    as (l & Hrun & _ & _ & Hstable & Hid); [simpl; lia|].
  exists l. split; [exact Hrun|]. split.
  - rewrite Hid; [reflexivity|]. repeat constructor; by vm_compute.
  - apply Hstable, reachable_consistent, db_projects_reachable.
Defined.

(** A project stamped earlier than an older one is listed before it: after
    the clock was set back, [ListProjects] follows the timestamps. *)
Example ListProjects_follows_timestamps :
  Store.ListProjects
    (Background,
     run_all [ (Background, mkEnv 100 0, CreateProject "A" "")
             ; (Background, mkEnv 50 0, CreateProject "B" "") ] empty_db)
  = ((Background,
      mkDB [Project.mk 1 "A" "#2563eb" 100 100; Project.mk 2 "B" "#2563eb" 50 50] [] 2 0),
     inr [Project.mk 2 "B" "#2563eb" 50 50; Project.mk 1 "A" "#2563eb" 100 100]).
Proof. vm_compute. reflexivity. Qed.

(** C10.  Whatever the patch, [UpdateTask] leaves the [projects] table and
    the rowid counters alone and changes, in the rows with the given id,
    only [title], [description], [status], [position] and [updated_at]: the
    ids, project ids and creation times of all tasks stay as they were, and
    the task returned has those of the task found. *)
Theorem UpdateTask_frame env id changes ctx db :
  let r := Store.UpdateTask env id changes (ctx, db) in
  projects r.1.2 = projects db ∧
  seq_projects r.1.2 = seq_projects db ∧ seq_tasks r.1.2 = seq_tasks db ∧
  (tasks r.1.2 = tasks db ∨
   ∃ title description status position,
     tasks r.1.2
     = map (λ t, if Task.ID t =? id
                 then Task.mk (Task.ID t) (Task.ProjectID t) title description status
                              position (Task.CreatedAt t) (clock env)
                 else t) (tasks db)) ∧
  map (λ t, (Task.ID t, Task.ProjectID t, Task.CreatedAt t)) (tasks r.1.2)
  = map (λ t, (Task.ID t, Task.ProjectID t, Task.CreatedAt t)) (tasks db) ∧
  (∀ t', r.2 = inr t' →
     ∃ current, SQL.select_task id db = Some current ∧
                Task.ID t' = Task.ID current ∧
                Task.ProjectID t' = Task.ProjectID current ∧
                Task.CreatedAt t' = Task.CreatedAt current).
Proof.
  simpl.
  destruct (UpdateTask_cases env id changes ctx db)
    as [[-> [e ->]]|(cur & Hcur & -> & Hr)].
  { repeat split; try done. by left. }
  unfold with_patched_task, SQL.update_task. cbn [fst snd projects tasks seq_projects seq_tasks].
  split; [done|]. split; [done|]. split; [done|]. split; [|split].
  - right.
    exists (Store.resolve_title cur changes), (Store.resolve_description cur changes),
      (Store.resolve_status cur changes), (patched_position cur changes db).
    reflexivity.
  - rewrite <- list_fmap_compose. apply list_fmap_ext. intros i t _. simpl.
    by destruct (_ =? _).
  - intros t' Ht'. exists cur. split; [done|].
    destruct Hr as [Hr|Hr]; rewrite Hr in Ht'; [|done].
    by injection Ht' as <-.
Qed.

Lemma UpdateTask_frame_witness :
  ∃ t', (Store.UpdateTask (mkEnv 110 0) 2
           {[ "status" := AnyString "done"; "title" := AnyString "Review again" ]}
           (Background, db_board)).2 = inr t' ∧
        Task.ID t' = 2 ∧ Task.ProjectID t' = 1 ∧ Task.CreatedAt t' = 102.
Proof.
  pose proof (UpdateTask_frame (mkEnv 110 0) 2
                {[ "status" := AnyString "done"; "title" := AnyString "Review again" ]}
                Background db_board) as (_ & _ & _ & _ & _ & H).
  eexists. split; [vm_compute; reflexivity|].
  edestruct H as (cur & Hcur & H1 & H2 & H3); [vm_compute; reflexivity|].
  vm_compute in Hcur. injection Hcur as <-.
  split; [exact H1|]. split; [exact H2|exact H3].
Defined.

(** * Further properties of the store *)

(** ** Projects *)

Lemma randomPaletteColor_palette env : Store.randomPaletteColor env ∈ Store.palette.
Proof.
  unfold Store.randomPaletteColor.
  destruct (Store.palette !! (intn env `mod` length Store.palette)%nat) as [c|] eqn:E.
  - simpl. by apply list_elem_of_lookup_2 in E.
  - apply lookup_ge_None in E.
    pose proof (Nat.mod_upper_bound (intn env) (length Store.palette)) as H.
    simpl in *. lia.
Qed.

(** A project created without a color gets one of the seven colors of the
    palette; a color that is given is stored as it is.  The row has the
    trimmed name, both timestamps at the current time and a new largest id; it
    is the last row of the table and what [GetProject] returns for its id. *)
Theorem CreateProject_row env name color ctx db s' p :
  Store.CreateProject env name color (ctx, db) = (s', inr p) →
  (color = "" → Project.Color p ∈ Store.palette) ∧
  (color ≠ "" → Project.Color p = color) ∧
  Project.Name p = strings.TrimSpace name ∧ Project.Name p ≠ "" ∧
  Project.CreatedAt p = clock env ∧ Project.UpdatedAt p = clock env ∧
  (∀ q, q ∈ projects db → Project.ID q < Project.ID p) ∧
  seq_projects db < Project.ID p ∧
  projects s'.2 = projects db ++ [p] ∧ tasks s'.2 = tasks db ∧
  ∀ ctx', permits ctx' 1 →
    Store.GetProject (Project.ID p) (ctx', s'.2) = ((after 1 ctx', s'.2), inr p).
Proof.
  intros Hrun.
  destruct (CreateProject_cases env name color ctx db)
    as [(_ & e & He & _)|(Hdb & Hname & _ & [Hr|Hr])];
    rewrite Hrun in *; simpl in *; try done.
  injection Hr as ->. rewrite Hdb. simpl.
  unfold chosen_color. split; [|split].
  - intros ->. rewrite decide_True by done. apply randomPaletteColor_palette.
  - intros Hc. by rewrite decide_False.
  - repeat split; try done.
    + intros q Hq.
      assert (Project.ID q ∈ map Project.ID (projects db)) as H
        by by apply list_elem_of_fmap_2.
      apply (max_rowid_ge _ (seq_projects db)) in H. lia.
    + pose proof (max_rowid_seq (map Project.ID (projects db)) (seq_projects db)). lia.
    + intros ctx' Hctx'. rewrite GetProject_run by done.
      pose proof (select_new_project env name color db) as Hsel.
      unfold new_project, chosen_color in Hsel. simpl in Hsel. by rewrite Hsel.
Qed.

Lemma CreateProject_row_witness :
  ∃ s' p, Store.CreateProject (mkEnv 120 9) "  Ops " "" (Background, db_launch) = (s', inr p) ∧
          Project.Color p ∈ Store.palette ∧ Project.Name p = "Ops" ∧ Project.ID p = 2.
Proof.
  assert (Store.CreateProject (mkEnv 120 9) "  Ops " "" (Background, db_launch)
          = ((Background,
              mkDB [Project.mk 1 "Launch" "#059669" 100 100;
                    Project.mk 2 "Ops" "#dc2626" 120 120] [] 2 0),
             inr (Project.mk 2 "Ops" "#dc2626" 120 120))) as H
    by (vm_compute; reflexivity).
  eexists _, _. split; [exact H|].
  destruct (CreateProject_row _ _ _ _ _ _ _ H) as (Hc & _ & Hn & _).
  split; [exact (Hc eq_refl)|]. split; reflexivity.
Defined.

Lemma update_names_NoDup (g : Project.t → Project.t) id name l :
  (∀ p, Project.Name (g p) = name) →
  NoDup (map Project.ID l) → NoDup (map Project.Name l) →
  (∀ p, p ∈ l → Project.ID p ≠ id → Project.Name p ≠ name) →
  NoDup (map Project.Name (map (λ p, if Project.ID p =? id then g p else p) l)).
Proof.
  intros Hg. induction l as [|x l IH]; simpl; [constructor|].
  intros [Hx Hids]%NoDup_cons [Hnx Hnames]%NoDup_cons Hother.
  assert (∀ p, p ∈ l → Project.ID p ≠ id → Project.Name p ≠ name) as Hother'
    by (intros p Hp; apply Hother; by right).
  destruct (Z.eqb_spec (Project.ID x) id) as [Hid|Hid].
  - rewrite map_if_none.
    + constructor; [|done]. rewrite Hg.
      intros (q & Hq & Hin)%list_elem_of_fmap. apply (Hother' q Hin); [|done].
      intros E. apply Hx. rewrite Hid, <- E. by apply list_elem_of_fmap_2.
    + intros q Hq. apply Z.eqb_neq. intros E. apply Hx. rewrite Hid, <- E.
      by apply list_elem_of_fmap_2.
  - constructor; [|by apply IH].
    intros (q & Hq & Hin)%list_elem_of_fmap.
    apply list_elem_of_fmap in Hin as (q0 & -> & Hin).
    destruct (Z.eqb_spec (Project.ID q0) id).
    + rewrite Hg in Hq. apply (Hother x); [left|done|done].
    + apply Hnx. rewrite Hq. by apply list_elem_of_fmap_2.
Qed.

Lemma NoDup_fmap_filter {A B} (f : A → B) (P : A → Prop) `{∀ x, Decision (P x)} l :
  NoDup (map f l) → NoDup (map f (filter P l)).
Proof.
  induction l as [|x l IH]; [done|]. simpl. intros [Hx Hl]%NoDup_cons.
  rewrite filter_cons. destruct (decide (P x)); [|by apply IH].
  simpl. constructor; [|by apply IH].
  intros (y & Hy & [_ Hin]%list_elem_of_filter)%list_elem_of_fmap.
  apply Hx. rewrite Hy. by apply list_elem_of_fmap_2.
Qed.

Lemma existsb_false_elem_of {A} (f : A → bool) l :
  existsb f l = false → ∀ x, x ∈ l → f x = false.
Proof.
  intros H x Hx. destruct (f x) eqn:E; [|done].
  assert (existsb f l = true) by (apply existsb_elem_of; eauto). congruence.
Qed.

Lemma update_project_names now name color id db db' n :
  NoDup (map Project.ID (projects db)) →
  SQL.update_project now name color id db = (db', inr n) →
  NoDup (map Project.Name (projects db)) →
  NoDup (map Project.Name (projects db')).
Proof.
  intros Hids Hup Hnames. unfold SQL.update_project in Hup.
  destruct (existsb (λ p, Project.ID p =? id) (projects db)) eqn:E1; simpl in Hup.
  - destruct (existsb _ (projects db)) eqn:E2 in Hup; [done|].
    injection Hup as <- _. simpl.
    apply (update_names_NoDup
             (λ p, SQL.trg_projects_updated now
                     (Project.mk (Project.ID p) name color (Project.CreatedAt p) now))
             id name);
      try done.
    intros p Hp Hid Hname.
    apply (existsb_false_elem_of _ _ E2) in Hp.
    apply andb_false_iff in Hp as [Hp|Hp].
    + apply negb_false_iff, Z.eqb_eq in Hp. done.
    + apply String.eqb_neq in Hp. done.
  - injection Hup as <- _. simpl. rewrite map_if_none; [done|].
    by apply existsb_false_elem_of.
Qed.

Lemma run_names_ok ctx env c db :
  consistent db → names_ok db → names_ok (run ctx env c db).1.
Proof.
  intros Hdb [Hnd Hne].
  assert (NoDup (map Project.ID (projects db))) as Hids
    by apply StronglySorted_lt_NoDup, (project_ids_increasing db Hdb).
  destruct c as [name color|id name color|id|t|id changes|id]; unfold run, outcome;
    cbn [fst snd].
  - destruct (CreateProject_cases env name color ctx db)
      as [[-> _]|(-> & Hname & Hfree & _)]; [done|].
    unfold names_ok, with_new_project. simpl. split.
    + rewrite map_app. apply NoDup_app. split; [done|]. split; [|repeat constructor].
      * intros x (q & -> & Hq)%list_elem_of_fmap [E|[]%elem_of_nil]%elem_of_cons.
        apply Hfree. by exists q.
      * by intros ?%elem_of_nil.
    + intros p [Hp| ->%list_elem_of_singleton]%elem_of_app; auto.
  - destruct (UpdateProject_cases env id name color ctx db)
      as [[-> _]|(n & Hup & _ & Hname & _)]; [done|].
    split; [by eapply update_project_names|].
    unfold SQL.update_project in Hup. destruct (_ && _); [done|].
    injection Hup as <- _. simpl.
    intros p (q & -> & Hq)%list_elem_of_fmap. destruct (_ =? _); simpl; auto.
  - destruct (DeleteProject_cases id ctx db) as [[-> _]|(n & _ & _ & _ & _ & Hp)]; [done|].
    unfold names_ok. rewrite Hp. split; [by apply NoDup_fmap_filter|].
    intros p [_ Hin]%list_elem_of_filter. auto.
  - destruct (CreateTask_cases env t ctx db) as [[-> _]|(-> & _)]; done.
  - destruct (UpdateTask_cases env id changes ctx db) as [[-> _]|(cur & _ & -> & _)]; done.
  - destruct (DeleteTask_cases id ctx db) as [[-> _]|(-> & _)]; done.
Qed.

(** In every database the store produces, project names are unique and not
    empty: the UNIQUE constraint rejects a second use of a name, by
    [CreateProject] or by [UpdateProject], and both refuse a name that is
    empty once trimmed. *)
Theorem project_names_unique db : reachable db → names_ok db.
Proof.
  induction 1 as [|ctx env c db Hdb IH].
  - split; [constructor|]. by intros p ?%elem_of_nil.
  - apply run_names_ok; [by apply reachable_consistent|done].
Qed.

Lemma project_names_unique_witness : names_ok db_projects.
Proof. exact (project_names_unique db_projects db_projects_reachable). Defined.

Lemma project_exists_select id db :
  project_exists id db ↔ ∃ p, SQL.select_project id db = Some p.
Proof.
  rewrite <- project_exists_existsb. apply existsb_find.
Qed.

Lemma select_project_unique id db p :
  NoDup (map Project.ID (projects db)) → p ∈ projects db → Project.ID p = id →
  SQL.select_project id db = Some p.
Proof.
  unfold SQL.select_project. induction (projects db) as [|u l IH]; simpl.
  - by intros _ ?%elem_of_nil.
  - intros [Hu Hl]%NoDup_cons [->|Ht]%elem_of_cons Hid.
    + by rewrite (proj2 (Z.eqb_eq _ _) Hid).
    + destruct (Z.eqb_spec (Project.ID u) id) as [E|]; [|by apply IH].
      exfalso. apply Hu. rewrite E, <- Hid. by apply list_elem_of_fmap_2.
Qed.

(** [UpdateProject] checks the name first, then the row: a name that is empty
    once trimmed is rejected whatever the id; an id without a row is "project
    not found"; a name another project holds is a uniqueness conflict; in all
    three cases nothing changes.  Otherwise the project keeps its id and its
    creation time, takes the trimmed name, the color and the current time as
    [updated_at], and every other row of both tables stays as it was. *)
Theorem UpdateProject_outcomes env id name color ctx db :
  consistent db → permits ctx 2 →
  (strings.TrimSpace name = "" →
   Store.UpdateProject env id name color (ctx, db)
   = ((ctx, db), inl (Errorf "project name must not be empty" None))) ∧
  (strings.TrimSpace name ≠ "" → ¬ project_exists id db →
   Store.UpdateProject env id name color (ctx, db)
   = ((after 1 ctx, db), inl (Errorf "project not found" None))) ∧
  (strings.TrimSpace name ≠ "" → project_exists id db →
   (∃ q, q ∈ projects db ∧ Project.ID q ≠ id ∧ Project.Name q = strings.TrimSpace name) →
   Store.UpdateProject env id name color (ctx, db)
   = ((after 1 ctx, db), inl (Errorf "update project" (Some ErrConstraintUnique)))) ∧
  (∀ old, strings.TrimSpace name ≠ "" → SQL.select_project id db = Some old →
   (∀ q, q ∈ projects db → Project.ID q ≠ id → Project.Name q ≠ strings.TrimSpace name) →
   ∃ db',
     Store.UpdateProject env id name color (ctx, db)
     = ((after 2 ctx, db'),
        inr (Project.mk id (strings.TrimSpace name) (chosen_color env color)
                        (Project.CreatedAt old) (clock env))) ∧
     tasks db' = tasks db ∧
     map Project.ID (projects db') = map Project.ID (projects db) ∧
     (∀ q, q ∈ projects db → Project.ID q ≠ id → q ∈ projects db')).
Proof.
  intros Hdb Hctx.
  assert (NoDup (map Project.ID (projects db))) as Hids
    by apply StronglySorted_lt_NoDup, (project_ids_increasing db Hdb).
  split; [|split; [|split]].
  - intros Hname. unfold Store.UpdateProject. by rewrite decide_True.
  - intros Hname Hno. unfold Store.UpdateProject. rewrite decide_False by done.
    fold (chosen_color env color).
    assert (existsb (λ p, Project.ID p =? id) (projects db) = false) as E.
    { destruct (existsb _ _) eqn:E; [|done]. by apply project_exists_existsb in E. }
    destruct (SQL.update_project (clock env) (strings.TrimSpace name)
                (chosen_color env color) id db) as [db' [e|n]] eqn:Hup.
    { unfold SQL.update_project in Hup. rewrite E in Hup. done. }
    assert (n = 0) as ->.
    { unfold SQL.update_project in Hup. rewrite E in Hup. injection Hup as _ <-.
      destruct (filter _ _) as [|p l] eqn:Ef; [done|].
      assert (p ∈ filter (λ p, Project.ID p = id) (projects db)) as Hp
        by (rewrite Ef; left).
      apply list_elem_of_filter in Hp as [Hid Hp]. destruct Hno. by exists p. }
    erewrite bind_run; [|apply wrapf_run; rewrite stmt_run, Hup by ctx_tac; reflexivity].
    apply update_project_rows in Hup as [H0 _]. rewrite (H0 eq_refl).
    by rewrite decide_True.
  - intros Hname Hp (q & Hq & Hqid & Hqn).
    unfold Store.UpdateProject. rewrite decide_False by done.
    fold (chosen_color env color).
    erewrite bind_fail; [done|]. apply wrapf_fail. rewrite stmt_run by ctx_tac.
    unfold SQL.update_project.
    rewrite (proj2 (project_exists_existsb id db) Hp). simpl.
    assert (existsb (λ p, negb (Project.ID p =? id)
                          && String.eqb (Project.Name p) (strings.TrimSpace name))
                    (projects db) = true) as ->; [|done].
    apply existsb_elem_of. exists q. split; [done|].
    apply andb_true_iff. split; [apply negb_true_iff; lia|by apply String.eqb_eq].
  - intros old Hname Hold Hfree.
    assert (Hold' := Hold). apply find_elem_of in Hold' as [Hin Hid]. apply Z.eqb_eq in Hid.
    destruct (SQL.update_project (clock env) (strings.TrimSpace name)
                (chosen_color env color) id db) as [db' [e|n]] eqn:Hup.
    { exfalso. unfold SQL.update_project in Hup.
      destruct (existsb (λ p, negb (Project.ID p =? id)
                              && String.eqb (Project.Name p) (strings.TrimSpace name))
                        (projects db)) eqn:E; [|by rewrite andb_false_r in Hup].
      apply existsb_elem_of in E as (q & Hq & [Hq1 Hq2]%andb_true_iff).
      apply negb_true_iff in Hq1. apply String.eqb_eq in Hq2.
      apply (Hfree q); [done|lia|done]. }
    assert (db' = mkDB (map (λ p, if Project.ID p =? id
                                  then Project.mk (Project.ID p) (strings.TrimSpace name)
                                         (chosen_color env color) (Project.CreatedAt p)
                                         (clock env)
                                  else p) (projects db))
                       (tasks db) (seq_projects db) (seq_tasks db) ∧ n ≠ 0) as [-> Hn].
    { unfold SQL.update_project in Hup. destruct (_ && _); [done|].
      injection Hup as <- <-. split; [done|].
      assert (length (filter (λ p, Project.ID p = id) (projects db)) ≠ 0%nat); [|lia].
      apply filter_some_length. eauto. }
    destruct (UpdateProject_ok env id name color ctx db _ n Hctx Hname Hup Hn)
      as (p & Hrun & Hsel).
    assert (p = Project.mk id (strings.TrimSpace name) (chosen_color env color)
                  (Project.CreatedAt old) (clock env)) as ->.
    { unfold SQL.select_project in Hsel. simpl in Hsel.
      rewrite (find_map_update (λ p, Project.ID p =? id)
                 (λ p, Project.mk (Project.ID p) (strings.TrimSpace name)
                         (chosen_color env color) (Project.CreatedAt p) (clock env))
                 _ old) in Hsel by done.
      injection Hsel as <-. by rewrite Hid. }
    eexists. split; [exact Hrun|]. split; [done|]. split.
    + simpl. rewrite <- list_fmap_compose. apply list_fmap_ext.
      intros i q _. simpl. by destruct (_ =? _).
    + intros q Hq Hqid. simpl. apply list_elem_of_fmap. exists q. split; [|done].
      by rewrite (proj2 (Z.eqb_neq _ _) Hqid).
Qed.

Lemma UpdateProject_outcomes_witness :
  Store.UpdateProject env0 7 " x" "" (Background, db_projects)
  = ((Background, db_projects), inl (Errorf "project not found" None)) ∧
  Store.UpdateProject env0 2 " Launch " "" (Background, db_projects)
  = ((Background, db_projects),
     inl (Errorf "update project" (Some ErrConstraintUnique))) ∧
  ∃ db', Store.UpdateProject (mkEnv 130 1) 2 " Backlog " "#fff" (Background, db_projects)
         = ((Background, db'), inr (Project.mk 2 "Backlog" "#fff" 100 130)).
Proof.
  destruct (UpdateProject_outcomes env0 7 " x" "" Background db_projects)
    as (_ & H1 & _); [apply reachable_consistent, db_projects_reachable|exact I|].
  destruct (UpdateProject_outcomes env0 2 " Launch " "" Background db_projects)
    as (_ & _ & H2 & _); [apply reachable_consistent, db_projects_reachable|exact I|].
  destruct (UpdateProject_outcomes (mkEnv 130 1) 2 " Backlog " "#fff" Background db_projects)
    as (_ & _ & _ & H3); [apply reachable_consistent, db_projects_reachable|exact I|].
  split; [|split].
  - apply H1; [vm_compute; discriminate|].
    intros (p & Hp & Hid). vm_compute in Hp.
    repeat (inversion Hp as [|? ? ? Hp']; subst; clear Hp;
            [vm_compute in Hid; discriminate|rename Hp' into Hp]).
    inversion Hp.
  - apply H2; [vm_compute; discriminate| |].
    + eexists. split; [vm_compute; right; left|reflexivity].
    + eexists. split; [vm_compute; left|]. split; [vm_compute; discriminate|reflexivity].
  - destruct (H3 (Project.mk 2 "Backlog" "#d97706" 100 100)) as (db' & Hrun & _);
      [vm_compute; discriminate|vm_compute; reflexivity| |].
    + intros q Hq Hid Hname. vm_compute in Hq.
      repeat (inversion Hq as [|? ? ? Hq']; subst; clear Hq;
              [first [by vm_compute in Hid|vm_compute in Hname; discriminate]
              |rename Hq' into Hq]).
      inversion Hq.
    + exists db'. exact Hrun.
Defined.

(** ** Tasks *)

Lemma select_task_none id db :
  SQL.select_task id db = None ↔ ∀ t, t ∈ tasks db → Task.ID t ≠ id.
Proof.
  unfold SQL.select_task. split.
  - intros H t Ht E. apply (find_none _ _ H) in Ht. lia.
  - intros H. destruct (find _ _) as [t|] eqn:E; [|done].
    apply find_elem_of in E as [Ht Hid]. destruct (H t Ht). lia.
Qed.

Lemma find_filter_other {A} (f : A → bool) (P : A → Prop) `{∀ x, Decision (P x)} l :
  (∀ x, f x = true → P x) → find f (filter P l) = find f l.
Proof.
  intros HfP. induction l as [|x l IH]; [done|]. rewrite filter_cons. simpl.
  destruct (decide (P x)) as [HP|HP]; simpl.
  - by rewrite IH.
  - destruct (f x) eqn:E; [by destruct HP; apply HfP|done].
Qed.

Lemma DeleteTask_missing id c d :
  permits c 1 → (∀ t, t ∈ tasks d → Task.ID t ≠ id) →
  Store.DeleteTask id (c, d) = ((after 1 c, d), inl (Errorf "task not found" None)).
Proof.
  intros Hc Hno. unfold Store.DeleteTask.
  erewrite bind_run; [|apply wrapf_run; rewrite stmt_run by done; reflexivity].
  unfold SQL.delete_task. cbn [fst snd].
  assert (length (filter (λ t, Task.ID t = id) (tasks d)) = 0%nat) as Hlen.
  { destruct (filter _ _) as [|p l] eqn:Ef; [done|].
    assert (p ∈ filter (λ t, Task.ID t = id) (tasks d)) as Hp by (rewrite Ef; left).
    apply list_elem_of_filter in Hp as [Hid Hp]. by destruct (Hno p Hp). }
  rewrite Hlen, decide_True by done.
  rewrite filter_none_length by done. by rewrite DB_eta.
Qed.

(** [DeleteTask] on an id without a row is "task not found" and changes
    nothing.  On an existing task it removes the rows with that id and no
    other, leaves the projects and the rowid counter alone, and afterwards
    [GetTask] and a second [DeleteTask] for the id answer "task not found",
    while every other task is found as before. *)
Theorem DeleteTask_outcomes id ctx db :
  permits ctx 1 →
  ((∀ t, t ∈ tasks db → Task.ID t ≠ id) →
   Store.DeleteTask id (ctx, db) = ((after 1 ctx, db), inl (Errorf "task not found" None))) ∧
  (∀ t, t ∈ tasks db → Task.ID t = id →
   ∃ db', Store.DeleteTask id (ctx, db) = ((after 1 ctx, db'), inr ()) ∧
          tasks db' = filter (λ u, Task.ID u ≠ id) (tasks db) ∧
          projects db' = projects db ∧ seq_tasks db' = seq_tasks db ∧
          (∀ c, permits c 1 →
             Store.GetTask id (c, db')
             = ((after 1 c, db'), inl (Errorf "task not found" None))) ∧
          (∀ c, permits c 1 →
             Store.DeleteTask id (c, db')
             = ((after 1 c, db'), inl (Errorf "task not found" None))) ∧
          (∀ id', id' ≠ id → SQL.select_task id' db' = SQL.select_task id' db)).
Proof.
  intros Hctx. split; [by apply DeleteTask_missing|].
  intros t Ht Hid. eexists. split; [by eapply DeleteTask_ok|].
  unfold SQL.delete_task. cbn [fst snd tasks projects seq_tasks].
  split; [done|]. split; [done|]. split; [done|].
  assert (∀ u, u ∈ filter (λ u, Task.ID u ≠ id) (tasks db) → Task.ID u ≠ id) as Hgone
    by by intros u [? _]%list_elem_of_filter.
  split; [|split].
  - intros c Hc. rewrite GetTask_run by done.
    by rewrite (proj2 (select_task_none id _)).
  - intros c Hc. by apply DeleteTask_missing.
  - intros id' Hne. unfold SQL.select_task. simpl. apply find_filter_other.
    intros x Hx. apply Z.eqb_eq in Hx. lia.
Qed.

Lemma DeleteTask_outcomes_witness :
  Store.DeleteTask 9 (Background, db_board)
  = ((Background, db_board), inl (Errorf "task not found" None)) ∧
  ∃ db', Store.DeleteTask 1 (CancelAfter 1, db_board) = ((CancelAfter 0, db'), inr ()) ∧
         map Task.ID (tasks db') = [2; 3].
Proof.
  destruct (DeleteTask_outcomes 9 Background db_board I) as [H1 _].
  destruct (DeleteTask_outcomes 1 (CancelAfter 1) db_board) as [_ H2]; [simpl; lia|].
  split.
  - apply H1. intros t Ht. vm_compute in Ht.
    repeat (inversion Ht as [|? ? ? Ht']; subst; clear Ht;
            [vm_compute; discriminate|rename Ht' into Ht]).
    inversion Ht.
  - destruct (H2 (Task.mk 1 1 "Write spec" "" "todo" 0 101 101)) as (db' & Hrun & Ht & _);
      [vm_compute; left|reflexivity|].
    exists db'. split; [exact Hrun|]. rewrite Ht. vm_compute. reflexivity.
Defined.

(** *** Rowids are never used twice *)

Lemma max_rowid_bounded ids seq : (∀ i, i ∈ ids → i <= seq) → SQL.max_rowid ids seq = seq.
Proof.
  induction ids as [|i ids IH]; simpl; [done|]. intros H.
  rewrite IH by (intros j Hj; apply H; by right).
  assert (i <= seq) by (apply H; left). lia.
Qed.

Lemma write_rowids_bounded db db' : rowids_bounded db → write db db' → rowids_bounded db'.
Proof.
  intros (Hsp & Hst & Hp & Ht) Hw. destruct Hw as
    [now name color id db' H|now name color id n db' H|id n db' H
    |now t id db' H|now id changes current n db' Hcur H|id n db' H].
  - unfold SQL.insert_project in H. destruct (existsb _ _); [done|].
    injection H as <- _.
    rewrite max_rowid_bounded
      by (intros i (q & -> & Hq)%list_elem_of_fmap; by apply Hp).
    repeat split; simpl; try lia; try (by apply Ht).
    + apply elem_of_app in H as [H| ->%list_elem_of_singleton]; [by apply Hp|simpl; lia].
    + apply elem_of_app in H as [H| ->%list_elem_of_singleton];
        [specialize (Hp _ H); lia|simpl; lia].
  - unfold SQL.update_project in H. destruct (_ && _); [done|].
    injection H as <- _. repeat split; simpl; try done; try (by apply Ht).
    + apply list_elem_of_fmap in H as (q & -> & Hq). specialize (Hp _ Hq).
      destruct (_ =? _); simpl; lia.
    + apply list_elem_of_fmap in H as (q & -> & Hq). specialize (Hp _ Hq).
      destruct (_ =? _); simpl; lia.
  - unfold SQL.delete_project in H. destruct (existsb _ _); injection H as <- _;
      [|done]. repeat split; simpl; try done.
    + apply list_elem_of_filter in H as [_ H]. by apply Hp.
    + apply list_elem_of_filter in H as [_ H]. by apply Hp.
    + apply list_elem_of_filter in H as [_ H]. by apply Ht.
    + apply list_elem_of_filter in H as [_ H]. by apply Ht.
  - unfold SQL.insert_task in H. destruct (negb _); [done|].
    injection H as <- _.
    rewrite max_rowid_bounded
      by (intros i (q & -> & Hq)%list_elem_of_fmap; by apply Ht).
    repeat split; simpl; try lia; try (by apply Hp).
    + apply elem_of_app in H as [H| ->%list_elem_of_singleton]; [by apply Ht|simpl; lia].
    + apply elem_of_app in H as [H| ->%list_elem_of_singleton];
        [specialize (Ht _ H); lia|simpl; lia].
  - unfold SQL.update_task in H. injection H as <- _.
    repeat split; simpl; try done; try (by apply Hp).
    + apply list_elem_of_fmap in H as (q & -> & Hq). specialize (Ht _ Hq).
      destruct (_ =? _); simpl; lia.
    + apply list_elem_of_fmap in H as (q & -> & Hq). specialize (Ht _ Hq).
      destruct (_ =? _); simpl; lia.
  - unfold SQL.delete_task in H. injection H as <- _.
    repeat split; simpl; try done; try (by apply Hp).
    + apply list_elem_of_filter in H as [_ H]. by apply Ht.
    + apply list_elem_of_filter in H as [_ H]. by apply Ht.
Qed.

Lemma reachable_rowids_bounded db : reachable db → rowids_bounded db.
Proof.
  induction 1 as [|ctx env c db _ IH].
  - split; [done|]. split; [done|]. split; by intros ? ?%elem_of_nil.
  - destruct (run_write ctx env c db) as [->|Hw]; [done|].
    by eapply write_rowids_bounded.
Qed.

(** The task rows of [db'] whose id [db] already gave out are rows of [db],
    with the project and the creation time they had. *)
Lemma write_old_ids db0 db db' :
  rowids_bounded db → write db db' →
  seq_tasks db0 <= seq_tasks db →
  (∀ t, t ∈ tasks db → Task.ID t <= seq_tasks db0 →
     ∃ t0, t0 ∈ tasks db0 ∧ Task.ID t0 = Task.ID t ∧
           Task.ProjectID t0 = Task.ProjectID t ∧ Task.CreatedAt t0 = Task.CreatedAt t) →
  seq_tasks db0 <= seq_tasks db' ∧
  (∀ t, t ∈ tasks db' → Task.ID t <= seq_tasks db0 →
     ∃ t0, t0 ∈ tasks db0 ∧ Task.ID t0 = Task.ID t ∧
           Task.ProjectID t0 = Task.ProjectID t ∧ Task.CreatedAt t0 = Task.CreatedAt t).
Proof.
  intros (Hsp & Hst & Hp & Ht) Hw Hseq Hold. destruct Hw as
    [now name color id db' H|now name color id n db' H|id n db' H
    |now t id db' H|now id changes current n db' Hcur H|id n db' H].
  - unfold SQL.insert_project in H. destruct (existsb _ _); injection H as <- _; done.
  - unfold SQL.update_project in H. destruct (_ && _); injection H as <- _; done.
  - unfold SQL.delete_project in H. destruct (existsb _ _); injection H as <- _;
      [|done]. split; [done|]. simpl. intros t [_ Hin]%list_elem_of_filter. auto.
  - unfold SQL.insert_task in H. destruct (negb _); injection H as <- _; [done|].
    rewrite max_rowid_bounded
      by (intros i (q & -> & Hq)%list_elem_of_fmap; by apply Ht).
    simpl. split; [lia|].
    intros u [Hin| ->%list_elem_of_singleton]%elem_of_app; [auto|]. simpl. lia.
  - unfold SQL.update_task in H. injection H as <- _. split; [done|]. simpl.
    intros u (u0 & -> & Hin)%list_elem_of_fmap.
    destruct (_ =? _); simpl; intros Hle; by apply Hold.
  - unfold SQL.delete_task in H. injection H as <- _. split; [done|]. simpl.
    intros t [_ Hin]%list_elem_of_filter. auto.
Qed.

(** AUTOINCREMENT: a new task gets the id after the largest one the table
    ever gave out, and an id once given out never names another task: after
    any further calls, a task with an id of the old database is that task
    (with its project and creation time), even if tasks were deleted in
    between. *)
Theorem task_ids_never_reused db :
  reachable db →
  (∀ env t ctx s' r, Store.CreateTask env t (ctx, db) = (s', inr r) →
     Task.ID r = seq_tasks db + 1 ∧ seq_tasks s'.2 = Task.ID r ∧
     ∀ u, u ∈ tasks db → Task.ID u < Task.ID r) ∧
  (∀ l, seq_tasks db <= seq_tasks (run_all l db) ∧
     ∀ t, t ∈ tasks (run_all l db) → Task.ID t <= seq_tasks db →
       ∃ t0, t0 ∈ tasks db ∧ Task.ID t0 = Task.ID t ∧
             Task.ProjectID t0 = Task.ProjectID t ∧
             Task.CreatedAt t0 = Task.CreatedAt t).
Proof.
  intros Hdb. pose proof (reachable_rowids_bounded db Hdb) as Hb. split.
  - intros env t ctx s' r Hrun.
    destruct (CreateTask_cases env t ctx db) as [(_ & e & He & _)|(Hs & _ & _ & [Hr|Hr])];
      rewrite Hrun in *; simpl in *; try done.
    injection Hr as ->. rewrite Hs. simpl.
    destruct Hb as (_ & _ & _ & Ht).
    rewrite max_rowid_bounded
      by (intros i (q & -> & Hq)%list_elem_of_fmap; by apply Ht).
    split; [done|]. split; [done|]. intros u Hu. specialize (Ht u Hu). lia.
  - intros l.
    enough (∀ d, reachable d → seq_tasks db <= seq_tasks d →
              (∀ t, t ∈ tasks d → Task.ID t <= seq_tasks db →
                 ∃ t0, t0 ∈ tasks db ∧ Task.ID t0 = Task.ID t ∧
                       Task.ProjectID t0 = Task.ProjectID t ∧
                       Task.CreatedAt t0 = Task.CreatedAt t) →
              seq_tasks db <= seq_tasks (run_all l d) ∧
              (∀ t, t ∈ tasks (run_all l d) → Task.ID t <= seq_tasks db →
                 ∃ t0, t0 ∈ tasks db ∧ Task.ID t0 = Task.ID t ∧
                       Task.ProjectID t0 = Task.ProjectID t ∧
                       Task.CreatedAt t0 = Task.CreatedAt t)) as H.
    { apply H; [done|lia|]. intros t Ht _. by exists t. }
    induction l as [|[[ctx env] c] l IH]; intros d Hd Hseq Hold; [done|].
    simpl. destruct (run_write ctx env c d) as [E|Hw].
    + apply IH; [by constructor|by rewrite E..].
    + destruct (write_old_ids db d _ (reachable_rowids_bounded d Hd) Hw Hseq Hold)
        as [Hseq' Hold'].
      apply IH; [by constructor|done..].
Qed.

Lemma task_ids_never_reused_witness :
  ∃ s' r,
    Store.CreateTask (mkEnv 140 0) (a_task 1 "Again" "done")
      (Background, run_all [(Background, mkEnv 130 0, DeleteTask 3)] db_board) = (s', inr r) ∧
    Task.ID r = 4.
Proof.
  assert (Store.CreateTask (mkEnv 140 0) (a_task 1 "Again" "done")
            (Background, run_all [(Background, mkEnv 130 0, DeleteTask 3)] db_board)
          = ((Background,
              mkDB [Project.mk 1 "Launch" "#059669" 100 100]
                   [ Task.mk 1 1 "Write spec" "" "todo" 0 101 101
                   ; Task.mk 2 1 "Review" "" "todo" 1 102 102
                   ; Task.mk 4 1 "Again" "" "done" 0 140 140 ] 1 4),
             inr (Task.mk 4 1 "Again" "" "done" 0 140 140))) as H
    by (vm_compute; reflexivity).
  eexists _, _. split; [exact H|].
  destruct (task_ids_never_reused
              (run_all [(Background, mkEnv 130 0, DeleteTask 3)] db_board)
              (reachable_run_all _ _ db_board_reachable)) as [Hnew _].
  destruct (Hnew _ _ _ _ _ H) as [Hid _]. rewrite Hid. vm_compute. reflexivity.
Defined.

(** *** Created tasks *)

Lemma lex_le_refl t : lex_le t t.
Proof. apply lex_le_keys. split; [done|]. intros _. lia. Qed.

Lemma sorted_listed_before_not {A} (R : relation A) l x y :
  (∀ a, R a a) →
  StronglySorted R l → x ∈ l → y ∈ l → ¬ R y x → listed_before x y l.
Proof.
  intros Hrefl Hl Hx Hy Hyx.
  apply list_elem_of_split in Hx as (l1 & l2 & ->).
  apply StronglySorted_app in Hl as (H12 & _ & _).
  apply elem_of_app in Hy as [Hy|Hy].
  - destruct Hyx. apply H12; [done|left].
  - apply elem_of_cons in Hy as [->|Hy]; [by destruct Hyx|].
    apply list_elem_of_split in Hy as (l3 & l4 & ->). by exists l1, l3, l4.
Qed.

Lemma ListTasks_sorted projectID ctx db :
  permits ctx 1 →
  ∃ l, Store.ListTasks projectID (ctx, db) = ((after 1 ctx, db), inr l) ∧
       l ≡ₚ filter (λ t, Task.ProjectID t = projectID) (tasks db) ∧
       StronglySorted lex_le l.
Proof.
  intros Hctx. exists (SQL.select_tasks projectID db). split; [|split].
  - unfold Store.ListTasks. by erewrite wrapf_run; [|by apply query_run].
  - apply order_by_perm.
  - apply order_by_sorted.
    + intros a b. apply task_le_lex.
    + apply task_le_total.
    + apply lex_le_trans.
Qed.

(** The task [CreateTask] returns is the row it inserted: title and
    description trimmed (the title not empty), the project given (which
    exists), a valid status, both timestamps at the current time; the id,
    position and timestamps of the argument play no part.  [GetTask] returns
    the same row for its id, and [ListTasks] shows it after every task that
    was in its column, as long as the column has not reached the largest
    [int64] position. *)
Theorem CreateTask_row env t ctx db s' r :
  Store.CreateTask env t (ctx, db) = (s', inr r) →
  Task.Title r = strings.TrimSpace (Task.Title t) ∧ Task.Title r ≠ "" ∧
  Task.Description r = strings.TrimSpace (Task.Description t) ∧
  Task.ProjectID r = Task.ProjectID t ∧ project_exists (Task.ProjectID t) db ∧
  Task.Status r = Store.create_status t ∧ valid_status (Task.Status r) = true ∧
  Task.CreatedAt r = clock env ∧ Task.UpdatedAt r = clock env ∧
  tasks s'.2 = tasks db ++ [r] ∧ projects s'.2 = projects db ∧
  (∀ t2, Task.ProjectID t2 = Task.ProjectID t → Task.Title t2 = Task.Title t →
         Task.Description t2 = Task.Description t → Task.Status t2 = Task.Status t →
         Store.CreateTask env t2 (ctx, db) = (s', inr r)) ∧
  (∀ ctx', permits ctx' 1 →
     Store.GetTask (Task.ID r) (ctx', s'.2) = ((after 1 ctx', s'.2), inr r)) ∧
  (consistent db →
   (∀ u, u ∈ SQL.partition (Task.ProjectID r) (Task.Status r) db →
         Task.Position u < Int64.max) →
   ∀ ctx', permits ctx' 1 →
     ∃ l, Store.ListTasks (Task.ProjectID r) (ctx', s'.2) = ((after 1 ctx', s'.2), inr l) ∧
          r ∈ l ∧
          ∀ u, u ∈ SQL.partition (Task.ProjectID r) (Task.Status r) db →
               listed_before u r l).
Proof.
  intros Hrun.
  destruct (CreateTask_cases env t ctx db)
    as [(_ & e & He & _)|(Hs & Htitle & Hp & [Hr|Hr])];
    rewrite Hrun in *; simpl in *; try done.
  injection Hr as ->. rewrite Hs.
  assert (∀ ctx', permits ctx' 1 →
            Store.GetTask (Task.ID (new_task env t db)) (ctx', with_new_task env t db)
            = ((after 1 ctx', with_new_task env t db), inr (new_task env t db))) as Hget.
  { intros ctx' Hctx'. rewrite GetTask_run by done. by rewrite select_new_task. }
  assert (∀ t2, Task.ProjectID t2 = Task.ProjectID t → Task.Title t2 = Task.Title t →
            Task.Description t2 = Task.Description t → Task.Status t2 = Task.Status t →
            Store.CreateTask env t2 (ctx, db) = (s', inr (new_task env t db))) as Hsame.
  { intros t2 E1 E2 E3 E4. rewrite <- Hrun.
    unfold Store.CreateTask, Store.create_status. by rewrite E1, E2, E3, E4. }
  split; [done|]. split; [done|]. split; [done|]. split; [done|]. split; [done|].
  split; [done|]. split; [apply create_status_valid|].
  split; [done|]. split; [done|]. split; [done|]. split; [done|].
  split; [exact Hsame|]. split; [exact Hget|].
  cbn [new_task Task.ProjectID Task.Status].
  intros Hdb Hbelow ctx' Hctx'.
    destruct (ListTasks_sorted (Task.ProjectID t) ctx' (with_new_task env t db) Hctx')
      as (l & Hl & Hperm & Hsorted).
    exists l. split; [exact Hl|].
    assert (new_task env t db ∈ l) as Hr.
    { rewrite Hperm. apply list_elem_of_filter. split; [done|].
      apply elem_of_app. right. left. }
    split; [done|]. intros u Hu.
    apply (sorted_listed_before_not lex_le); try done.
    + apply lex_le_refl.
    + rewrite Hperm. apply list_elem_of_filter in Hu as [[Hup _] Hu].
      apply list_elem_of_filter. split; [done|]. apply elem_of_app. by left.
    + rewrite lex_le_keys. intros [_ Hkeys].
      assert (Task.Position u
              < next_position (Task.ProjectID t) (Store.create_status t) db) as Hlt.
      { apply next_position_above; [|done]. intros v Hv. split; [|by apply Hbelow].
        apply list_elem_of_filter in Hv as [_ Hv].
        by apply (positions_int64 db Hdb). }
      apply list_elem_of_filter in Hu as [[_ Hst] _].
      destruct Hkeys as [Hpos _]; [by rewrite Hst|]. simpl in Hpos. lia.
Qed.

Lemma CreateTask_row_witness :
  ∃ s' r l,
    Store.CreateTask (mkEnv 150 0) (Task.mk 99 1 " Deploy " " now " "" 7 1 2)
      (Background, db_board) = (s', inr r) ∧
    Task.Title r = "Deploy" ∧ Task.Description r = "now" ∧ Task.Status r = "todo" ∧
    Task.ID r = 4 ∧ Task.Position r = 2 ∧
    Store.ListTasks 1 (Background, s'.2) = ((Background, s'.2), inr l) ∧
    map Task.ID l = [3; 1; 2; 4].
Proof.
  assert (Store.CreateTask (mkEnv 150 0) (Task.mk 99 1 " Deploy " " now " "" 7 1 2)
            (Background, db_board)
          = ((Background,
              mkDB [Project.mk 1 "Launch" "#059669" 100 100]
                   [ Task.mk 1 1 "Write spec" "" "todo" 0 101 101
                   ; Task.mk 2 1 "Review" "" "todo" 1 102 102
                   ; Task.mk 3 1 "Ship" "" "done" 0 103 103
                   ; Task.mk 4 1 "Deploy" "now" "todo" 2 150 150 ] 1 4),
             inr (Task.mk 4 1 "Deploy" "now" "todo" 2 150 150))) as H
    by (vm_compute; reflexivity).
  destruct (CreateTask_row _ _ _ _ _ _ H) as (_ & _ & _ & _ & _ & _ & _ & _ & _ & _ & _ & _ & _ & Hlist).
  eexists _, _, _. split; [exact H|].
  do 5 (split; [reflexivity|]). split; vm_compute; reflexivity.
Defined.

(** [CreateTask] for a project that does not exist fails on the foreign key
    of the INSERT, after the position lookup, and writes nothing. *)
Theorem CreateTask_needs_project env t ctx db :
  strings.TrimSpace (Task.Title t) ≠ "" →
  ¬ project_exists (Task.ProjectID t) db →
  permits ctx 2 →
  Store.CreateTask env t (ctx, db)
  = ((after 2 ctx, db), inl (Errorf "insert task" (Some ErrConstraintForeignKey))).
Proof.
  intros Htitle Hp Hctx. unfold Store.CreateTask. rewrite decide_False by done.
  erewrite bind_run; [|apply nextPosition_run; ctx_tac].
  erewrite bind_fail; cycle 1.
  { apply wrapf_fail. rewrite stmt_run, insert_task_orphan by (try done; ctx_tac).
    reflexivity. }
  by rewrite after_after.
Qed.

Lemma CreateTask_needs_project_witness :
  Store.CreateTask env0 (a_task 5 "Lost" "todo") (Background, db_board)
  = ((Background, db_board), inl (Errorf "insert task" (Some ErrConstraintForeignKey))).
Proof.
  apply (CreateTask_needs_project env0 (a_task 5 "Lost" "todo") Background db_board);
    [vm_compute; discriminate| |exact I].
  intros (p & Hp & Hid). vm_compute in Hp.
  inversion Hp as [|? ? ? Hp']; subst; [vm_compute in Hid; discriminate|inversion Hp'].
Defined.

(** *** Positions within a column *)

(** No call makes two tasks of a column share a position, as long as no
    position has reached the largest [int64]: a new or moved task goes above
    its column, and the others stay where they are. *)
Theorem positions_stay_distinct ctx env c db :
  consistent db →
  distinct_positions db →
  (∀ t, t ∈ tasks db → Task.Position t < Int64.max) →
  distinct_positions (run ctx env c db).1.
Proof.
  intros Hdb Hdist Hbelow.
  assert (∀ projectID status u, u ∈ SQL.partition projectID status db →
            Task.Position u < next_position projectID status db) as Habove.
  { intros projectID status. apply next_position_above.
    intros u [_ Hu]%list_elem_of_filter. split; [|by apply Hbelow].
    by apply (positions_int64 db Hdb). }
  destruct (run_write ctx env c db) as [->|Hw]; [done|].
  destruct Hw as
    [now name color id db' H|now name color id n db' H|id n db' H
    |now t id db' H|now id changes current n db' Hcur H|id n db' H].
  - unfold SQL.insert_project in H. destruct (existsb _ _); by injection H as <- _.
  - unfold SQL.update_project in H. destruct (_ && _); by injection H as <- _.
  - unfold SQL.delete_project in H. destruct (existsb _ _); injection H as <- _; [|done].
    intros t u [_ Ht]%list_elem_of_filter [_ Hu]%list_elem_of_filter. by apply Hdist.
  - unfold SQL.insert_task in H. destruct (negb _); injection H as <- _; [done|].
    intros t' u' [Ht| ->%list_elem_of_singleton]%elem_of_app
      [Hu| ->%list_elem_of_singleton]%elem_of_app; simpl; try done.
    + by apply Hdist.
    + intros E1 E2 E3. exfalso.
      assert (t' ∈ SQL.partition (Task.ProjectID t) (Store.create_status t) db) as Hin
        by by apply list_elem_of_filter.
      apply Habove in Hin. lia.
    + intros E1 E2 E3. exfalso.
      assert (u' ∈ SQL.partition (Task.ProjectID t) (Store.create_status t) db) as Hin
        by by apply list_elem_of_filter.
      apply Habove in Hin. lia.
  - unfold SQL.update_task in H. injection H as <- _.
    assert (∀ u, u ∈ tasks db → Task.ID u = id → u = current) as Hcurrent.
    { intros u Hu Hid.
      rewrite (select_task_unique id db u) in Hcur
        by (try done; by apply consistent_task_ids). by injection Hcur. }
    intros t' u' (t0 & -> & Ht)%list_elem_of_fmap (u0 & -> & Hu)%list_elem_of_fmap.
    destruct (Z.eqb_spec (Task.ID t0) id) as [Et|Et];
      destruct (Z.eqb_spec (Task.ID u0) id) as [Eu|Eu]; simpl; try congruence.
    + apply Hcurrent in Ht as ->; [|done].
      destruct (decide (Store.resolve_status current changes = Task.Status current))
        as [E|E].
      * rewrite E. by apply Hdist; [apply find_elem_of in Hcur as [? _]|].
      * intros E1 E2 E3. exfalso.
        assert (u0 ∈ SQL.partition (Task.ProjectID current)
                       (Store.resolve_status current changes) db) as Hin
          by by apply list_elem_of_filter.
        apply Habove in Hin. lia.
    + apply Hcurrent in Hu as ->; [|done].
      destruct (decide (Store.resolve_status current changes = Task.Status current))
        as [E|E].
      * rewrite E. by apply Hdist; [|apply find_elem_of in Hcur as [? _]].
      * intros E1 E2 E3. exfalso.
        assert (t0 ∈ SQL.partition (Task.ProjectID current)
                       (Store.resolve_status current changes) db) as Hin
          by by apply list_elem_of_filter.
        apply Habove in Hin. lia.
    + by apply Hdist.
  - unfold SQL.delete_task in H. injection H as <- _.
    intros t u [_ Ht]%list_elem_of_filter [_ Hu]%list_elem_of_filter. by apply Hdist.
Qed.

Lemma db_board_distinct : distinct_positions db_board.
Proof.
  intros t u Ht Hu. vm_compute in Ht, Hu.
  repeat (inversion Ht as [|? ? ? Ht']; subst; clear Ht; [|rename Ht' into Ht]);
    try (by inversion Ht);
    repeat (inversion Hu as [|? ? ? Hu']; subst; clear Hu; [|rename Hu' into Hu]);
    try (by inversion Hu);
    vm_compute; intros; congruence.
Qed.

Lemma positions_stay_distinct_witness :
  distinct_positions
    (run Background (mkEnv 160 0) (UpdateTask 3 {[ "status" := AnyString "todo" ]})
       db_board).1.
Proof.
  apply positions_stay_distinct;
    [apply db_board_consistent|apply db_board_distinct|].
  intros t Ht. vm_compute in Ht.
  repeat (inversion Ht as [|? ? ? Ht']; subst; clear Ht;
          [by vm_compute|rename Ht' into Ht]).
  inversion Ht.
Defined.

(** *** Positions grow by column moves alone *)

Lemma run_move id status db current :
  SQL.select_task id db = Some current →
  run_all [move id status] db
  = with_patched_task (mkEnv 0 0) id current {[ "status" := AnyString status ]} db.
Proof.
  intros Hcur. unfold run_all, move. simpl. unfold outcome.
  by rewrite (UpdateTask_ok _ _ _ _ _ current).
Qed.

Lemma resolve_only_status current status :
  valid_status status = true →
  Store.resolve_title current {[ "status" := AnyString status ]} = Task.Title current ∧
  Store.resolve_description current {[ "status" := AnyString status ]}
  = Task.Description current ∧
  Store.resolve_status current {[ "status" := AnyString status ]} = status.
Proof.
  intros Hv. unfold Store.resolve_title, Store.resolve_description, Store.resolve_status.
  rewrite !lookup_singleton_ne by done. rewrite lookup_singleton_eq. simpl.
  by rewrite Hv.
Qed.

(** Task 1 goes to "done" and comes back to "todo": it lands above task 2. *)
Lemma pair_round_trip_1 a b :
  Int64.min <= b < Int64.max →
  run_all [move 1 "done"; move 1 "todo"] (db_pair a b) = db_pair (b + 1) b.
Proof.
  intros Hb. change (run_all [move 1 "done"; move 1 "todo"] (db_pair a b))
    with (run_all [move 1 "todo"] (run_all [move 1 "done"] (db_pair a b))).
  rewrite (run_move 1 "done" _ (Task.mk 1 1 "A" "" "todo" a 0 0)) by reflexivity.
  assert (with_patched_task (mkEnv 0 0) 1 (Task.mk 1 1 "A" "" "todo" a 0 0)
            {[ "status" := AnyString "done" ]} (db_pair a b)
          = mkDB [Project.mk 1 "Launch" "#2563eb" 0 0]
                 [ Task.mk 1 1 "A" "" "done" 0 0 0
                 ; Task.mk 2 1 "B" "" "todo" b 0 0 ] 1 2) as ->
    by (vm_compute; reflexivity).
  rewrite (run_move 1 "todo" _ (Task.mk 1 1 "A" "" "done" 0 0 0)) by reflexivity.
  assert (patched_position (Task.mk 1 1 "A" "" "done" 0 0 0) {[ "status" := AnyString "todo" ]}
            (mkDB [Project.mk 1 "Launch" "#2563eb" 0 0]
                  [ Task.mk 1 1 "A" "" "done" 0 0 0
                  ; Task.mk 2 1 "B" "" "todo" b 0 0 ] 1 2) = b + 1) as Hpos.
  { unfold patched_position.
    destruct (resolve_only_status (Task.mk 1 1 "A" "" "done" 0 0 0) "todo" eq_refl) as (_ & _ & ->).
    rewrite decide_False by done.
    change (Int64.add b 1 = b + 1).
    apply add_one_below_max; unfold Int64.in_range, Int64.max in *; lia. }
  unfold with_patched_task, SQL.update_task. rewrite Hpos.
  destruct (resolve_only_status (Task.mk 1 1 "A" "" "done" 0 0 0) "todo" eq_refl) as (-> & -> & ->).
  reflexivity.
Qed.

(** Task 2 goes to "done" and comes back to "todo": it lands above task 1. *)
Lemma pair_round_trip_2 a b :
  Int64.min <= a < Int64.max →
  run_all [move 2 "done"; move 2 "todo"] (db_pair a b) = db_pair a (a + 1).
Proof.
  intros Ha. change (run_all [move 2 "done"; move 2 "todo"] (db_pair a b))
    with (run_all [move 2 "todo"] (run_all [move 2 "done"] (db_pair a b))).
  rewrite (run_move 2 "done" _ (Task.mk 2 1 "B" "" "todo" b 0 0)) by reflexivity.
  assert (with_patched_task (mkEnv 0 0) 2 (Task.mk 2 1 "B" "" "todo" b 0 0)
            {[ "status" := AnyString "done" ]} (db_pair a b)
          = mkDB [Project.mk 1 "Launch" "#2563eb" 0 0]
                 [ Task.mk 1 1 "A" "" "todo" a 0 0
                 ; Task.mk 2 1 "B" "" "done" 0 0 0 ] 1 2) as ->
    by (vm_compute; reflexivity).
  rewrite (run_move 2 "todo" _ (Task.mk 2 1 "B" "" "done" 0 0 0)) by reflexivity.
  assert (patched_position (Task.mk 2 1 "B" "" "done" 0 0 0) {[ "status" := AnyString "todo" ]}
            (mkDB [Project.mk 1 "Launch" "#2563eb" 0 0]
                  [ Task.mk 1 1 "A" "" "todo" a 0 0
                  ; Task.mk 2 1 "B" "" "done" 0 0 0 ] 1 2) = a + 1) as Hpos.
  { unfold patched_position.
    destruct (resolve_only_status (Task.mk 2 1 "B" "" "done" 0 0 0) "todo" eq_refl) as (_ & _ & ->).
    rewrite decide_False by done.
    change (Int64.add a 1 = a + 1).
    apply add_one_below_max; unfold Int64.in_range, Int64.max in *; lia. }
  unfold with_patched_task, SQL.update_task. rewrite Hpos.
  destruct (resolve_only_status (Task.mk 2 1 "B" "" "done" 0 0 0) "todo" eq_refl) as (-> & -> & ->).
  reflexivity.
Qed.

Lemma db_pair_start : reachable (db_pair 0 1).
Proof.
  assert (db_pair 0 1
          = run_all [ (Background, mkEnv 0 0, CreateProject "Launch" "")
                    ; (Background, mkEnv 0 0, CreateTask (a_task 1 "A" "todo"))
                    ; (Background, mkEnv 0 0, CreateTask (a_task 1 "B" "todo")) ]
              empty_db) as -> by (vm_compute; reflexivity).
  apply reachable_run_all. constructor.
Qed.

Lemma nextPosition_at_max db projectID status ctx m :
  consistent db → permits ctx 1 → is_max_position projectID status db m →
  Store.nextPosition projectID status (ctx, db)
  = ((after 1 ctx, db), inr (if decide (m < Int64.max) then m + 1 else Int64.min)).
Proof.
  intros Hdb Hctx Hm. rewrite nextPosition_run by done.
  rewrite (next_position_max _ _ _ m) by done.
  assert (Int64.in_range m) as Hrg.
  { destruct Hm as [(t & [_ Ht]%list_elem_of_filter & <-) _].
    by apply (positions_int64 db). }
  destruct (decide (m < Int64.max)).
  - by rewrite add_one_below_max.
  - assert (m = Int64.max) as -> by (destruct Hrg; lia). done.
Qed.

(** Two tasks and nothing but column moves reach every position: for each
    [n] from 1 up to the largest [int64], the store can produce a database
    whose column (1, "todo") has largest position [n].  At [n = 2^63 - 1]
    this is a database on which [nextPosition] wraps to [-2^63]. *)
Theorem positions_reach_every_value n :
  1 <= n <= Int64.max →
  ∃ a b, reachable (db_pair a b) ∧ 0 <= a ∧ 0 <= b ∧ Z.max a b = n ∧
         is_max_position 1 "todo" (db_pair a b) n ∧
         Store.nextPosition 1 "todo" (Background, db_pair a b)
         = ((Background, db_pair a b),
            inr (if decide (n < Int64.max) then n + 1 else Int64.min)).
Proof.
  intros Hn.
  enough (∃ a b, reachable (db_pair a b) ∧ 0 <= a ∧ 0 <= b ∧ Z.max a b = n)
    as (a & b & Hr & Ha & Hb & Hmax).
  { exists a, b. repeat (split; [done|]).
    assert (is_max_position 1 "todo" (db_pair a b) n) as Hm.
    { split.
      - destruct (Z.max_spec a b) as [[_ E]|[_ E]]; rewrite E in Hmax; subst n.
        + exists (Task.mk 2 1 "B" "" "todo" b 0 0). split; [|reflexivity].
          apply list_elem_of_filter. split; [done|]. right. left.
        + exists (Task.mk 1 1 "A" "" "todo" a 0 0). split; [|reflexivity].
          apply list_elem_of_filter. split; [done|]. left.
      - intros t Ht.
        assert (t ∈ [Task.mk 1 1 "A" "" "todo" a 0 0; Task.mk 2 1 "B" "" "todo" b 0 0])
          as Ht' by exact Ht.
        apply elem_of_cons in Ht' as [->|Ht']; [simpl; lia|].
        apply list_elem_of_singleton in Ht' as ->. simpl. lia. }
    split; [done|].
    exact (nextPosition_at_max (db_pair a b) 1 "todo" Background n
             (reachable_consistent _ Hr) I Hm). }
  destruct Hn as [H1 Hmax]. revert Hmax.
  apply (Zlt_lower_bound_ind
           (λ n, n <= Int64.max →
                 ∃ a b, reachable (db_pair a b) ∧ 0 <= a ∧ 0 <= b ∧ Z.max a b = n)
           1); [|done].
  clear n H1. intros n IH H1 Hmax.
  destruct (decide (n = 1)) as [->|Hne].
  { exists 0, 1. split; [apply db_pair_start|]. lia. }
  destruct (IH (n - 1)) as (a & b & Hr & Ha & Hb & Hm); [lia..|].
  destruct (Z.max_spec a b) as [[Hab E]|[Hab E]]; rewrite E in Hm.
  - exists (b + 1), b. split.
    + rewrite <- (pair_round_trip_1 a b) by (unfold Int64.min; lia).
      by apply reachable_run_all.
    + lia.
  - exists a, (a + 1). split.
    + rewrite <- (pair_round_trip_2 a b) by (unfold Int64.min; lia).
      by apply reachable_run_all.
    + lia.
Qed.

Lemma positions_reach_every_value_witness :
  ∃ a b, reachable (db_pair a b) ∧
         is_max_position 1 "todo" (db_pair a b) Int64.max ∧
         Store.nextPosition 1 "todo" (Background, db_pair a b)
         = ((Background, db_pair a b), inr Int64.min).
Proof.
  destruct (positions_reach_every_value Int64.max) as (a & b & Hr & _ & _ & _ & Hm & Hnext);
    [by vm_compute|].
  exists a, b. split; [exact Hr|]. split; [exact Hm|exact Hnext].
Defined.

(** *** Patches *)

Lemma find_map_other {A} (f h : A → bool) (g : A → A) l :
  (∀ x, h (g x) = h x) → (∀ x, h x = true → f x = false) →
  find h (map (λ y, if f y then g y else y) l) = find h l.
Proof.
  intros Hg Hf. induction l as [|x l IH]; [done|]. simpl.
  destruct (h x) eqn:Hx.
  - rewrite (Hf x Hx). by rewrite Hx.
  - destruct (f x); [rewrite Hg|]; by rewrite Hx.
Qed.

(** [UpdateTask] on an id without a row is "task not found" and changes
    nothing.  On an existing task, a patch value counts only if it is a
    string: the title is replaced by the trimmed string unless that is empty,
    the description by the trimmed string even if empty, the status by the
    string if it is valid; everything else in the patch is ignored.  The row
    keeps its creation time, gets the current time as [updated_at], is what
    [GetTask] then returns, and no other task changes. *)
Theorem UpdateTask_patch env id changes ctx db :
  permits ctx 4 →
  (SQL.select_task id db = None →
   Store.UpdateTask env id changes (ctx, db)
   = ((after 1 ctx, db), inl (Errorf "task not found" None))) ∧
  (∀ current, SQL.select_task id db = Some current →
   ∃ ctx' db' t',
     Store.UpdateTask env id changes (ctx, db) = ((ctx', db'), inr t') ∧
     SQL.select_task id db' = Some t' ∧
     Task.Title t'
     = match changes !! "title" with
       | Some (AnyString v) =>
           if decide (strings.TrimSpace v = "") then Task.Title current
           else strings.TrimSpace v
       | _ => Task.Title current
       end ∧
     Task.Description t'
     = match changes !! "description" with
       | Some (AnyString v) => strings.TrimSpace v
       | _ => Task.Description current
       end ∧
     Task.Status t'
     = match changes !! "status" with
       | Some (AnyString v) => if valid_status v then v else Task.Status current
       | _ => Task.Status current
       end ∧
     Task.CreatedAt t' = Task.CreatedAt current ∧ Task.UpdatedAt t' = clock env ∧
     projects db' = projects db ∧
     (∀ id', id' ≠ id → SQL.select_task id' db' = SQL.select_task id' db)).
Proof.
  intros Hctx. split.
  - intros Hnone. unfold Store.UpdateTask.
    erewrite bind_fail; [done|]. rewrite GetTask_run, Hnone by ctx_tac. done.
  - intros current Hcur. eexists _, _, _.
    split; [by apply UpdateTask_ok|].
    split; [by apply select_patched_task|].
    split; [|split; [|split]].
    + simpl. unfold Store.resolve_title.
      by destruct (changes !! "title") as [[]|].
    + simpl. unfold Store.resolve_description.
      by destruct (changes !! "description") as [[]|].
    + simpl. unfold Store.resolve_status.
      by destruct (changes !! "status") as [[]|].
    + split; [done|]. split; [done|]. split; [done|].
      intros id' Hne. unfold SQL.select_task, with_patched_task, SQL.update_task. simpl.
      apply find_map_other.
      * done.
      * intros x Hx. apply Z.eqb_eq in Hx. apply Z.eqb_neq. lia.
Qed.

Lemma UpdateTask_patch_witness :
  ∃ ctx' db' t',
    Store.UpdateTask (mkEnv 170 0) 2
      {[ "title" := AnyString "   "; "description" := AnyString "  ";
         "status" := AnyInt 3 ]}
      (Background, db_board) = ((ctx', db'), inr t') ∧
    Task.Title t' = "Review" ∧ Task.Description t' = "" ∧ Task.Status t' = "todo" ∧
    Task.UpdatedAt t' = 170.
Proof.
  destruct (UpdateTask_patch (mkEnv 170 0) 2
              {[ "title" := AnyString "   "; "description" := AnyString "  ";
                 "status" := AnyInt 3 ]} Background db_board I) as [_ H].
  destruct (H (Task.mk 2 1 "Review" "" "todo" 1 102 102))
    as (ctx' & db' & t' & Hrun & _ & Ht & Hd & Hs & _ & Hu & _); [vm_compute; reflexivity|].
  exists ctx', db', t'. split; [exact Hrun|].
  split; [rewrite Ht; vm_compute; reflexivity|].
  split; [rewrite Hd; vm_compute; reflexivity|].
  split; [rewrite Hs; vm_compute; reflexivity|exact Hu].
Defined.

(** [ListTasks] does not look the project up: for an id without a project it
    returns the empty list, not an error, in every database the store
    produces. *)
Theorem ListTasks_unknown_project projectID ctx db :
  reachable db → ¬ project_exists projectID db → permits ctx 1 →
  Store.ListTasks projectID (ctx, db) = ((after 1 ctx, db), inr []).
Proof.
  intros Hdb Hp Hctx. unfold Store.ListTasks.
  erewrite wrapf_run; [|by apply query_run]. do 2 f_equal.
  unfold SQL.select_tasks.
  assert (filter (λ t, Task.ProjectID t = projectID) (tasks db) = []) as ->; [|done].
  destruct (filter _ _) as [|t l] eqn:E; [done|].
  assert (t ∈ filter (λ t, Task.ProjectID t = projectID) (tasks db)) as Ht
    by (rewrite E; left).
  apply list_elem_of_filter in Ht as [Hid Ht].
  destruct Hp. rewrite <- Hid.
  by apply (tasks_have_project db (reachable_consistent db Hdb)).
Qed.

Lemma ListTasks_unknown_project_witness :
  Store.ListTasks 8 (Background, db_board) = ((Background, db_board), inr []).
Proof.
  apply (ListTasks_unknown_project 8 Background db_board db_board_reachable);
    [|exact I].
  intros (p & Hp & Hid). vm_compute in Hp.
  inversion Hp as [|? ? ? Hp']; subst; [vm_compute in Hid; discriminate|inversion Hp'].
Defined.

(** * Properties of the handlers *)

Lemma TrimSpace_empty : strings.TrimSpace "" = "".
Proof. reflexivity. Qed.

Lemma updates_title req :
  server.updates req !! "title"
  = match server.Title req with
    | Some v => if decide (v = "") then None else Some (AnyString v)
    | None => None
    end.
Proof.
  unfold server.updates.
  destruct (server.Status req), (server.Description req), (server.Title req) as [v|];
    try destruct (decide (v = ""));
    rewrite ?lookup_insert_ne by done; rewrite ?lookup_insert_eq, ?lookup_empty; done.
Qed.

Lemma updates_description req :
  server.updates req !! "description" = AnyString <$> server.Description req.
Proof.
  unfold server.updates.
  destruct (server.Status req), (server.Description req), (server.Title req) as [v|];
    try destruct (decide (v = ""));
    rewrite ?lookup_insert_ne by done; rewrite ?lookup_insert_eq, ?lookup_empty; done.
Qed.

Lemma updates_status req :
  server.updates req !! "status" = AnyString <$> server.Status req.
Proof.
  unfold server.updates.
  destruct (server.Status req), (server.Description req), (server.Title req) as [v|];
    try destruct (decide (v = ""));
    rewrite ?lookup_insert_ne by done; rewrite ?lookup_insert_eq, ?lookup_empty; done.
Qed.

(** [handleCreateTask]: a request without a title, or with the empty title,
    is answered 400 "title is required" before the store is called; a title
    of white space only passes that check and is refused by the store; a
    project that does not exist fails on the foreign key; all three answers
    are 400 and leave the database as it was.  Otherwise the answer is 201
    with the new task: trimmed title and description, and the status of the
    request if it is valid, "todo" if it is invalid or absent. *)
Theorem handleCreateTask_outcomes env raw projectID req ctx db :
  strconv.ParseInt raw = Some projectID →
  (server.Title req = None ∨ server.Title req = Some "" →
   server.handleCreateTask env raw (inr req) (ctx, db)
   = ((ctx, db), server.mkResponse 400 (server.ErrorBody "title is required"))) ∧
  (∀ v, server.Title req = Some v → v ≠ "" → strings.TrimSpace v = "" →
   server.handleCreateTask env raw (inr req) (ctx, db)
   = ((ctx, db), server.mkResponse 400 (server.ErrorBody "task title must not be empty"))) ∧
  (∀ v, server.Title req = Some v → strings.TrimSpace v ≠ "" →
   ¬ project_exists projectID db → permits ctx 2 →
   server.handleCreateTask env raw (inr req) (ctx, db)
   = ((after 2 ctx, db),
      server.mkResponse 400
        (server.ErrorBody "insert task: FOREIGN KEY constraint failed"))) ∧
  (∀ v, server.Title req = Some v → strings.TrimSpace v ≠ "" →
   project_exists projectID db → permits ctx 3 →
   ∃ db' t,
     server.handleCreateTask env raw (inr req) (ctx, db)
     = ((after 3 ctx, db'), server.mkResponse 201 (server.TaskBody t)) ∧
     SQL.select_task (Task.ID t) db' = Some t ∧
     Task.ProjectID t = projectID ∧ Task.Title t = strings.TrimSpace v ∧
     Task.Description t = strings.TrimSpace (server.getString (server.Description req)) ∧
     Task.Status t = match server.Status req with
                     | Some s => if valid_status s then s else "todo"
                     | None => "todo"
                     end).
Proof.
  intros Hid. unfold server.handleCreateTask, server.parseID. rewrite Hid.
  split; [|split; [|split]].
  - intros [-> | ->]; [done|]. by rewrite decide_True.
  - intros v -> Hv Htrim. rewrite decide_False by done.
    unfold Store.CreateTask. simpl. by rewrite decide_True.
  - intros v -> Htrim Hp Hctx.
    assert (v ≠ "") as Hv by (intros ->; by rewrite TrimSpace_empty in Htrim).
    rewrite decide_False by done.
    match goal with
    | |- context [Store.CreateTask ?e ?t ?s] =>
        assert (Store.CreateTask e t s
                = ((after 2 ctx, db),
                   inl (Errorf "insert task" (Some ErrConstraintForeignKey)))) as ->
    end; [|done].
    unfold Store.CreateTask. rewrite decide_False by done.
    erewrite bind_run; [|apply nextPosition_run; ctx_tac].
    erewrite bind_fail; cycle 1.
    { apply wrapf_fail. rewrite stmt_run, insert_task_orphan by (try done; ctx_tac).
      reflexivity. }
    by rewrite after_after.
  - intros v -> Htrim Hp Hctx.
    assert (v ≠ "") as Hv by (intros ->; by rewrite TrimSpace_empty in Htrim).
    rewrite decide_False by done.
    rewrite CreateTask_ok by done. eexists _, _. split; [reflexivity|].
    split; [apply select_new_task|]. simpl. split; [done|]. split; [done|].
    split; [done|]. unfold Store.create_status. simpl.
    destruct (server.Status req) as [s|]; simpl; [done|].
    reflexivity.
Qed.

Lemma handleCreateTask_outcomes_witness :
  server.handleCreateTask env0 "1" (inr (server.mkTaskRequest (Some "") None None))
    (Background, db_board)
  = ((Background, db_board),
     server.mkResponse 400 (server.ErrorBody "title is required")) ∧
  server.handleCreateTask env0 "+1" (inr (server.mkTaskRequest (Some "  ") None None))
    (Background, db_board)
  = ((Background, db_board),
     server.mkResponse 400 (server.ErrorBody "task title must not be empty")) ∧
  ∃ db' t,
    server.handleCreateTask (mkEnv 180 0) "001"
      (inr (server.mkTaskRequest (Some " Plan ") None (Some "doing")))
      (Background, db_board)
    = ((Background, db'), server.mkResponse 201 (server.TaskBody t)) ∧
    Task.Title t = "Plan" ∧ Task.Status t = "todo".
Proof.
  split; [|split].
  - destruct (handleCreateTask_outcomes env0 "1" 1
                (server.mkTaskRequest (Some "") None None) Background db_board)
      as (H & _); [reflexivity|]. apply H. by right.
  - destruct (handleCreateTask_outcomes env0 "+1" 1
                (server.mkTaskRequest (Some "  ") None None) Background db_board)
      as (_ & H & _); [reflexivity|]. by apply (H "  ").
  - destruct (handleCreateTask_outcomes (mkEnv 180 0) "001" 1
                (server.mkTaskRequest (Some " Plan ") None (Some "doing"))
                Background db_board)
      as (_ & _ & _ & H); [reflexivity|].
    destruct (H " Plan ") as (db' & t & Hrun & _ & _ & Ht & _ & Hs);
      [reflexivity|vm_compute; discriminate
      |eexists; split; [vm_compute; left|reflexivity]|exact I|].
    exists db', t. split; [exact Hrun|]. split; [exact Ht|exact Hs].
Defined.

(** [handleUpdateTask] on an existing task answers 200 with the updated
    task.  A field the request leaves out keeps its value, and so does the
    title when the request gives an empty or blank one; a description that is
    given replaces the old one, trimmed, even when empty; a status that is
    given replaces the old one only if it is valid.  A request with no
    fields still stamps [updated_at]. *)
Theorem handleUpdateTask_fields env raw id req ctx db current :
  strconv.ParseInt raw = Some id →
  SQL.select_task id db = Some current →
  permits ctx 4 →
  ∃ ctx' db' t',
    server.handleUpdateTask env raw (inr req) (ctx, db)
    = ((ctx', db'), server.mkResponse 200 (server.TaskBody t')) ∧
    SQL.select_task id db' = Some t' ∧
    Task.Title t'
    = match server.Title req with
      | Some v => if decide (strings.TrimSpace v = "") then Task.Title current
                  else strings.TrimSpace v
      | None => Task.Title current
      end ∧
    Task.Description t'
    = match server.Description req with
      | Some v => strings.TrimSpace v
      | None => Task.Description current
      end ∧
    Task.Status t'
    = match server.Status req with
      | Some v => if valid_status v then v else Task.Status current
      | None => Task.Status current
      end ∧
    Task.ID t' = Task.ID current ∧ Task.ProjectID t' = Task.ProjectID current ∧
    Task.CreatedAt t' = Task.CreatedAt current ∧ Task.UpdatedAt t' = clock env ∧
    (server.Status req = None → Task.Position t' = Task.Position current).
Proof.
  intros Hid Hcur Hctx. unfold server.handleUpdateTask, server.parseID. rewrite Hid.
  rewrite (UpdateTask_ok _ _ _ _ _ current) by done.
  eexists _, _, _. split; [reflexivity|].
  split; [by apply select_patched_task|]. simpl.
  unfold Store.resolve_title, Store.resolve_description, Store.resolve_status,
    patched_position, Store.resolve_status.
  rewrite updates_title, updates_description, updates_status.
  split; [|split; [|split]].
  - destruct (server.Title req) as [v|]; simpl; [|done].
    destruct (decide (v = "")) as [->|]; simpl; done.
  - by destruct (server.Description req).
  - by destruct (server.Status req).
  - repeat (split; [done|]). intros ->. simpl. by rewrite decide_True.
Qed.

Lemma handleUpdateTask_fields_witness :
  ∃ ctx' db' t',
    server.handleUpdateTask (mkEnv 190 0) "2"
      (inr (server.mkTaskRequest (Some "") (Some "") None)) (Background, db_board)
    = ((ctx', db'), server.mkResponse 200 (server.TaskBody t')) ∧
    t' = Task.mk 2 1 "Review" "" "todo" 1 102 190.
Proof.
  destruct (handleUpdateTask_fields (mkEnv 190 0) "2" 2
              (server.mkTaskRequest (Some "") (Some "") None) Background db_board
              (Task.mk 2 1 "Review" "" "todo" 1 102 102))
    as (ctx' & db' & t' & Hrun & _ & Ht & Hd & Hs & Hi & Hp & Hc & Hu & Hpos);
    [reflexivity|reflexivity|exact I|].
  exists ctx', db', t'. split; [exact Hrun|].
  specialize (Hpos eq_refl). destruct t'. simpl in *. by subst.
Defined.

(** The handlers have no 404: [handleUpdateTask] and [handleDeleteTask] on an
    id without a task, [handleUpdateProject] and [handleDeleteProject] on an
    id without a project answer 400 with the store's "not found" message, and
    the database stays as it was. *)
Theorem missing_rows_answer_400 env raw id ctx db :
  strconv.ParseInt raw = Some id →
  permits ctx 1 →
  (SQL.select_task id db = None →
   ∀ req,
     server.handleUpdateTask env raw (inr req) (ctx, db)
     = ((after 1 ctx, db), server.mkResponse 400 (server.ErrorBody "task not found")) ∧
     server.handleDeleteTask raw (ctx, db)
     = ((after 1 ctx, db), server.mkResponse 400 (server.ErrorBody "task not found"))) ∧
  (consistent db → ¬ project_exists id db →
   server.handleDeleteProject raw (ctx, db)
   = ((after 1 ctx, db), server.mkResponse 400 (server.ErrorBody "project not found")) ∧
   ∀ req, strings.TrimSpace (server.Name req) ≠ "" →
     server.handleUpdateProject env raw (inr req) (ctx, db)
     = ((after 1 ctx, db), server.mkResponse 400 (server.ErrorBody "project not found"))).
Proof.
  intros Hid Hctx. split.
  - intros Hnone req. split.
    + unfold server.handleUpdateTask, server.parseID. rewrite Hid.
      unfold Store.UpdateTask.
      erewrite bind_fail; [|by rewrite GetTask_run, Hnone]. done.
    + unfold server.handleDeleteTask, server.parseID. rewrite Hid.
      rewrite DeleteTask_missing; [done|done|]. by apply select_task_none.
  - intros Hdb Hp. split.
    + unfold server.handleDeleteProject, server.parseID. rewrite Hid.
      assert (SQL.delete_project id db = (db, inr 0)) as Hdel.
      { unfold SQL.delete_project.
        destruct (existsb _ _) eqn:E; [by apply project_exists_existsb in E|done]. }
      unfold Store.DeleteProject.
      erewrite bind_run; [|apply wrapf_run; rewrite stmt_run, Hdel by done; reflexivity].
      by rewrite decide_True.
    + intros req Hname.
      unfold server.handleUpdateProject, server.parseID. rewrite Hid.
      unfold Store.UpdateProject. rewrite decide_False by done.
      fold (chosen_color env (server.Color req)).
      assert (existsb (λ p, Project.ID p =? id) (projects db) = false) as E.
      { destruct (existsb _ _) eqn:E; [|done]. by apply project_exists_existsb in E. }
      destruct (SQL.update_project (clock env) (strings.TrimSpace (server.Name req))
                  (chosen_color env (server.Color req)) id db) as [db' [e|n]] eqn:Hup.
      { unfold SQL.update_project in Hup. rewrite E in Hup. done. }
      assert (n = 0) as ->.
      { unfold SQL.update_project in Hup. rewrite E in Hup. injection Hup as _ <-.
        destruct (filter _ _) as [|p l] eqn:Ef; [done|].
        assert (p ∈ filter (λ p, Project.ID p = id) (projects db)) as Hin
          by (rewrite Ef; left).
        apply list_elem_of_filter in Hin as [Hpid Hin]. destruct Hp. by exists p. }
      erewrite bind_run; [|apply wrapf_run; rewrite stmt_run, Hup by done; reflexivity].
      apply update_project_rows in Hup as [H0 _]. rewrite (H0 eq_refl).
      by rewrite decide_True.
Qed.

Lemma missing_rows_answer_400_witness :
  server.handleDeleteTask "42" (Background, db_board)
  = ((Background, db_board), server.mkResponse 400 (server.ErrorBody "task not found")) ∧
  server.handleDeleteProject "42" (Background, db_board)
  = ((Background, db_board), server.mkResponse 400 (server.ErrorBody "project not found")).
Proof.
  destruct (missing_rows_answer_400 env0 "42" 42 Background db_board) as [Ht Hp];
    [reflexivity|exact I|].
  split.
  - apply (Ht eq_refl (server.mkTaskRequest None None None)).
  - apply Hp; [apply db_board_consistent|].
    intros (p & Hin & Hid). vm_compute in Hin.
    inversion Hin as [|? ? ? Hin']; subst; [vm_compute in Hid; discriminate|inversion Hin'].
Defined.

(** *** Identifiers *)

Lemma digits_ge acc s z : 0 <= acc → strconv.digits acc s = Some z → 0 <= z.
Proof.
  revert acc. induction s as [|c s IH]; simpl; intros acc Hacc.
  - intros [= <-]. done.
  - unfold strconv.digit.
    destruct (_ && _) eqn:E; [|done]. apply andb_true_iff in E as [E1 E2].
    apply Z.leb_le in E1, E2. apply IH. lia.
Qed.

(** [parseID] yields ids that fit [int64] only, and every handler that takes
    an id answers 400 "invalid identifier" to any other path parameter (an
    empty one, one with a letter or a space, one out of range) without
    running a statement. *)
Theorem invalid_identifiers raw :
  (∀ id, strconv.ParseInt raw = Some id → Int64.in_range id) ∧
  (strconv.ParseInt raw = None →
   ∀ env s,
     let bad := (s, server.mkResponse 400 (server.ErrorBody "invalid identifier")) in
     server.handleListTasks raw s = bad ∧
     server.handleDeleteTask raw s = bad ∧
     server.handleDeleteProject raw s = bad ∧
     (∀ bind, server.handleCreateTask env raw bind s = bad) ∧
     (∀ bind, server.handleUpdateTask env raw bind s = bad) ∧
     (∀ bind, server.handleUpdateProject env raw bind s = bad)).
Proof.
  split.
  - intros id. unfold strconv.ParseInt. destruct raw as [|c s]; [done|].
    destruct (strconv.magnitude _) as [un|] eqn:E; [|done].
    assert (0 <= un) as Hun.
    { unfold strconv.magnitude in E.
      destruct (if (_ || _)%bool then s else String c s); [done|].
      exact (digits_ge 0 _ _ (Z.le_refl 0) E). }
    unfold Int64.in_range, Int64.min, Int64.max.
    destruct (Ascii.N_of_ascii c =? 45)%N.
    + destruct (Z.leb_spec un (2 ^ 63)); [|done]. intros [= <-]. lia.
    + destruct (Z.ltb_spec un (2 ^ 63)); [|done]. intros [= <-]. lia.
  - intros Hbad env s. simpl.
    unfold server.handleListTasks, server.handleDeleteTask, server.handleDeleteProject,
      server.handleCreateTask, server.handleUpdateTask, server.handleUpdateProject,
      server.parseID.
    rewrite Hbad. done.
Qed.

Lemma invalid_identifiers_witness :
  map strconv.ParseInt
    ["12"; "-7"; "+0"; ""; "-"; "1 "; "0x10"; "1_000"; "9223372036854775807";
     "9223372036854775808"; "-9223372036854775808"]
  = [Some 12; Some (-7); Some 0; None; None; None; None; None;
     Some 9223372036854775807; None; Some (-9223372036854775808)] ∧
  server.handleDeleteTask "abc" (Background, db_board)
  = ((Background, db_board),
     server.mkResponse 400 (server.ErrorBody "invalid identifier")).
Proof.
  split; [vm_compute; reflexivity|].
  destruct (invalid_identifiers "abc") as [_ H].
  destruct (H eq_refl env0 (Background, db_board)) as (_ & Hd & _). exact Hd.
Defined.

(** *** The list routes *)

(** [handleListProjects] and [handleListTasks] never change the database.
    While the request's context is live they answer 200 with the rows of the
    SELECT; once it is done they answer 500 with the wrapped "context
    canceled". *)
Theorem list_handlers_read_only raw ctx db :
  (server.handleListProjects (ctx, db)).1.2 = db ∧
  (server.handleListTasks raw (ctx, db)).1.2 = db ∧
  (permits ctx 1 →
   server.handleListProjects (ctx, db)
   = ((after 1 ctx, db),
      server.mkResponse 200 (server.ProjectsBody (SQL.select_projects db))) ∧
   ∀ id, strconv.ParseInt raw = Some id →
     server.handleListTasks raw (ctx, db)
     = ((after 1 ctx, db),
        server.mkResponse 200 (server.TasksBody (SQL.select_tasks id db)))) ∧
  (¬ permits ctx 1 →
   server.handleListProjects (ctx, db)
   = ((ctx, db),
      server.mkResponse 500 (server.ErrorBody "list projects: context canceled")) ∧
   ∀ id, strconv.ParseInt raw = Some id →
     server.handleListTasks raw (ctx, db)
     = ((ctx, db),
        server.mkResponse 500 (server.ErrorBody "list tasks: context canceled"))).
Proof.
  unfold server.handleListProjects, server.handleListTasks, server.parseID,
    Store.ListProjects, Store.ListTasks, wrapf, query, stmt.
  split; [|split; [|split]].
  - by destruct ctx as [|[|n]].
  - destruct (strconv.ParseInt raw); [|done]. by destruct ctx as [|[|n]].
  - intros Hctx. split.
    + destruct ctx as [|[|n]]; [done|simpl in Hctx; lia|].
      simpl. by rewrite Nat.sub_0_r.
    + intros id ->. destruct ctx as [|[|n]]; [done|simpl in Hctx; lia|].
      simpl. by rewrite Nat.sub_0_r.
  - intros Hctx. split.
    + destruct ctx as [|[|n]]; [by destruct Hctx|done|].
      destruct Hctx. simpl. lia.
    + intros id ->. destruct ctx as [|[|n]]; [by destruct Hctx|done|].
      destruct Hctx. simpl. lia.
Qed.

Lemma list_handlers_read_only_witness :
  server.handleListTasks "1" (CancelAfter 1, db_board)
  = ((CancelAfter 0, db_board),
     server.mkResponse 200 (server.TasksBody (SQL.select_tasks 1 db_board))) ∧
  server.handleListProjects (CancelAfter 0, db_board)
  = ((CancelAfter 0, db_board),
     server.mkResponse 500 (server.ErrorBody "list projects: context canceled")).
Proof.
  destruct (list_handlers_read_only "1" (CancelAfter 1) db_board) as (_ & _ & H & _).
  destruct (list_handlers_read_only "1" (CancelAfter 0) db_board) as (_ & _ & _ & H').
  split.
  - apply H; [simpl; lia|reflexivity].
  - apply H'. simpl. lia.
Defined.
